(** * Scroll-phased cube choreography and physics: a shallow embedding

    The development follows the TypeScript sources of the cube scene:

    - [config/cubeTheme.ts], [config/cubeIcons.ts]: the constant tables;
    - [types/cube.ts]: the piece descriptor and the physics state;
    - [utils/createIconTexture.ts]: the canvas icon generator;
    - [components/three/RubiksCubeScene.tsx]: grid builder, physics loop,
      idle and scroll timelines.

    JavaScript numbers are modelled by exact numbers: rationals ([Q]) in the
    grid builder, whose arithmetic is rational and can be run, and real
    numbers ([R]) in the geometry, where the source takes square roots,
    sines and multiples of pi.  Rounding of IEEE doubles is not modelled. *)

From Stdlib Require Import ZArith QArith Qround String List Reals Lra Lia.
From Stdlib Require Import DecimalString Qreals Qminmax.
From Stdlib Require Lqa.
From stdpp Require Import base list option.
Import ListNotations.

Local Open Scope string_scope.
Local Open Scope list_scope.

(** ** Constant tables *)

(** [config/cubeIcons.ts]: an [IconType] is a string literal type; at run
    time any string may flow through it. *)
Module Icons.

Definition IconType := string.

Record CenterFaceIcons := {
  front : IconType;
  back : IconType;
  top : IconType;
  right : IconType;
  left : IconType
}.

Definition CENTER_FACE_ICONS : CenterFaceIcons := {|
  front := "neural-network";
  back := "code-brackets";
  top := "brain";
  right := "data-flow";
  left := "circuit"
|}.

(** The six members of the [IconType] union. *)
Definition knownIcons : list IconType :=
  ["neural-network"; "code-brackets"; "brain"; "data-flow"; "circuit";
   "cube-3d"].

End Icons.

(** [config/cubeTheme.ts], the entries read by the grid builder. *)
Module ThemeQ.

Definition cubeColors : list string :=
  ["#00f5d4"; "#f72585"; "#7b2cbf"; "#1a1a24"; "#adb5bd"; "#f8f9fa"].

(** [structure.gap = 1.05] *)
Definition gap : Q := 105 # 100.

End ThemeQ.

(** ** Grid builder ([slices], the [useMemo] of [RubiksCube]) *)
Module Grid.

Inductive Layer := top | mid | bot.

(** [types/cube.ts], [CubeData].  [color] is [None] where the source
    would read [undefined] from the palette (an index out of range, which
    needs a random draw outside [0, 1)). *)
Record CubeData := {
  id : string;
  localPosition : Q * Q * Q;
  color : option string;
  iconType : option Icons.IconType;
  layer : Layer
}.

Record CubeGridState := {
  g_top : list CubeData;
  g_mid : list CubeData;
  g_bot : list CubeData
}.

(** A template literal prints a number in decimal. *)
Definition numberToString (z : Z) : string :=
  NilZero.string_of_int (Z.to_int z).

(** [`${x}-${y}-${z}`] *)
Definition cubeId (x y z : Z) : string :=
  (numberToString x ++ "-" ++ numberToString y ++ "-" ++ numberToString z)
    %string.

(** The [if / else if] chain that picks the glyph of a centre piece. *)
Definition iconFor (x y z : Z) : option Icons.IconType :=
  if ((z =? 1) && (x =? 0) && (y =? 0))%Z%bool
  then Some (Icons.front Icons.CENTER_FACE_ICONS)
  else if ((z =? -1) && (x =? 0) && (y =? 0))%Z%bool
  then Some (Icons.back Icons.CENTER_FACE_ICONS)
  else if ((y =? 1) && (x =? 0) && (z =? 0))%Z%bool
  then Some (Icons.top Icons.CENTER_FACE_ICONS)
  else if ((x =? 1) && (y =? 0) && (z =? 0))%Z%bool
  then Some (Icons.right Icons.CENTER_FACE_ICONS)
  else if ((x =? -1) && (y =? 0) && (z =? 0))%Z%bool
  then Some (Icons.left Icons.CENTER_FACE_ICONS)
  else None.

Definition layerFor (y : Z) : Layer :=
  if (y =? 1)%Z then top else if (y =? 0)%Z then mid else bot.

(** [colors[Math.floor(r * colors.length)]] for a random draw [r]. *)
Definition colorIndex (r : Q) : Z :=
  Qfloor (r * inject_Z (Z.of_nat (List.length ThemeQ.cubeColors))).

Definition pickColor (r : Q) : option string :=
  let k := colorIndex r in
  if (k <? 0)%Z then None else nth_error ThemeQ.cubeColors (Z.to_nat k).

(** The random source: [rnd k] is what the [k]-th call of [Math.random]
    returns. *)
Definition RandomStream := nat -> Q.

(** Loop state: the three arrays and the number of random draws made. *)
Record Acc := {
  a_top : list CubeData;
  a_mid : list CubeData;
  a_bot : list CubeData;
  a_draws : nat
}.

(** Body of the innermost loop. *)
Definition body (rnd : RandomStream) (x y z : Z) (a : Acc) : Acc :=
  let r := rnd (a_draws a) in
  let cubeData := {|
    id := cubeId x y z;
    localPosition :=
      ((inject_Z x * ThemeQ.gap)%Q, 0%Q, (inject_Z z * ThemeQ.gap)%Q);
    color := pickColor r;
    iconType := iconFor x y z;
    layer := layerFor y
  |} in
  if (y =? 1)%Z then
    {| a_top := a_top a ++ [cubeData]; a_mid := a_mid a; a_bot := a_bot a;
       a_draws := S (a_draws a) |}
  else if (y =? 0)%Z then
    {| a_top := a_top a; a_mid := a_mid a ++ [cubeData]; a_bot := a_bot a;
       a_draws := S (a_draws a) |}
  else
    {| a_top := a_top a; a_mid := a_mid a; a_bot := a_bot a ++ [cubeData];
       a_draws := S (a_draws a) |}.

(** [for (let v = lo; v <= hi; v++) body], with the trip count as fuel. *)
Fixpoint forFrom {A : Type} (fuel : nat) (v hi : Z) (f : Z -> A -> A)
    (a : A) : A :=
  match fuel with
  | O => a
  | S fuel' => if (v <=? hi)%Z then forFrom fuel' (v + 1)%Z hi f (f v a)
               else a
  end.

Definition forLoop {A : Type} (lo hi : Z) (f : Z -> A -> A) (a : A) : A :=
  forFrom (Z.to_nat (hi - lo + 1)) lo hi f a.

Definition slices (rnd : RandomStream) : CubeGridState :=
  let a :=
    forLoop (-1) 1 (fun x =>
      forLoop (-1) 1 (fun y =>
        forLoop (-1) 1 (fun z => body rnd x y z)))
      {| a_top := []; a_mid := []; a_bot := []; a_draws := 0 |} in
  {| g_top := a_top a; g_mid := a_mid a; g_bot := a_bot a |}.

(** The pieces in mount order: top slice, middle slice, bottom slice. *)
Definition allCubes (g : CubeGridState) : list CubeData :=
  g_top g ++ g_mid g ++ g_bot g.

(** The coordinate values and the ids of one horizontal layer, in the
    order in which the loops meet them. *)
Definition axis : list Z := [-1; 0; 1]%Z.

Definition layerIds (y : Z) : list string :=
  flat_map (fun x => List.map (fun z => cubeId x y z) axis) axis.

Definition allCoords : list (Z * Z * Z) :=
  flat_map (fun x =>
    flat_map (fun y => List.map (fun z => (x, y, z)) axis) axis) axis.

Definition occurrences (s : string) (l : list string) : nat :=
  List.length (List.filter (String.eqb s) l).

(** Duplicate check on strings, to run [NoDup] goals. *)
Fixpoint distinctb (l : list string) : bool :=
  match l with
  | [] => true
  | s :: l' => negb (existsb (String.eqb s) l') && distinctb l'
  end.

(** The five designated centre pieces and their glyphs. *)
Definition glyphTable : list (string * Icons.IconType) :=
  [(cubeId 0 0 1, "neural-network"); (cubeId 0 0 (-1), "code-brackets");
   (cubeId 0 1 0, "brain"); (cubeId 1 0 0, "data-flow");
   (cubeId (-1) 0 0, "circuit")].

(** The (id, glyph) pairs of the pieces that carry a glyph. *)
Definition glyphsOf (l : list CubeData) : list (string * Icons.IconType) :=
  flat_map (fun c => match iconType c with
                     | Some t => [(id c, t)]
                     | None => []
                     end) l.

Definition sameGlyphs (a b : list (string * Icons.IconType)) : Prop :=
  forall p, In p a <-> In p b.

End Grid.

(** ** Vectors ([THREE.Vector3])

    The methods of three.js that the scene calls, with their library
    definitions: [length] is [Math.sqrt(x*x + y*y + z*z)], [normalize] is
    [divideScalar(length() || 1)], [divideScalar(s)] is
    [multiplyScalar(1 / s)], [lerp(v, a)] adds [(v - this) * a]. *)
Module THREE.

Local Open Scope R_scope.

Record Vector3 := vec3 { x : R; y : R; z : R }.

Definition zero : Vector3 := vec3 0 0 0.

Definition add (a b : Vector3) : Vector3 :=
  vec3 (x a + x b) (y a + y b) (z a + z b).

Definition sub (a b : Vector3) : Vector3 :=
  vec3 (x a - x b) (y a - y b) (z a - z b).

Definition multiplyScalar (a : Vector3) (s : R) : Vector3 :=
  vec3 (x a * s) (y a * s) (z a * s).

Definition divideScalar (a : Vector3) (s : R) : Vector3 :=
  multiplyScalar a (1 / s).

Definition lengthSq (a : Vector3) : R := x a * x a + y a * y a + z a * z a.

Definition length (a : Vector3) : R := sqrt (lengthSq a).

(** [this.length() || 1]: a zero length is falsy. *)
Definition normalize (a : Vector3) : Vector3 :=
  divideScalar a (if Req_dec_T (length a) 0 then 1 else length a).

Definition distanceToSquared (a b : Vector3) : R :=
  let dx := x a - x b in
  let dy := y a - y b in
  let dz := z a - z b in
  dx * dx + dy * dy + dz * dz.

Definition distanceTo (a b : Vector3) : R := sqrt (distanceToSquared a b).

Definition lerp (a v : Vector3) (alpha : R) : Vector3 :=
  vec3 (x a + (x v - x a) * alpha)
       (y a + (y v - y a) * alpha)
       (z a + (z v - z a) * alpha).

(** A mounted piece: the [THREE.Group] behind a [Cube], with the
    transforms the scene animates and the [userData.id] tag. *)
Record Group := {
  position : Vector3;
  rotation : Vector3;
  scale : Vector3;
  userDataId : string
}.

Definition setPosition (m : Group) (p : Vector3) : Group :=
  {| position := p; rotation := rotation m; scale := scale m;
     userDataId := userDataId m |}.

Definition setRotation (m : Group) (r : Vector3) : Group :=
  {| position := position m; rotation := r; scale := scale m;
     userDataId := userDataId m |}.

Definition setScale (m : Group) (s : Vector3) : Group :=
  {| position := position m; rotation := rotation m; scale := s;
     userDataId := userDataId m |}.

End THREE.

(** [config/cubeTheme.ts], the numeric entries read by the scene. *)
Module CUBE_THEME.

Local Open Scope R_scope.

Definition floorY : R := -5.0.
Definition repulsionRadius : R := 4.0.
Definition repulsionForce : R := 45.0.
Definition drag : R := 0.96.
Definition collisionMinDist : R := 1.1.
Definition collisionForce : R := 15.0.

Definition scrollSmoothness : R := 1.2.
Definition explosionDuration : R := 1.0.

Definition mobileScale : R := 0.65.
Definition mobilePosition : THREE.Vector3 := THREE.vec3 0 (-2.8) 0.
Definition desktopScale : R := 0.95.
Definition desktopPosition : THREE.Vector3 := THREE.vec3 3.5 0 0.

End CUBE_THEME.

(** ** Physics loop (the [useFrame] callback of [RubiksCube]) *)
Module Physics.

Import THREE.
Local Open Scope R_scope.

Definition PHYSICS_FLOOR_Y : R := CUBE_THEME.floorY.

(** [types/cube.ts], [PhysicsState]. *)
Record PhysicsState := {
  active : bool;
  velocities : list Vector3;
  offsets : list Vector3
}.

(** The refs of the component that the frame callback reads and writes.
    [draws] counts the calls of [Math.random] made so far. *)
Record World := {
  physics : PhysicsState;
  cubesRefs : list Group;
  dragRef : option nat;
  draws : nat
}.

(** What a frame receives from outside: the elapsed times, the pointer
    projected on the floor plane ([mouseWorldPos]), the viewport width, the
    random source, and the world position of piece [i] when its local
    position is [p] (the transforms of its parents, which the loop does
    not change). *)
Record Frame := {
  delta : R;
  elapsedTime : R;
  mouseWorldPos : Vector3;
  viewportWidth : R;
  random : nat -> R;
  getWorldPosition : nat -> Vector3 -> Vector3
}.

Definition setVelocities (w : World) (vs : list Vector3) : World :=
  {| physics := {| active := active (physics w); velocities := vs;
                   offsets := offsets (physics w) |};
     cubesRefs := cubesRefs w; dragRef := dragRef w; draws := draws w |}.

Definition setCubes (w : World) (cs : list Group) : World :=
  {| physics := physics w; cubesRefs := cs; dragRef := dragRef w;
     draws := draws w |}.

Definition setDraws (w : World) (n : nat) : World :=
  {| physics := physics w; cubesRefs := cubesRefs w; dragRef := dragRef w;
     draws := n |}.

(** The initial ref and the mount effect that fills the two arrays. *)
Definition initialPhysics : PhysicsState :=
  {| active := false; velocities := []; offsets := [] |}.

Fixpoint pushZeros (n : nat) (p : PhysicsState) : PhysicsState :=
  match n with
  | O => p
  | S n' =>
      pushZeros n'
        {| active := active p;
           velocities := velocities p ++ [vec3 0 0 0];
           offsets := offsets p ++ [vec3 0 0 0] |}
  end.

Definition totalCubes : nat := 27.

Definition initPhysics (p : PhysicsState) : PhysicsState :=
  pushZeros totalCubes p.

(** [array.forEach((_, i) => f i)] over [n] entries from index [i]; [None]
    is an exception escaping the callback. *)
Fixpoint forEachFrom {S : Type} (n i : nat) (f : nat -> S -> option S)
    (s : S) : option S :=
  match n with
  | O => Some s
  | Datatypes.S n' =>
      match f i s with
      | Some s' => forEachFrom n' (Datatypes.S i) f s'
      | None => None
      end
  end.

Definition worldWidth (fr : Frame) : R := viewportWidth fr / 2.

Definition safeBoundary (fr : Frame) : R := Rmax 2 (worldWidth fr - 1).

Definition floorOf (p : Vector3) : Vector3 :=
  vec3 (x p) PHYSICS_FLOOR_Y (z p).

(** *** Drag logic *)

Definition dragMinDist : R := 1.3.

Definition dragTarget (fr : Frame) : Vector3 :=
  vec3 (x (mouseWorldPos fr)) (PHYSICS_FLOOR_Y + 0.5) (z (mouseWorldPos fr)).

(** The impulse given to a piece at world position [otherPos] by the
    dragged piece at [p], at distance [dist]. *)
Definition dragImpulse (fr : Frame) (p otherPos : Vector3) (dist : R)
    : Vector3 :=
  let pushDir := normalize (sub otherPos p) in
  let force := (dragMinDist - dist) * 30.0 in
  multiplyScalar pushDir (force * delta fr).

(** The velocity of piece [j], at local position [pj], once the dragged
    piece at [p] has passed over it. *)
Definition pushedVelocity (fr : Frame) (p : Vector3) (j : nat)
    (pj vj : Vector3) : Vector3 :=
  let otherPos := getWorldPosition fr j pj in
  let dist := distanceTo p otherPos in
  if Rlt_dec dist dragMinDist
  then add vj (dragImpulse fr p otherPos dist)
  else vj.

(** What the loop over the other pieces has made of the velocity slot
    of piece [j] once it has passed index [j]; [i] is the dragged piece. *)
Definition pushedAt (fr : Frame) (i : nat) (p : Vector3) (w : World)
    (j : nat) : option Vector3 :=
  if Nat.eqb i j then velocities (physics w) !! j
  else
    match cubesRefs w !! j, velocities (physics w) !! j with
    | Some mj, Some vj => Some (pushedVelocity fr p j (position mj) vj)
    | _, _ => velocities (physics w) !! j
    end.

(** Body of the inner [forEach] of the drag branch. *)
Definition pushOther (fr : Frame) (i : nat) (p : Vector3) (j : nat)
    (w : World) : option World :=
  if Nat.eqb i j then Some w
  else
    match cubesRefs w !! j with
    | None => Some w
    | Some otherMesh =>
        let otherPos := getWorldPosition fr j (position otherMesh) in
        let dist := distanceTo p otherPos in
        if Rlt_dec dist dragMinDist
        then
          match velocities (physics w) !! j with
          | None => None
          | Some vj =>
              Some (setVelocities w
                (<[j := add vj (dragImpulse fr p otherPos dist)]>
                   (velocities (physics w))))
          end
        else Some w
    end.

Definition dragStep (fr : Frame) (i : nat) (mesh : Group) (w : World)
    : option World :=
  let targetPos := dragTarget fr in
  let moveDiff := sub targetPos (position mesh) in
  let newPos := lerp (position mesh) targetPos 0.2 in
  let w1 := setVelocities w
              (<[i := multiplyScalar moveDiff 10]> (velocities (physics w))) in
  let w2 := setCubes w1 (<[i := setPosition mesh newPos]> (cubesRefs w1)) in
  forEachFrom (List.length (cubesRefs w2)) 0 (pushOther fr i newPos) w2.

(** *** Free pieces *)

(** Mouse repulsion, skipped while any piece is dragged. *)
Definition mouseRepulsion (fr : Frame) (dragging : option nat)
    (currentWorldPos : Vector3) (velocity : Vector3) : Vector3 :=
  match dragging with
  | Some _ => velocity
  | None =>
      let meshFloorPos := floorOf currentWorldPos in
      let mouseFloorPos := floorOf (mouseWorldPos fr) in
      let distToMouse := distanceTo meshFloorPos mouseFloorPos in
      if Rlt_dec distToMouse CUBE_THEME.repulsionRadius
      then
        let forceDir := normalize (sub meshFloorPos mouseFloorPos) in
        let force :=
          (1 - distToMouse / CUBE_THEME.repulsionRadius)
          * CUBE_THEME.repulsionForce in
        add velocity (multiplyScalar forceDir (force * delta fr))
      else velocity
  end.

(** Body of the collision [forEach]: the state is the velocity of piece
    [i] and the number of random draws. *)
Definition collide (fr : Frame) (cubes : list Group) (i : nat)
    (currentWorldPos : Vector3) (j : nat) (s : Vector3 * nat)
    : option (Vector3 * nat) :=
  if Nat.eqb i j then Some s
  else
    match cubes !! j with
    | None => Some s
    | Some otherMesh =>
        let otherPos := getWorldPosition fr j (position otherMesh) in
        let dist := distanceTo currentWorldPos otherPos in
        if Rlt_dec dist CUBE_THEME.collisionMinDist
        then
          let '(velocity, n) := s in
          let d := normalize (sub currentWorldPos otherPos) in
          let pushDir :=
            vec3 (x d + (random fr n - 0.5) * 0.1)
                 (y d)
                 (z d + (random fr (S n) - 0.5) * 0.1) in
          let force :=
            (CUBE_THEME.collisionMinDist - dist) * CUBE_THEME.collisionForce in
          Some (add velocity (multiplyScalar pushDir (force * delta fr)),
                S (S n))
        else Some s
    end.

Definition collisions (fr : Frame) (cubes : list Group) (i : nat)
    (currentWorldPos : Vector3) (s : Vector3 * nat)
    : option (Vector3 * nat) :=
  forEachFrom (List.length cubes) 0 (collide fr cubes i currentWorldPos) s.

(** Wall collision on the x position and the x velocity. *)
Definition wallCollision (safe : R) (px vx : R) : R * R :=
  if Rgt_dec px safe then (safe, vx * -0.8)
  else if Rlt_dec px (- safe) then (- safe, vx * -0.8)
  else (px, vx).

(** Wall collision, velocity applied, idle bobbing, friction. *)
Definition integrate (fr : Frame) (i : nat) (p v : Vector3)
    : Vector3 * Vector3 :=
  let '(px, vx) := wallCollision (safeBoundary fr) (x p) (x v) in
  let p' :=
    vec3 (px + vx * delta fr)
         (y p + sin (elapsedTime fr * 3 + INR i) * 0.003)
         (z p + z v * delta fr) in
  (p', multiplyScalar (vec3 vx (y v) (z v)) CUBE_THEME.drag).

(** The velocity of piece [i] when its wall check is reached, with the
    random draws made on the way. *)
Definition impulses (fr : Frame) (w : World) (i : nat) (mesh : Group)
    (velocity : Vector3) : option (Vector3 * nat) :=
  let currentWorldPos := getWorldPosition fr i (position mesh) in
  collisions fr (cubesRefs w) i currentWorldPos
    (mouseRepulsion fr (dragRef w) currentWorldPos velocity, draws w).

Definition freeStep (fr : Frame) (i : nat) (mesh : Group)
    (velocity : Vector3) (w : World) : option World :=
  match impulses fr w i mesh velocity with
  | None => None
  | Some (v1, n) =>
      let '(p', v') := integrate fr i (position mesh) v1 in
      Some (setDraws
              (setCubes
                 (setVelocities w (<[i := v']> (velocities (physics w))))
                 (<[i := setPosition mesh p']> (cubesRefs w)))
              n)
  end.

(** Body of the outer [forEach].  Reading a field of a missing velocity
    raises. *)
Definition stepPiece (fr : Frame) (i : nat) (w : World) : option World :=
  match cubesRefs w !! i with
  | None => Some w
  | Some mesh =>
      match velocities (physics w) !! i with
      | None => None
      | Some velocity =>
          match dragRef w with
          | Some k =>
              if Nat.eqb k i then dragStep fr i mesh w
              else freeStep fr i mesh velocity w
          | None => freeStep fr i mesh velocity w
          end
      end
  end.

Definition useFrame (fr : Frame) (w : World) : option World :=
  if active (physics w)
  then forEachFrom (List.length (cubesRefs w)) 0 (stepPiece fr) w
  else Some w.

(** Every mounted piece has a velocity slot (the mount effect pushes 27
    of them). *)
Definition roomy (w : World) : Prop :=
  (List.length (cubesRefs w) <= List.length (velocities (physics w)))%nat.

(** *** Pointer handlers *)

Definition handlePointerUp (w : World) : World :=
  {| physics := physics w; cubesRefs := cubesRefs w; dragRef := None;
     draws := draws w |}.

Definition handleCubePointerDown (index : nat) (w : World) : World :=
  if active (physics w)
  then {| physics := physics w; cubesRefs := cubesRefs w;
          dragRef := Some index; draws := draws w |}
  else w.

End Physics.

(** ** Mounting the grid (the render function and [addToRefs]) *)
Module Scene.

Import THREE.
Local Open Scope R_scope.

(** The three slice groups, the main group and the piece refs, collected
    in render order: top slice, middle slice, bottom slice. *)
Record Stage := {
  mainGroupRef : Group;
  topSliceRef : Group;
  midSliceRef : Group;
  botSliceRef : Group;
  cubesRefs : list Group
}.

Definition toVector3 (p : Q * Q * Q) : Vector3 :=
  let '(a, b, c) := p in vec3 (Q2R a) (Q2R b) (Q2R c).

(** [<Cube position={c.localPosition} ... />] with its ref callback. *)
Definition mountCube (c : Grid.CubeData) : Group :=
  {| position := toVector3 (Grid.localPosition c);
     rotation := vec3 0 0 0;
     scale := vec3 1 1 1;
     userDataId := Grid.id c |}.

Definition mountCubes (g : Grid.CubeGridState) : list Group :=
  List.map mountCube (Grid.allCubes g).

Definition sliceGroup (offsetY : R) : Group :=
  {| position := vec3 0 offsetY 0; rotation := vec3 0 0 0;
     scale := vec3 1 1 1; userDataId := "" |}.

(** The vertical placement of the slice of the pieces with coordinate
    [y], and the coordinates of the pieces in mount order. *)
Definition sliceY (y : Z) : R :=
  if (y =? 1)%Z then 1.05 else if (y =? 0)%Z then 0 else -1.05.

Definition mountOrder : list (Z * Z * Z) :=
  flat_map (fun y =>
    flat_map (fun x => List.map (fun z => (x, y, z)) Grid.axis) Grid.axis)
    [1; 0; -1]%Z.

Definition mount (g : Grid.CubeGridState) : Stage :=
  {| mainGroupRef := sliceGroup 0;
     topSliceRef := sliceGroup 1.05;
     midSliceRef := sliceGroup 0;
     botSliceRef := sliceGroup (-1.05);
     cubesRefs := mountCubes g |}.

End Scene.

(** ** Tweens and timelines (GSAP)

    The part of the animation library the scroll timelines rely on: a
    [to] tween records the current value of its target when it is first
    rendered, and then writes [start + (end - start) * ease(t)] for the
    local time [t] of the playhead, clamped to the tween; a timeline
    renders its tweens in insertion order; a scrubbed timeline is rendered
    at [progress * duration]. *)
Module Gsap.

Import THREE Scene.
Local Open Scope R_scope.

Inductive Ease := Power1Out | Power1InOut | Power2Out | Power2InOut.

Definition easeOut (power : nat) (p : R) : R := 1 - (1 - p) ^ power.

Definition easeInOut (power : nat) (p : R) : R :=
  if Rlt_dec p 0.5 then (p * 2) ^ power / 2
  else 1 - ((1 - p) * 2) ^ power / 2.

Definition easeFn (e : Ease) (p : R) : R :=
  match e with
  | Power1Out => easeOut 2 p
  | Power1InOut => easeInOut 2 p
  | Power2Out => easeOut 3 p
  | Power2InOut => easeInOut 3 p
  end.

(** The objects the timelines animate. *)
Inductive Target :=
| MainPosition
| MainRotation
| MainScale
| SliceRotation (l : Grid.Layer)
| CubePosition (i : nat)
| CubeRotation (i : nat).

Definition getTarget (t : Target) (s : Stage) : Vector3 :=
  match t with
  | MainPosition => position (mainGroupRef s)
  | MainRotation => rotation (mainGroupRef s)
  | MainScale => scale (mainGroupRef s)
  | SliceRotation Grid.top => rotation (topSliceRef s)
  | SliceRotation Grid.mid => rotation (midSliceRef s)
  | SliceRotation Grid.bot => rotation (botSliceRef s)
  | CubePosition i =>
      match cubesRefs s !! i with
      | Some m => position m
      | None => zero
      end
  | CubeRotation i =>
      match cubesRefs s !! i with
      | Some m => rotation m
      | None => zero
      end
  end.

Definition withMain (s : Stage) (g : Group) : Stage :=
  {| mainGroupRef := g; topSliceRef := topSliceRef s;
     midSliceRef := midSliceRef s; botSliceRef := botSliceRef s;
     cubesRefs := cubesRefs s |}.

Definition withCubes (s : Stage) (l : list Group) : Stage :=
  {| mainGroupRef := mainGroupRef s; topSliceRef := topSliceRef s;
     midSliceRef := midSliceRef s; botSliceRef := botSliceRef s;
     cubesRefs := l |}.

Definition setTarget (t : Target) (v : Vector3) (s : Stage) : Stage :=
  match t with
  | MainPosition => withMain s (setPosition (mainGroupRef s) v)
  | MainRotation => withMain s (setRotation (mainGroupRef s) v)
  | MainScale => withMain s (setScale (mainGroupRef s) v)
  | SliceRotation Grid.top =>
      {| mainGroupRef := mainGroupRef s;
         topSliceRef := setRotation (topSliceRef s) v;
         midSliceRef := midSliceRef s; botSliceRef := botSliceRef s;
         cubesRefs := cubesRefs s |}
  | SliceRotation Grid.mid =>
      {| mainGroupRef := mainGroupRef s; topSliceRef := topSliceRef s;
         midSliceRef := setRotation (midSliceRef s) v;
         botSliceRef := botSliceRef s; cubesRefs := cubesRefs s |}
  | SliceRotation Grid.bot =>
      {| mainGroupRef := mainGroupRef s; topSliceRef := topSliceRef s;
         midSliceRef := midSliceRef s;
         botSliceRef := setRotation (botSliceRef s) v;
         cubesRefs := cubesRefs s |}
  | CubePosition i =>
      match cubesRefs s !! i with
      | Some m => withCubes s (<[i := setPosition m v]> (cubesRefs s))
      | None => s
      end
  | CubeRotation i =>
      match cubesRefs s !! i with
      | Some m => withCubes s (<[i := setRotation m v]> (cubesRefs s))
      | None => s
      end
  end.

(** A [to] tween of all three components of its target.  [from] is the
    start value, unset until the first render. *)
Record Tween := {
  target : Target;
  toVars : Vector3;
  duration : R;
  ease : Ease;
  startAt : R;
  from : option Vector3
}.

Definition defaultDuration : R := 0.5.
Definition defaultEase : Ease := Power1Out.

Definition to (t : Target) (vars : Vector3) (d : R) (e : Ease) (at_ : R)
    : Tween :=
  {| target := t; toVars := vars; duration := d; ease := e;
     startAt := at_; from := None |}.

Definition setFrom (tw : Tween) (v : Vector3) : Tween :=
  {| target := target tw; toVars := toVars tw; duration := duration tw;
     ease := ease tw; startAt := startAt tw; from := Some v |}.

(** Progress of a tween when the playhead of its timeline is at [time]. *)
Definition localProgress (tw : Tween) (time : R) : R :=
  if Rle_dec time (startAt tw) then 0
  else if Rle_dec (startAt tw + duration tw) time then 1
  else (time - startAt tw) / duration tw.

Definition interpolate (s e : Vector3) (ratio : R) : Vector3 :=
  vec3 (x s + (x e - x s) * ratio)
       (y s + (y e - y s) * ratio)
       (z s + (z e - z s) * ratio).

Definition tweenValue (tw : Tween) (start : Vector3) (time : R) : Vector3 :=
  interpolate start (toVars tw) (easeFn (ease tw) (localProgress tw time)).

Definition startOf (tw : Tween) (s : Stage) : Vector3 :=
  match from tw with
  | Some v => v
  | None => getTarget (target tw) s
  end.

Definition renderTween (time : R) (tw : Tween) (s : Stage)
    : Tween * Stage :=
  let start := startOf tw s in
  (setFrom tw start, setTarget (target tw) (tweenValue tw start time) s).

(** A target that exists on the stage: piece targets are the mounted
    pieces. *)
Definition validTarget (s : Stage) (t : Target) : Prop :=
  match t with
  | CubePosition i | CubeRotation i => (i < List.length (cubesRefs s))%nat
  | _ => True
  end.

Definition Timeline := list Tween.

(** The tweens of a timeline once they have recorded their start values on
    the stage [s]. *)
Definition primed (s : Stage) (tl : Timeline) : Timeline :=
  List.map (fun tw => setFrom tw (startOf tw s)) tl.

(** The states a scrubbed timeline [tl], set up on the stage [s0], goes
    through: the initial one, or the tweens primed on [s0] with some later
    stage. *)
Definition reached (tl : Timeline) (s0 : Stage) (ts : Timeline * Stage)
    : Prop :=
  ts = (tl, s0)
  \/ (fst ts = primed s0 tl
      /\ List.length (cubesRefs (snd ts)) = List.length (cubesRefs s0)).

Fixpoint renderTweens (time : R) (tl : Timeline) (s : Stage)
    : Timeline * Stage :=
  match tl with
  | [] => ([], s)
  | tw :: rest =>
      let '(tw', s1) := renderTween time tw s in
      let '(rest', s2) := renderTweens time rest s1 in
      (tw' :: rest', s2)
  end.

Definition totalDuration (tl : Timeline) : R :=
  fold_right (fun tw d => Rmax (startAt tw + duration tw) d) 0 tl.

(** A scrubbed timeline driven to [progress]. *)
Definition scrub (progress : R) (ts : Timeline * Stage) : Timeline * Stage :=
  renderTweens (progress * totalDuration (fst ts)) (fst ts) (snd ts).

(** Driving the scroll through a sequence of progress values, the
    timeline being the only writer of the stage.  The first phase, in
    which the idle timeline writes the stage too, is [Phase1.run]. *)
Definition scrubAll (ps : list R) (ts : Timeline * Stage)
    : Timeline * Stage :=
  fold_left (fun acc p => scrub p acc) ps ts.

End Gsap.

(** ** Scroll animations (the [useLayoutEffect] of [RubiksCube]) *)
Module Choreography.

Import THREE Scene Gsap.
Local Open Scope R_scope.

(** What the effect reads from outside: the media query, the viewport
    width and the random source. *)
Record Setup := {
  isMobile : bool;
  screenWidth : R;
  random : nat -> R
}.

(** *** Initial state *)

Definition startPos (c : Setup) : Vector3 :=
  if isMobile c then CUBE_THEME.mobilePosition
  else CUBE_THEME.desktopPosition.

Definition startScale (c : Setup) : R :=
  if isMobile c then CUBE_THEME.mobileScale else CUBE_THEME.desktopScale.

Definition initialState (c : Setup) (s : Stage) : Stage :=
  withMain s
    {| position := startPos c;
       rotation := vec3 0.3 (-0.5) 0;
       scale := vec3 (startScale c) (startScale c) (startScale c);
       userDataId := userDataId (mainGroupRef s) |}.

(** *** Phase 1 to 2: hero to details ([tl1]) *)

Definition centerPosDetails (c : Setup) : Vector3 :=
  if isMobile c then vec3 0 0.5 0 else vec3 0 (-2.5) 0.

Definition detailScale (c : Setup) : R := if isMobile c then 0.6 else 0.9.

Definition tl1 (c : Setup) : Timeline :=
  [ to MainRotation (vec3 0.2 (PI * 0.25) 0) 1 Power2InOut 0;
    to MainPosition (centerPosDetails c) defaultDuration Power1InOut 0;
    to MainScale (vec3 (detailScale c) (detailScale c) (detailScale c))
       defaultDuration Power1InOut 0 ].

(** *** Phase 2 to 3: details to breakdown, the explosion ([tl2]) *)

Definition breakdownScale (c : Setup) : R :=
  if isMobile c then 0.55 else 0.8.

(** [slices.top.find(...) ? 1.05 : slices.bot.find(...) ? -1.05 : 0] *)
Definition parentY (g : Grid.CubeGridState) (mesh : Group) : R :=
  match List.find (fun c => String.eqb (Grid.id c) (userDataId mesh))
                  (Grid.g_top g) with
  | Some _ => 1.05
  | None =>
      match List.find (fun c => String.eqb (Grid.id c) (userDataId mesh))
                      (Grid.g_bot g) with
      | Some _ => -1.05
      | None => 0
      end
  end.

(** The vector that is normalised: offset within the slice, combined
    with the vertical placement of the slice. *)
Definition combined (mesh : Group) (pY : R) : Vector3 :=
  vec3 (x (position mesh)) pY (z (position mesh)).

Definition explodeDirection (mesh : Group) (pY : R) : Vector3 :=
  let direction := normalize (combined mesh pY) in
  if Req_dec_T (length direction) 0 then vec3 0 1 0 else direction.

Definition safeSpread (c : Setup) : R := Rmin 3.0 (screenWidth c * 0.25).

(** [explodeDist], for the random draw [r]. *)
Definition explodeDist (c : Setup) (r : R) : R := safeSpread c + r * 2.

Definition explodeTarget (c : Setup) (mesh : Group) (pY : R) (r : R)
    : Vector3 :=
  let direction := explodeDirection mesh pY in
  let d := explodeDist c r in
  vec3 (x (position mesh) + x direction * (d * 0.7))
       (y (position mesh) + y direction * d - pY)
       (z (position mesh) + z direction * d).

(** The two tweens of piece [i]; it makes four random draws, starting at
    draw [n]. *)
Definition explodeTweens (c : Setup) (g : Grid.CubeGridState) (n i : nat)
    (mesh : Group) : list Tween :=
  [ to (CubePosition i)
       (explodeTarget c mesh (parentY g mesh) (random c n))
       defaultDuration Power2Out 0;
    to (CubeRotation i)
       (vec3 (random c (n + 1) * PI * 2)
             (random c (n + 2) * PI * 2)
             (random c (n + 3) * PI * 2))
       CUBE_THEME.explosionDuration defaultEase 0 ].

(** [cubesRefs.current.forEach((mesh) => ...)], from index [i]. *)
Fixpoint explodeAll (c : Setup) (g : Grid.CubeGridState) (i : nat)
    (meshes : list Group) : list Tween :=
  match meshes with
  | [] => []
  | mesh :: rest =>
      explodeTweens c g (4 * i) i mesh ++ explodeAll c g (S i) rest
  end.

Definition tl2 (c : Setup) (g : Grid.CubeGridState) (s : Stage)
    : Timeline :=
  [ to (SliceRotation Grid.top) (vec3 0 0 0) 0.3 Power2InOut 0;
    to (SliceRotation Grid.mid) (vec3 0 0 0) 0.3 Power2InOut 0;
    to (SliceRotation Grid.bot) (vec3 0 0 0) 0.3 Power2InOut 0;
    to MainPosition (vec3 0 0 0) defaultDuration Power2InOut 0;
    to MainScale
       (vec3 (breakdownScale c) (breakdownScale c) (breakdownScale c))
       defaultDuration Power2InOut 0;
    to MainRotation (vec3 0.5 (PI * 2.25) 0.2) defaultDuration
       Power2InOut 0 ]
  ++ explodeAll c g 0 (cubesRefs s).

(** The targets of the tweens of [n] pieces from index [i], in order. *)
Definition cubeTargets (i n : nat) : list Target :=
  flat_map (fun k => [CubePosition k; CubeRotation k]) (seq i n).

(** The group-space position of a piece: its position within the slice
    raised by the vertical placement of the slice. *)
Definition inGroup (p : Vector3) (pY : R) : Vector3 :=
  vec3 (x p) (y p + pY) (z p).

(** *** Phase 3 to 4: breakdown to footer ([tl3], its callbacks) *)

Definition onLeave (p : Physics.PhysicsState) : Physics.PhysicsState :=
  {| Physics.active := true;
     Physics.velocities := Physics.velocities p;
     Physics.offsets := Physics.offsets p |}.

Definition onEnterBack (p : Physics.PhysicsState) : Physics.PhysicsState :=
  {| Physics.active := false;
     Physics.velocities :=
       List.map (fun _ => vec3 0 0 0) (Physics.velocities p);
     Physics.offsets := Physics.offsets p |}.

(** A scroll trigger between the scroll offsets [startPx] and [endPx]:
    [onLeave] fires when the scroll position moves forward past the end,
    [onEnterBack] when it moves backward past the end.  [past] remembers
    on which side of the end the last update was. *)
Record ScrollTrigger := {
  startPx : R;
  endPx : R;
  past : bool
}.

Definition isPast (t : ScrollTrigger) (scroll : R) : bool :=
  if Rle_dec (endPx t) scroll then true else false.

Definition setPast (t : ScrollTrigger) (b : bool) : ScrollTrigger :=
  {| startPx := startPx t; endPx := endPx t; past := b |}.

(** One scroll update of the trigger of [tl3]. *)
Definition onScroll (scroll : R)
    (st : ScrollTrigger * Physics.PhysicsState)
    : ScrollTrigger * Physics.PhysicsState :=
  let '(t, p) := st in
  let now := isPast t scroll in
  (setPast t now,
   match past t, now with
   | false, true => onLeave p
   | true, false => onEnterBack p
   | _, _ => p
   end).

End Choreography.

(** ** Icon texture generator ([utils/createIconTexture.ts]) *)
Module Canvas.

Local Open Scope R_scope.

(** The calls and property writes made on a [CanvasRenderingContext2D].
    A drawing is the sequence of them, oldest first. *)
Inductive Op :=
| ClearRect (x y w h : R)
| StrokeStyle (c : string)
| FillStyle (c : string)
| LineWidth (w : R)
| LineCap (s : string)
| LineJoin (s : string)
| GlobalAlpha (a : R)
| BeginPath
| ClosePath
| MoveTo (x y : R)
| LineTo (x y : R)
| Arc (x y radius startAngle endAngle : R) (counterclockwise : bool)
| Stroke
| Fill
| StrokeRect (x y w h : R).

(** The document the function runs in: whether [getContext('2d')] yields
    a context, and the PNG encoder behind [toDataURL]. *)
Record Dom := {
  context2d : bool;
  toDataURL : list Op -> string
}.

(** How a call ends: it returns, or an exception reaches the caller. *)
Inductive Completion (A : Type) :=
| Normal (a : A)
| Throw (error : string).
Arguments Normal {A} a.
Arguments Throw {A} error.

(** The value returned, the lines written with [console.error], and the
    drawing made on the canvas. *)
Record Outcome := {
  returned : string;
  consoleError : list string;
  drawn : list Op
}.

Definition line (x1 y1 x2 y2 : R) : list Op :=
  [BeginPath; MoveTo x1 y1; LineTo x2 y2; Stroke].

Definition dot (x y r : R) : list Op :=
  [BeginPath; Arc x y r 0 (PI * 2) false; Fill].

Definition drawNeuralNetwork (cx cy : R) (color : string) : list Op :=
  let layers := [(cx - 120, 3%nat); (cx, 4%nat); (cx + 120, 3%nat)] in
  let nodeRadius := 20 in
  let verticalSpacing := 70 in
  let nodePositions :=
    List.map (fun layer : R * nat =>
      let startY := cy - ((INR (snd layer) - 1) * verticalSpacing) / 2 in
      List.map (fun i => (fst layer, startY + INR i * verticalSpacing))
               (seq 0 (snd layer)))
      layers in
  [LineWidth 4; GlobalAlpha 0.4]
  ++ flat_map (fun pair : list (R * R) * list (R * R) =>
       flat_map (fun startNode =>
         flat_map (fun endNode =>
           line (fst startNode) (snd startNode) (fst endNode) (snd endNode))
           (snd pair))
         (fst pair))
       (combine nodePositions (tl nodePositions))
  ++ [GlobalAlpha 1; LineWidth 15]
  ++ flat_map (fun layer =>
       flat_map (fun node : R * R => dot (fst node) (snd node) nodeRadius)
                layer)
       nodePositions.

Definition drawCodeBrackets (cx cy : R) : list Op :=
  [LineWidth 20;
   BeginPath; MoveTo (cx - 30) (cy - 100); LineTo (cx - 110) cy;
   LineTo (cx - 30) (cy + 100); Stroke;
   BeginPath; MoveTo (cx + 30) (cy - 100); LineTo (cx + 110) cy;
   LineTo (cx + 30) (cy + 100); Stroke;
   BeginPath; MoveTo (cx - 25) (cy + 70); LineTo (cx + 25) (cy - 70);
   Stroke].

Definition drawBrain (cx cy : R) : list Op :=
  [LineWidth 12;
   BeginPath; Arc (cx - 50) (cy - 20) 80 (PI * 0.4) (PI * 1.6) false; Stroke;
   BeginPath; Arc (cx + 50) (cy - 20) 80 (PI * 1.4) (PI * 0.6) true; Stroke;
   BeginPath; Arc (cx - 40) (cy + 10) 35 0 PI false; Stroke;
   BeginPath; Arc (cx + 40) (cy + 10) 35 0 PI false; Stroke;
   BeginPath; MoveTo cx (cy - 100); LineTo cx (cy + 50); Stroke].

Definition drawDataFlow (cx cy : R) : list Op :=
  let boxWidth := 100 in
  let boxHeight := 50 in
  [LineWidth 10;
   StrokeRect (cx - boxWidth / 2) (cy - 120) boxWidth boxHeight;
   BeginPath; MoveTo cx (cy - 70); LineTo cx (cy - 30); Stroke;
   BeginPath; MoveTo (cx - 15) (cy - 45); LineTo cx (cy - 30);
   LineTo (cx + 15) (cy - 45); Stroke;
   StrokeRect (cx - boxWidth / 2) (cy - 25) boxWidth boxHeight;
   BeginPath; MoveTo cx (cy + 25); LineTo cx (cy + 65); Stroke;
   BeginPath; MoveTo (cx - 15) (cy + 50); LineTo cx (cy + 65);
   LineTo (cx + 15) (cy + 50); Stroke;
   StrokeRect (cx - boxWidth / 2) (cy + 70) boxWidth boxHeight].

Definition drawCircuit (cx cy : R) : list Op :=
  let spacing := 70 in
  let nodeRadius := 12 in
  let steps := [-2; -1; 0; 1; 2]%Z in
  [LineWidth 8]
  ++ flat_map (fun i =>
       flat_map (fun j =>
         let x := cx + IZR i * spacing in
         let y := cy + IZR j * spacing in
         dot x y nodeRadius
         ++ (if (i <? 2)%Z
             then line (x + nodeRadius) y (x + spacing - nodeRadius) y
             else [])
         ++ (if (j <? 2)%Z
             then line x (y + nodeRadius) x (y + spacing - nodeRadius)
             else []))
         steps)
       steps.

Definition drawCube3D (cx cy : R) : list Op :=
  let size := 80 in
  let top := (cx, cy - size) in
  let bottom := (cx, cy + size) in
  let frontLeft := (cx - size * 0.866, cy + size * 0.5) in
  let frontRight := (cx + size * 0.866, cy + size * 0.5) in
  let backLeft := (cx - size * 0.866, cy - size * 0.5) in
  let backRight := (cx + size * 0.866, cy - size * 0.5) in
  [LineWidth 12;
   BeginPath; MoveTo (fst top) (snd top);
   LineTo (fst backRight) (snd backRight);
   LineTo (fst frontRight) (snd frontRight);
   LineTo (fst bottom) (snd bottom);
   LineTo (fst frontLeft) (snd frontLeft);
   LineTo (fst backLeft) (snd backLeft);
   ClosePath; Stroke]
  ++ line (fst top) (snd top) (fst bottom) (snd bottom)
  ++ line (fst backLeft) (snd backLeft) (fst frontRight) (snd frontRight)
  ++ line (fst backRight) (snd backRight) (fst frontLeft) (snd frontLeft).

Definition size : R := 512.

(** The [switch] over the icon type. *)
Definition drawIcon (type : Icons.IconType) (cx cy : R) (color : string)
    : list Op :=
  if String.eqb type "neural-network" then drawNeuralNetwork cx cy color
  else if String.eqb type "code-brackets" then drawCodeBrackets cx cy
  else if String.eqb type "brain" then drawBrain cx cy
  else if String.eqb type "data-flow" then drawDataFlow cx cy
  else if String.eqb type "circuit" then drawCircuit cx cy
  else if String.eqb type "cube-3d" then drawCube3D cx cy
  else [BeginPath; Arc cx cy 50 0 (PI * 2) false; Fill].

(** The settings common to all icons, after the canvas is cleared. *)
Definition preamble (color : string) : list Op :=
  [ClearRect 0 0 size size; StrokeStyle color; FillStyle color;
   LineWidth 15; LineCap "round"; LineJoin "round"].

(** [createIconTexture(type, color = '#ffffff')]; [None] is an omitted
    argument. *)
Definition createIconTexture (dom : Dom) (type : Icons.IconType)
    (colorArg : option string) : Completion Outcome :=
  let color := match colorArg with Some c => c | None => "#ffffff" end in
  if context2d dom then
    let cx := size / 2 in
    let cy := size / 2 in
    let ops := preamble color ++ drawIcon type cx cy color in
    Normal {| returned := toDataURL dom ops; consoleError := [];
              drawn := ops |}
  else
    Normal {| returned := "";
              consoleError := ["Canvas 2D context unavailable"];
              drawn := [] |}.

(** The fallback drawing: one filled circle of radius 50 at the centre. *)
Definition filledCircle : list Op :=
  [BeginPath; Arc (size / 2) (size / 2) 50 0 (PI * 2) false; Fill].

End Canvas.

(** ** A landed scene

    The 27 mounted pieces after the drop: piece 0 lies beyond the right
    wall and moves to the right, the others lie on the line x = 0, three
    units apart; the pointer is far to the left; parents are at the
    origin. *)
Module Sample.

Import THREE.
Local Open Scope R_scope.

Definition grid : Grid.CubeGridState := Grid.slices (fun _ => 0%Q).

Definition landed (k : nat) (m : Group) : Group :=
  setPosition m (vec3 (if Nat.eqb k 0 then 4 else 0) (-5) (3 * INR k)).

Definition cubes : list Group := imap landed (Scene.mountCubes grid).

Definition world : Physics.World :=
  {| Physics.physics :=
       {| Physics.active := true;
          Physics.velocities := vec3 1 0 0 :: repeat (vec3 0 0 0) 26;
          Physics.offsets := repeat (vec3 0 0 0) 27 |};
     Physics.cubesRefs := cubes;
     Physics.dragRef := None;
     Physics.draws := 0 |}.

(** The same scene while piece 0 is held. *)
Definition dragging : Physics.World :=
  {| Physics.physics := Physics.physics world;
     Physics.cubesRefs := cubes;
     Physics.dragRef := Some 0%nat;
     Physics.draws := 0 |}.

Definition frame : Physics.Frame :=
  {| Physics.delta := 0.02;
     Physics.elapsedTime := 10;
     Physics.mouseWorldPos := vec3 (-100) (-5) 0;
     Physics.viewportWidth := 8;
     Physics.random := fun _ => 0.5;
     Physics.getWorldPosition := fun _ p => p |}.

(** A desktop setup of the scroll animations, every random draw zero. *)
Definition setup : Choreography.Setup :=
  {| Choreography.isMobile := false;
     Choreography.screenWidth := 12;
     Choreography.random := fun _ => 0 |}.

Definition stage : Scene.Stage :=
  Choreography.initialState setup (Scene.mount grid).

(** Two mounted pieces of the middle slice: the one at (1, 0, 0), which is
    piece 16 in mount order, and the one on the axis, (0, 0, 0), piece 13. *)
Definition midRight : Group :=
  {| position :=
       Scene.toVector3
         ((inject_Z 1 * ThemeQ.gap)%Q, 0%Q, (inject_Z 0 * ThemeQ.gap)%Q);
     rotation := vec3 0 0 0;
     scale := vec3 1 1 1;
     userDataId := Grid.cubeId 1 0 0 |}.

Definition centre : Group :=
  {| position :=
       Scene.toVector3
         ((inject_Z 0 * ThemeQ.gap)%Q, 0%Q, (inject_Z 0 * ThemeQ.gap)%Q);
     rotation := vec3 0 0 0;
     scale := vec3 1 1 1;
     userDataId := Grid.cubeId 0 0 0 |}.

End Sample.

(** ** Utility functions ([lib/utils.ts])

    The two helpers that do no rounding arithmetic: [clamp] only compares
    its arguments, [randomPick] only scales a draw by an array length and
    takes the floor.  Numbers are rationals here and the bodies can be
    run.  [Math.random] is the argument [r]. *)
Module Utils.

Local Open Scope Q_scope.


(** [array[Math.floor(r * array.length)]]; [None] is [undefined]. *)
Definition randomPick {T : Type} (r : Q) (array : list T) : option T :=
  let k := Qfloor (r * inject_Z (Z.of_nat (List.length array))) in
  if (k <? 0)%Z then None else nth_error array (Z.to_nat k).

End Utils.

(** ** The render function of [RubiksCube] and the [Cube] component *)
Module Render.

Import THREE.
Local Open Scope R_scope.

(** The draw of [Math.random] that the grid builder makes for the piece
    at [(x, y, z)]: the loops run x outermost, z innermost. *)
Definition drawIndex (x y z : Z) : nat :=
  Z.to_nat (9 * (x + 1) + 3 * (y + 1) + (z + 1)).

Definition sliceOf (g : Grid.CubeGridState) (l : Grid.Layer)
    : list Grid.CubeData :=
  match l with
  | Grid.top => Grid.g_top g
  | Grid.mid => Grid.g_mid g
  | Grid.bot => Grid.g_bot g
  end.

Definition topCount (g : Grid.CubeGridState) : nat :=
  List.length (Grid.g_top g).

Definition midCount (g : Grid.CubeGridState) : nat :=
  List.length (Grid.g_mid g).

(** The index that the [onPointerDown] of the [i]-th cube of a slice
    passes to [handleCubePointerDown]. *)
Definition pointerIndex (g : Grid.CubeGridState) (l : Grid.Layer) (i : nat)
    : nat :=
  match l with
  | Grid.top => i
  | Grid.mid => (topCount g + i)%nat
  | Grid.bot => (topCount g + midCount g + i)%nat
  end.

Definition onPointerDown (g : Grid.CubeGridState) (l : Grid.Layer) (i : nat)
    (w : Physics.World) : Physics.World :=
  Physics.handleCubePointerDown (pointerIndex g l i) w.

(** [CUBE_THEME.colors.neutral1] *)
Definition neutral1 : string := "#1a1a24".

(** The colour of the icon on a face of colour [color]. *)
Definition iconColor (color : string) : string :=
  if String.eqb color neutral1 then "#ffffff" else "#1a1a24".

(** The data URL behind [textureMap]; [None] is the [null] returned when
    the cube has no icon type (an empty string is falsy too). *)
Definition textureUrl (dom : Canvas.Dom) (iconType : option Icons.IconType)
    (color : string) : option (Canvas.Completion Canvas.Outcome) :=
  match iconType with
  | None => None
  | Some t =>
      if String.eqb t "" then None
      else Some (Canvas.createIconTexture dom t (Some (iconColor color)))
  end.

(** One frame of the hover animation of a [Cube] of base scale [scale]. *)
Definition hoverFrame (hovered : bool) (scale delta : R) (m : Group)
    : Group :=
  let targetScale := if hovered then scale * 1.05 else scale in
  setScale m
    (lerp (THREE.scale m) (vec3 targetScale targetScale targetScale)
       (delta * 10)).

Definition hoverTarget (hovered : bool) (scale : R) : Vector3 :=
  let targetScale := if hovered then scale * 1.05 else scale in
  vec3 targetScale targetScale targetScale.

End Render.

(** ** What a physics frame keeps *)
Module Frames.

Import Physics.

(** Two worlds with the same numbers of pieces and velocity slots, the
    same dragged piece and the same [active] flag. *)
Definition sameShape (w w' : World) : Prop :=
  List.length (cubesRefs w') = List.length (cubesRefs w)
  /\ List.length (velocities (physics w'))
     = List.length (velocities (physics w))
  /\ dragRef w' = dragRef w
  /\ active (physics w') = active (physics w).

(** Two worlds whose refs carry the same ids in the same order. *)
Definition sameIds (w w' : World) : Prop :=
  List.map THREE.userDataId (cubesRefs w')
  = List.map THREE.userDataId (cubesRefs w).

End Frames.

(** ** Drop targets (the second loop of the scroll effect, [tl3]) *)
Module Drop.

Import THREE Scene Choreography.
Local Open Scope R_scope.

Definition dropRange (c : Setup) : R := Rmax 2 (screenWidth c * 0.8).

(** The target of the position tween of a piece; the piece makes four
    random draws, starting at draw [n]: x, z, height, rotation. *)
Definition dropPosition (c : Setup) (g : Grid.CubeGridState) (n : nat)
    (mesh : Group) : Vector3 :=
  let dropTargetX := (random c n - 0.5) * dropRange c in
  let dropTargetZ := (random c (n + 1) - 0.5) * 10 in
  let dropTargetY := Physics.PHYSICS_FLOOR_Y + random c (n + 2) * 1.5 in
  let parentYOffset := parentY g mesh in
  let finalLocalY := dropTargetY - parentYOffset in
  vec3 dropTargetX finalLocalY dropTargetZ.

Definition dropRotation (c : Setup) (n : nat) : Vector3 :=
  let randRot := random c (n + 3) * PI * 6 in
  vec3 randRot randRot randRot.

(** The position of the tweens of piece [i] in the timeline, and the
    duration of its position tween. *)
Definition dropStart (i : nat) : R := INR i * 0.01.

Definition dropDuration : R := 2.

End Drop.

(** ** Segments *)
Module Segments.

Import THREE.
Local Open Scope R_scope.

(** [v] lies, component by component, between [s] and [e]. *)
Definition within (s e v : Vector3) : Prop :=
  (Rmin (x s) (x e) <= x v <= Rmax (x s) (x e))
  /\ (Rmin (y s) (y e) <= y v <= Rmax (y s) (y e))
  /\ (Rmin (z s) (z e) <= z v <= Rmax (z s) (z e)).

End Segments.

(** ** Reading a drawing *)
Module Drawing.

Import Canvas.
Local Open Scope R_scope.

(** A point of the canvas square. *)
Definition inside (x y : R) : Prop := 0 <= x <= size /\ 0 <= y <= size.

(** The geometry of a call lies within the canvas: path points, the
    bounding box of an arc, the corners of a rectangle. *)
Definition inCanvas (op : Op) : Prop :=
  match op with
  | MoveTo x y | LineTo x y => inside x y
  | Arc x y r _ _ _ =>
      0 <= r /\ inside (x - r) (y - r) /\ inside (x + r) (y + r)
  | StrokeRect x y w h | ClearRect x y w h =>
      inside x y /\ inside (x + w) (y + h)
  | _ => True
  end.

(** Path discipline: every path is begun, then built, then painted once
    by [stroke] or [fill], and nothing is built or painted outside a
    path.  [pending] tells whether a begun path awaits its paint. *)
Fixpoint paints (pending : bool) (ops : list Op) : bool :=
  match ops with
  | [] => negb pending
  | BeginPath :: rest => negb pending && paints true rest
  | Stroke :: rest | Fill :: rest => pending && paints false rest
  | MoveTo _ _ :: rest | LineTo _ _ :: rest | Arc _ _ _ _ _ _ :: rest
  | ClosePath :: rest => pending && paints true rest
  | _ :: rest => paints pending rest
  end.

(** The [globalAlpha] in force after a drawing that started with [a]. *)
Fixpoint alphaAfter (a : R) (ops : list Op) : R :=
  match ops with
  | [] => a
  | GlobalAlpha a' :: rest => alphaAfter a' rest
  | _ :: rest => alphaAfter a rest
  end.

End Drawing.

(** ** The life of the mounted scene

    The callbacks that touch the physics refs, as events: a rendered
    frame, a pointer down on the [i]-th cube of a slice, the global
    pointer up, and the two callbacks of the scroll trigger of [tl3]. *)
Module Session.

Import THREE Physics.

Inductive Event :=
| Tick (fr : Frame)
| Press (l : Grid.Layer) (i : nat)
| Release
| Leave
| EnterBack.

Definition setPhysics (w : World) (p : PhysicsState) : World :=
  {| physics := p; cubesRefs := cubesRefs w; dragRef := dragRef w;
     draws := draws w |}.

Definition handle (g : Grid.CubeGridState) (e : Event) (w : World)
    : option World :=
  match e with
  | Tick fr => useFrame fr w
  | Press l i => Some (Render.onPointerDown g l i w)
  | Release => Some (handlePointerUp w)
  | Leave => Some (setPhysics w (Choreography.onLeave (physics w)))
  | EnterBack => Some (setPhysics w (Choreography.onEnterBack (physics w)))
  end.

Fixpoint run (g : Grid.CubeGridState) (es : list Event) (w : World)
    : option World :=
  match es with
  | [] => Some w
  | e :: rest =>
      match handle g e w with
      | Some w' => run g rest w'
      | None => None
      end
  end.

(** The refs once the grid is rendered and the mount effect has run. *)
Definition mounted (g : Grid.CubeGridState) : World :=
  {| physics := initPhysics initialPhysics;
     cubesRefs := Scene.mountCubes g;
     dragRef := None;
     draws := 0 |}.

(** What every reachable world satisfies. *)
Definition steady (w : World) : Prop :=
  List.length (cubesRefs w) = 27%nat
  /\ List.length (velocities (physics w)) = 27%nat
  /\ (active (physics w) = false ->
      Forall (fun v => v = vec3 0 0 0) (velocities (physics w))).

End Session.

(** ** A held piece under its parents

    The landed scene while piece 0, of the top slice, is held right under
    the pointer, a little below the drag height.  Piece 1, of the same
    slice, lies one unit beside it; the other pieces lie on the line
    x = 0, three units apart.

    The parents of a piece are its slice group ([position={[0, 1.05, 0]}]
    for the top slice, 0 for the middle one, -1.05 for the bottom one,
    rotation back at zero once [tl2] has run), the group of the
    presentation controls (at rest, [rotation={[0, 0, 0]}]) and the main
    group, which [tl2] leaves at the origin, rotated by
    (0.5, 2.25 pi, 0.2) and scaled by 0.8 on a desktop.  From the
    graphics library: the matrix of a group is the product of its
    translation, its rotation and its scale, and the rotation of Euler
    angles in the default order XYZ turns about z, then about y, then
    about x. *)
Module Held.

Import THREE.
Local Open Scope R_scope.

Definition rotateX (a : R) (v : Vector3) : Vector3 :=
  vec3 (x v) (cos a * y v - sin a * z v) (sin a * y v + cos a * z v).

Definition rotateY (a : R) (v : Vector3) : Vector3 :=
  vec3 (cos a * x v + sin a * z v) (y v) (- sin a * x v + cos a * z v).

Definition rotateZ (a : R) (v : Vector3) : Vector3 :=
  vec3 (cos a * x v - sin a * y v) (sin a * x v + cos a * y v) (z v).

(** [Vector3.applyEuler], order XYZ. *)
Definition applyEuler (e v : Vector3) : Vector3 :=
  rotateX (x e) (rotateY (y e) (rotateZ (z e) v)).

(** The rotation and the scale of the main group at the end of [tl2]. *)
Definition mainRotation : Vector3 := vec3 0.5 (PI * 2.25) 0.2.

Definition mainScale : R := Choreography.breakdownScale Sample.setup.

Definition sliceOffset (j : nat) : R :=
  if (j <? 9)%nat then 1.05 else if (j <? 18)%nat then 0 else -1.05.

(** [mesh.getWorldPosition] for piece [j] at [p] within its slice. *)
Definition worldPosition (j : nat) (p : Vector3) : Vector3 :=
  applyEuler mainRotation
    (multiplyScalar (Choreography.inGroup p (sliceOffset j)) mainScale).

Definition placed (k : nat) (m : Group) : Group :=
  setPosition m
    (match k with
     | O => vec3 0 (-4.6) 0
     | S O => vec3 1 (-4.65) 0
     | _ => vec3 0 (-5) (3 * INR k)
     end).

Definition cubes : list Group := imap placed (Scene.mountCubes Sample.grid).

Definition world : Physics.World :=
  {| Physics.physics :=
       {| Physics.active := true;
          Physics.velocities := repeat (vec3 0 0 0) 27;
          Physics.offsets := repeat (vec3 0 0 0) 27 |};
     Physics.cubesRefs := cubes;
     Physics.dragRef := Some 0%nat;
     Physics.draws := 0 |}.

Definition frame : Physics.Frame :=
  {| Physics.delta := 0.02;
     Physics.elapsedTime := 10;
     Physics.mouseWorldPos := vec3 0 (-5) 0;
     Physics.viewportWidth := 8;
     Physics.random := fun _ => 0.5;
     Physics.getWorldPosition := worldPosition |}.

(** Pieces 0 and 1 as mounted and placed. *)
Definition held : Group :=
  {| position := vec3 0 (-4.6) 0;
     rotation := vec3 0 0 0;
     scale := vec3 1 1 1;
     userDataId := Grid.cubeId (-1) 1 (-1) |}.

Definition neighbour : Group :=
  {| position := vec3 1 (-4.65) 0;
     rotation := vec3 0 0 0;
     scale := vec3 1 1 1;
     userDataId := Grid.cubeId (-1) 1 0 |}.

End Held.

(** ** The idle timeline

    The timeline of the idle animation, built in the same effect as the
    scroll timelines and played from mount until the scroll reaches the
    centre of the details section, where the first scroll phase ends.  Its
    tweens animate single components of the rotation of the main group
    and of the slices.

    From the animation library: a position parameter places a tween at
    the end of the timeline (none), at the end plus an offset (['+=d']),
    or at the start of the tween added before it plus an offset (['<d'],
    ['<'] for no offset); a tween is first rendered, and records its start
    value, when the playhead reaches it, and once rendered at its end it is
    not rendered again while the playhead moves on; when the timeline
    repeats, its tweens are first put back to their start, the last one
    first. *)
Module Idle.

Import THREE Scene Gsap.
Local Open Scope R_scope.

(** [CUBE_THEME.animation.idleSpeed] *)
Definition idleSpeed : R := 0.8.

(** [power3.inOut], the default ease of the timeline. *)
Definition ease (p : R) : R := easeInOut 4 p.

Record Tween := {
  target : Target;
  toX : option R;
  toY : option R;
  toZ : option R;
  duration : R;
  startAt : R;
  from : option Vector3;
  finished : bool
}.

Inductive Position :=
| AtEnd
| EndPlus (d : R)
| PrevStart (d : R).

Record Builder := {
  tweens : list Tween;
  endTime : R;
  prevStart : R
}.

Definition empty : Builder :=
  {| tweens := []; endTime := 0; prevStart := 0 |}.

(** A tween that has not been rendered yet. *)
Definition fresh (t : Target) (vx vy vz : option R) (d start : R) : Tween :=
  {| target := t; toX := vx; toY := vy; toZ := vz; duration := d;
     startAt := start; from := None; finished := false |}.

Definition resolve (b : Builder) (pos : Position) : R :=
  match pos with
  | AtEnd => endTime b
  | EndPlus k => endTime b + k
  | PrevStart k => prevStart b + k
  end.

(** [tl.to(target, { x, y, z, duration }, position)] *)
Definition to (b : Builder) (t : Target) (vx vy vz : option R) (d : R)
    (pos : Position) : Builder :=
  let start := resolve b pos in
  {| tweens := tweens b ++ [fresh t vx vy vz d start];
     endTime := Rmax (endTime b) (start + d);
     prevStart := start |}.

Definition timeline : Builder :=
  let t := idleSpeed in
  let b := to empty (SliceRotation Grid.top) None (Some (PI / 2)) None t
              AtEnd in
  let b := to b (SliceRotation Grid.bot) None (Some (- PI / 2)) None t
              (PrevStart 0.1) in
  let b := to b MainRotation None None (Some (PI / 2)) (t * 1.2)
              (EndPlus 0.1) in
  let b := to b (SliceRotation Grid.mid) None (Some (PI / 2)) None t
              AtEnd in
  let b := to b (SliceRotation Grid.top) None (Some PI) None t
              (PrevStart 0.1) in
  let b := to b MainRotation (Some 0.2) (Some (-0.5)) (Some 0) (t * 1.5)
              (EndPlus 0.1) in
  let b := to b (SliceRotation Grid.mid) None (Some 0) None t
              (EndPlus 0.2) in
  let b := to b (SliceRotation Grid.top) None (Some 0) None t
              (PrevStart 0) in
  to b (SliceRotation Grid.bot) None (Some 0) None t (PrevStart 0).

(** A component named in the vars goes from its start value to its end
    value; one that is not named keeps its current value. *)
Definition component (goal : option R) (start current ratio : R) : R :=
  match goal with
  | Some e => start + (e - start) * ratio
  | None => current
  end.

Definition value (tw : Tween) (start current : Vector3) (ratio : R)
    : Vector3 :=
  vec3 (component (toX tw) (x start) (x current) ratio)
       (component (toY tw) (y start) (y current) ratio)
       (component (toZ tw) (z start) (z current) ratio).

Definition ended (tw : Tween) (time : R) : bool :=
  if Rle_dec (startAt tw + duration tw) time then true else false.

Definition progress (tw : Tween) (time : R) : R :=
  if ended tw time then 1 else (time - startAt tw) / duration tw.

Definition rendered (tw : Tween) (start : Vector3) (done : bool) : Tween :=
  {| target := target tw; toX := toX tw; toY := toY tw; toZ := toZ tw;
     duration := duration tw; startAt := startAt tw; from := Some start;
     finished := done |}.

(** One tween when the playhead, moving forward, is at [time]. *)
Definition renderTween (time : R) (tw : Tween) (s : Stage) : Tween * Stage :=
  if Rlt_dec time (startAt tw) then (tw, s)
  else if finished tw then (tw, s)
  else
    let current := getTarget (target tw) s in
    let start := match from tw with Some v => v | None => current end in
    (rendered tw start (ended tw time),
     setTarget (target tw)
       (value tw start current (ease (progress tw time))) s).

Fixpoint render (time : R) (tl : list Tween) (s : Stage)
    : list Tween * Stage :=
  match tl with
  | [] => ([], s)
  | tw :: rest =>
      let '(tw', s1) := renderTween time tw s in
      let '(rest', s2) := render time rest s1 in
      (tw' :: rest', s2)
  end.

(** A tween put back to its start when the timeline repeats; a tween that
    was never rendered is left alone. *)
Definition rewindTween (tw : Tween) (s : Stage) : Tween * Stage :=
  match from tw with
  | None => (tw, s)
  | Some start =>
      (rendered tw start false,
       setTarget (target tw)
         (value tw start (getTarget (target tw) s) 0) s)
  end.

Fixpoint rewind (tl : list Tween) (s : Stage) : list Tween * Stage :=
  match tl with
  | [] => ([], s)
  | tw :: rest =>
      let '(rest', s1) := rewind rest s in
      let '(tw', s2) := rewindTween tw s1 in
      (tw' :: rest', s2)
  end.

(** The targets of the idle timeline: rotations of the main group and of
    the slices. *)
Definition rotationTarget (t : Target) : Prop :=
  match t with
  | MainRotation | SliceRotation _ => True
  | _ => False
  end.

End Idle.

(** ** The first scroll phase

    While the scroll is in the first phase, two timelines write the
    stage: [tl1], rendered at the scroll progress whenever the scroll
    moves, and the idle timeline, rendered at its playhead on every tick
    and put back to its start when it repeats. *)
Module Phase1.

Import THREE Scene Gsap.
Local Open Scope R_scope.

Record State := {
  tl1 : Timeline;
  idle : list Idle.Tween;
  stage : Stage
}.

Inductive Event :=
| Scroll (progress : R)
| Tick (time : R)
| Repeat.

Definition step (e : Event) (st : State) : State :=
  match e with
  | Scroll p =>
      let '(tl', s') := scrub p (tl1 st, stage st) in
      {| tl1 := tl'; idle := idle st; stage := s' |}
  | Tick time =>
      let '(idle', s') := Idle.render time (idle st) (stage st) in
      {| tl1 := tl1 st; idle := idle'; stage := s' |}
  | Repeat =>
      let '(idle', s') := Idle.rewind (idle st) (stage st) in
      {| tl1 := tl1 st; idle := idle'; stage := s' |}
  end.

Definition run (es : list Event) (st : State) : State :=
  fold_left (fun acc e => step e acc) es st.

(** The state the effect leaves: both timelines built, nothing rendered. *)
Definition start (c : Choreography.Setup) (s0 : Stage) : State :=
  {| tl1 := Choreography.tl1 c;
     idle := Idle.tweens Idle.timeline;
     stage := s0 |}.

Definition isIdle (e : Event) : Prop :=
  match e with
  | Scroll _ => False
  | Tick _ | Repeat => True
  end.

(** The tweens of the idle timeline of a state all animate rotations. *)
Definition idleRot (st : State) : Prop :=
  Forall Idle.rotationTarget (List.map Idle.target (idle st)).

(** What [tl1] has recorded of the position and the scale of the main
    group is what they were on [s0]: either it has not been rendered and
    the stage still holds them, or it has been, on a stage that held
    them. *)
Definition recorded (c : Choreography.Setup) (s0 : Stage) (st : State)
    : Prop :=
  (tl1 st = Choreography.tl1 c
   /\ getTarget MainPosition (stage st) = getTarget MainPosition s0
   /\ getTarget MainScale (stage st) = getTarget MainScale s0)
  \/ (exists sr,
        tl1 st = primed sr (Choreography.tl1 c)
        /\ getTarget MainPosition sr = getTarget MainPosition s0
        /\ getTarget MainScale sr = getTarget MainScale s0).

End Phase1.

(** ** Two pieces in touch

    The landed scene with piece 1 moved next to piece 0, one unit apart,
    closer than the minimum separation of the collision rule; nothing is
    dragged. *)
Module Near.

Import THREE.
Local Open Scope R_scope.

Definition placed (k : nat) (m : Group) : Group :=
  setPosition m
    (if Nat.eqb k 1 then vec3 1 (-5) 0 else vec3 0 (-5) (3 * INR k)).

Definition cubes : list Group := imap placed (Scene.mountCubes Sample.grid).

Definition world : Physics.World :=
  {| Physics.physics :=
       {| Physics.active := true;
          Physics.velocities := repeat (vec3 0 0 0) 27;
          Physics.offsets := repeat (vec3 0 0 0) 27 |};
     Physics.cubesRefs := cubes;
     Physics.dragRef := None;
     Physics.draws := 0 |}.

Definition first : Group :=
  {| position := vec3 0 (-5) (3 * INR 0);
     rotation := vec3 0 0 0;
     scale := vec3 1 1 1;
     userDataId := Grid.cubeId (-1) 1 (-1) |}.

Definition second : Group :=
  {| position := vec3 1 (-5) 0;
     rotation := vec3 0 0 0;
     scale := vec3 1 1 1;
     userDataId := Grid.cubeId (-1) 1 0 |}.

End Near.

(** * Theorems *)

(** ** Grid builder *)

Lemma slices_ids_top (rnd : Grid.RandomStream) :
  List.map Grid.id (Grid.g_top (Grid.slices rnd)) = Grid.layerIds 1.
Proof. reflexivity. Qed.

Lemma slices_ids_mid (rnd : Grid.RandomStream) :
  List.map Grid.id (Grid.g_mid (Grid.slices rnd)) = Grid.layerIds 0.
Proof. reflexivity. Qed.

Lemma slices_ids_bot (rnd : Grid.RandomStream) :
  List.map Grid.id (Grid.g_bot (Grid.slices rnd)) = Grid.layerIds (-1).
Proof. reflexivity. Qed.

Lemma slices_layers (rnd : Grid.RandomStream) :
  List.map Grid.layer (Grid.allCubes (Grid.slices rnd))
  = repeat Grid.top 9 ++ repeat Grid.mid 9 ++ repeat Grid.bot 9.
Proof. reflexivity. Qed.

Lemma slices_glyphs (rnd : Grid.RandomStream) :
  Grid.glyphsOf (Grid.allCubes (Grid.slices rnd))
  = [(Grid.cubeId 0 1 0, "brain"); (Grid.cubeId (-1) 0 0, "circuit");
     (Grid.cubeId 0 0 (-1), "code-brackets");
     (Grid.cubeId 0 0 1, "neural-network"); (Grid.cubeId 1 0 0, "data-flow")].
Proof. reflexivity. Qed.

Lemma slices_ids (rnd : Grid.RandomStream) :
  List.map Grid.id (Grid.allCubes (Grid.slices rnd))
  = Grid.layerIds 1 ++ Grid.layerIds 0 ++ Grid.layerIds (-1).
Proof. reflexivity. Qed.

Lemma slices_id_icon (rnd : Grid.RandomStream) :
  List.map (fun c => (Grid.id c, Grid.iconType c))
    (Grid.allCubes (Grid.slices rnd))
  = List.map (fun c => (Grid.id c, Grid.iconType c))
      (Grid.allCubes (Grid.slices (fun _ => 0%Q))).
Proof. reflexivity. Qed.

Lemma distinctb_NoDup (l : list string) :
  Grid.distinctb l = true -> List.NoDup l.
Proof.
  induction l as [|s l IH]; simpl; intros H.
  - constructor.
  - apply andb_prop in H as [Hs Hl].
    constructor; [|now apply IH].
    intros Hin.
    assert (existsb (String.eqb s) l = true) as E.
    { apply existsb_exists. exists s.
      split; [exact Hin|apply String.eqb_refl]. }
    rewrite E in Hs. discriminate.
Qed.

Lemma map_repeat_Forall {A B : Type} (f : A -> B) (b : B) (n : nat)
    (l : list A) :
  List.map f l = repeat b n -> Forall (fun c => f c = b) l.
Proof.
  revert n. induction l as [|a l IH]; intros n H; [constructor|].
  destruct n as [|n]; [discriminate|]. simpl in H. injection H as H1 H2.
  constructor; [exact H1|exact (IH n H2)].
Qed.

(** C1: whatever the random colour stream, the grid builder returns 27
    descriptors, 9 in each slice (top holds the ids with y = 1, mid those
    with y = 0, bot those with y = -1, and the [layer] tags agree), the ids
    are pairwise distinct, and every coordinate triple of {-1,0,1}^3 is the
    id of exactly one descriptor. *)
Theorem grid_covers_every_coordinate_once (rnd : Grid.RandomStream) :
  let g := Grid.slices rnd in
  let ids := List.map Grid.id (Grid.allCubes g) in
  List.length (Grid.allCubes g) = 27%nat
  /\ List.NoDup ids
  /\ Forall (fun '(x, y, z) =>
               Grid.occurrences (Grid.cubeId x y z) ids = 1%nat)
            Grid.allCoords
  /\ List.length Grid.allCoords = 27%nat
  /\ (List.length (Grid.g_top g) = 9%nat
      /\ List.length (Grid.g_mid g) = 9%nat
      /\ List.length (Grid.g_bot g) = 9%nat)
  /\ (List.map Grid.id (Grid.g_top g) = Grid.layerIds 1
      /\ List.map Grid.id (Grid.g_mid g) = Grid.layerIds 0
      /\ List.map Grid.id (Grid.g_bot g) = Grid.layerIds (-1))
  /\ (Forall (fun c => Grid.layer c = Grid.top) (Grid.g_top g)
      /\ Forall (fun c => Grid.layer c = Grid.mid) (Grid.g_mid g)
      /\ Forall (fun c => Grid.layer c = Grid.bot) (Grid.g_bot g)).
Proof.
  intros g ids.
  assert (Hids : ids = Grid.layerIds 1 ++ Grid.layerIds 0 ++ Grid.layerIds (-1))
    by apply slices_ids.
  split; [reflexivity|].
  split; [rewrite Hids; apply distinctb_NoDup; vm_compute; reflexivity|].
  split.
  { rewrite Hids. repeat (apply Forall_cons; [vm_compute; reflexivity|]).
    apply Forall_nil. }
  split; [reflexivity|].
  split; [repeat split|].
  split; [repeat split|].
  repeat split; apply (map_repeat_Forall _ _ 9); reflexivity.
Qed.

(** C5: the (id, glyph) assignment is the same for any two random colour
    streams: the pieces that carry a glyph are the five ids (0,0,1),
    (0,0,-1), (0,1,0), (1,0,0), (-1,0,0), each with its fixed face glyph. *)
Theorem glyphs_do_not_depend_on_colors (rnd1 rnd2 : Grid.RandomStream) :
  let all1 := Grid.allCubes (Grid.slices rnd1) in
  let all2 := Grid.allCubes (Grid.slices rnd2) in
  List.map (fun c => (Grid.id c, Grid.iconType c)) all1
  = List.map (fun c => (Grid.id c, Grid.iconType c)) all2
  /\ Grid.glyphsOf all1 = Grid.glyphsOf all2
  /\ Grid.sameGlyphs (Grid.glyphsOf all1) Grid.glyphTable
  /\ List.length (Grid.glyphsOf all1) = 5%nat.
Proof.
  intros all1 all2.
  split; [reflexivity|].
  split; [reflexivity|].
  split; [|reflexivity].
  unfold all1. rewrite slices_glyphs. unfold Grid.sameGlyphs, Grid.glyphTable.
  intros p. simpl. tauto.
Qed.

(** A run of the builder: with every draw equal to 1/2 each piece gets the
    fourth palette entry. *)
Example slices_run_half :
  List.map Grid.color (Grid.g_mid (Grid.slices (fun _ => (1 # 2)%Q)))
  = repeat (Some "#1a1a24") 9.
Proof. vm_compute. reflexivity. Qed.

(** A draw in [0, 1) always selects a palette entry. *)
Lemma pickColor_in_palette (r : Q) :
  (0 <= r)%Q -> (r < 1)%Q ->
  exists c, Grid.pickColor r = Some c /\ In c ThemeQ.cubeColors.
Proof.
  intros H0 H1. unfold Grid.pickColor, Grid.colorIndex.
  set (q := (r * _)%Q). set (k := Qfloor q).
  assert (Hq0 : (0 <= q)%Q).
  { unfold q. apply Qmult_le_0_compat; [exact H0|discriminate]. }
  assert (Hq6 : (q < 6)%Q).
  { change (q < 1 * 6)%Q. unfold q.
    apply Qmult_lt_compat_r; [reflexivity|exact H1]. }
  assert (Hk0 : (0 <= k)%Z).
  { unfold k. change 0%Z with (Qfloor 0). apply Qfloor_resp_le. exact Hq0. }
  assert (Hk6 : (k < 6)%Z).
  { rewrite Zlt_Qlt. eapply Qle_lt_trans; [apply Qfloor_le|exact Hq6]. }
  destruct (Z.ltb_spec k 0) as [Hneg|_]; [lia|].
  assert (Hcases : k = 0%Z \/ k = 1%Z \/ k = 2%Z \/ k = 3%Z \/ k = 4%Z
                   \/ k = 5%Z) by lia.
  destruct Hcases as [E|[E|[E|[E|[E|E]]]]]; rewrite E; simpl;
    eexists; (split; [reflexivity|simpl; tauto]).
Qed.

(** ** Vectors *)

Section VectorFacts.

Import THREE.
Local Open Scope R_scope.

Lemma vec3_eta (a : Vector3) : vec3 (x a) (y a) (z a) = a.
Proof. destruct a; reflexivity. Qed.

Lemma sum_squares_nonneg (a b c : R) : 0 <= a * a + b * b + c * c.
Proof.
  pose proof (Rle_0_sqr a). pose proof (Rle_0_sqr b).
  pose proof (Rle_0_sqr c). unfold Rsqr in *. lra.
Qed.

Lemma lengthSq_nonneg (a : Vector3) : 0 <= lengthSq a.
Proof. apply sum_squares_nonneg. Qed.

Lemma distanceToSquared_nonneg (a b : Vector3) : 0 <= distanceToSquared a b.
Proof. apply sum_squares_nonneg. Qed.

Lemma length_nonneg (a : Vector3) : 0 <= length a.
Proof. apply sqrt_pos. Qed.

(** A square root dominates any [r] whose square is below its argument. *)
Lemma sqrt_ge_of_sq (r s : R) : r * r <= s -> r <= sqrt s.
Proof.
  intros H. destruct (Rle_dec r 0) as [Hr|Hr].
  - pose proof (sqrt_pos s). lra.
  - assert (Hrr : 0 <= r * r) by apply Rle_0_sqr.
    assert (Hs : sqrt (r * r) <= sqrt s)
      by (apply sqrt_le_1; [exact Hrr|lra|exact H]).
    rewrite sqrt_square in Hs by lra. exact Hs.
Qed.

Lemma distanceTo_ge_dx (a b : Vector3) : x a - x b <= distanceTo a b.
Proof.
  apply sqrt_ge_of_sq. unfold distanceToSquared. simpl.
  pose proof (Rle_0_sqr (y a - y b)). pose proof (Rle_0_sqr (z a - z b)).
  unfold Rsqr in *. lra.
Qed.

Lemma distanceTo_ge_dx' (a b : Vector3) : x b - x a <= distanceTo a b.
Proof.
  apply sqrt_ge_of_sq. unfold distanceToSquared. simpl.
  pose proof (Rle_0_sqr (y a - y b)). pose proof (Rle_0_sqr (z a - z b)).
  unfold Rsqr in *. lra.
Qed.

Lemma length_zero_iff (a : Vector3) : length a = 0 <-> a = zero.
Proof.
  split.
  - intros H. apply sqrt_eq_0 in H; [|apply lengthSq_nonneg].
    unfold lengthSq in H. destruct a as [ax ay az]. simpl in H.
    assert (ax = 0) by nra. assert (ay = 0) by nra. assert (az = 0) by nra.
    subst. reflexivity.
  - intros ->. unfold length, lengthSq, zero. simpl.
    replace (0 * 0 + 0 * 0 + 0 * 0) with 0 by ring. apply sqrt_0.
Qed.

Lemma length_scale (a : Vector3) (s : R) :
  0 <= s -> length (multiplyScalar a s) = length a * s.
Proof.
  intros Hs. unfold length, lengthSq, multiplyScalar. simpl.
  replace (x a * s * (x a * s) + y a * s * (y a * s) + z a * s * (z a * s))
    with ((x a * x a + y a * y a + z a * z a) * (s * s)) by ring.
  pose proof (lengthSq_nonneg a) as Ha. unfold lengthSq in Ha.
  rewrite sqrt_mult by nra. rewrite sqrt_square by exact Hs. reflexivity.
Qed.

(** [normalize] gives a unit vector, except on the zero vector, which it
    leaves at zero. *)
Lemma normalize_unit (a : Vector3) : length a <> 0 -> length (normalize a) = 1.
Proof.
  intros Ha. unfold normalize, divideScalar.
  destruct (Req_dec_T (length a) 0) as [E|_]; [contradiction|].
  pose proof (length_nonneg a) as Hp.
  rewrite length_scale.
  - field. exact Ha.
  - apply Rlt_le. apply Rdiv_lt_0_compat; lra.
Qed.

Lemma normalize_zero (a : Vector3) : length a = 0 -> normalize a = zero.
Proof.
  intros Ha. apply length_zero_iff in Ha. subst a.
  unfold normalize, divideScalar, multiplyScalar, zero. simpl.
  f_equal; ring.
Qed.

End VectorFacts.

(** ** Physics loop *)

Section LoopFacts.

Context {S : Type}.
Implicit Types (f : nat -> S -> option S) (s : S).

Lemma forEachFrom_fix f s :
  (forall j, f j s = Some s) ->
  forall n k, Physics.forEachFrom n k f s = Some s.
Proof.
  intros Hf n. induction n as [|n IH]; intros k; simpl; [reflexivity|].
  rewrite Hf. apply IH.
Qed.

Lemma forEachFrom_fix_range f s :
  forall n k,
    (forall j, (k <= j < k + n)%nat -> f j s = Some s) ->
    Physics.forEachFrom n k f s = Some s.
Proof.
  intros n. induction n as [|n IH]; intros k Hf; simpl; [reflexivity|].
  rewrite Hf by lia. apply IH. intros j Hj. apply Hf. lia.
Qed.

Lemma forEachFrom_S f s (n k : nat) :
  Physics.forEachFrom (Datatypes.S n) k f s
  = match f k s with
    | Some s' => Physics.forEachFrom n (Datatypes.S k) f s'
    | None => None
    end.
Proof. reflexivity. Qed.

Lemma forEachFrom_total f :
  (forall j s, is_Some (f j s)) ->
  forall n k s, is_Some (Physics.forEachFrom n k f s).
Proof.
  intros Hf n. induction n as [|n IH]; intros k s; simpl; [eauto|].
  destruct (Hf k s) as [s' ->]. apply IH.
Qed.

End LoopFacts.

Section PhysicsFacts.

Import THREE Physics.
Local Open Scope R_scope.

Variable fr : Frame.

Lemma safeBoundary_ge_2 : 2 <= safeBoundary fr.
Proof. unfold safeBoundary. apply Rmax_l. Qed.


Lemma wallCollision_range (px vx : R) :
  - safeBoundary fr <= fst (wallCollision (safeBoundary fr) px vx)
    <= safeBoundary fr.
Proof.
  pose proof safeBoundary_ge_2. unfold wallCollision.
  destruct (Rgt_dec px (safeBoundary fr)); simpl; [lra|].
  destruct (Rlt_dec px (- safeBoundary fr)); simpl; lra.
Qed.

Lemma wallCollision_mirror (px vx : R) :
  wallCollision (safeBoundary fr) (- px) (- vx)
  = (- fst (wallCollision (safeBoundary fr) px vx),
     - snd (wallCollision (safeBoundary fr) px vx)).
Proof.
  pose proof safeBoundary_ge_2. unfold wallCollision.
  destruct (Rgt_dec (- px) (safeBoundary fr));
    destruct (Rgt_dec px (safeBoundary fr));
    destruct (Rlt_dec (- px) (- safeBoundary fr));
    destruct (Rlt_dec px (- safeBoundary fr)); simpl;
    try lra; f_equal; lra.
Qed.

Lemma collide_total (cubes : list Group) (i : nat) (c : Vector3) (j : nat)
    (s : Vector3 * nat) :
  is_Some (collide fr cubes i c j s).
Proof.
  unfold collide. destruct (Nat.eqb i j); [eauto|].
  destruct (cubes !! j); [|eauto].
  destruct (Rlt_dec _ _); [|eauto]. destruct s. eauto.
Qed.

Lemma collisions_total (cubes : list Group) (i : nat) (c : Vector3)
    (s : Vector3 * nat) :
  is_Some (collisions fr cubes i c s).
Proof. apply forEachFrom_total. intros j s'. apply collide_total. Qed.

(** With every other piece at the minimum distance or beyond, the
    collision pass changes nothing. *)
Lemma collisions_far (cubes : list Group) (i : nat) (c : Vector3)
    (s : Vector3 * nat) :
  (forall j m, j <> i -> cubes !! j = Some m ->
     ~ distanceTo c (getWorldPosition fr j (position m))
       < CUBE_THEME.collisionMinDist) ->
  collisions fr cubes i c s = Some s.
Proof.
  intros Hfar. apply forEachFrom_fix. intros j. unfold collide.
  destruct (Nat.eqb_spec i j) as [->|Hij]; [reflexivity|].
  destruct (cubes !! j) as [m|] eqn:E; [|reflexivity].
  destruct (Rlt_dec _ _) as [Hlt|_]; [|reflexivity].
  exfalso. apply (Hfar j m); auto.
Qed.

Lemma mouseRepulsion_far (c v : Vector3) :
  ~ distanceTo (floorOf c) (floorOf (mouseWorldPos fr))
    < CUBE_THEME.repulsionRadius ->
  mouseRepulsion fr None c v = v.
Proof.
  intros H. unfold mouseRepulsion.
  destruct (Rlt_dec _ _); [contradiction|reflexivity].
Qed.

Lemma impulses_total (w : World) (i : nat) (mesh : Group) (v : Vector3) :
  is_Some (impulses fr w i mesh v).
Proof. apply collisions_total. Qed.

(** What a free piece's iteration writes. *)
Lemma freeStep_spec (w : World) (i : nat) (mesh : Group) (v v1 : Vector3)
    (n : nat) :
  impulses fr w i mesh v = Some (v1, n) ->
  freeStep fr i mesh v w
  = Some (setDraws
            (setCubes
               (setVelocities w
                  (<[i := snd (integrate fr i (position mesh) v1)]>
                     (velocities (physics w))))
               (<[i := setPosition mesh
                         (fst (integrate fr i (position mesh) v1))]>
                  (cubesRefs w)))
            n).
Proof.
  intros H. unfold freeStep. rewrite H.
  destruct (integrate fr i (position mesh) v1) as [p' v']. reflexivity.
Qed.

Lemma stepPiece_free (w : World) (i : nat) (mesh : Group) (v : Vector3) :
  cubesRefs w !! i = Some mesh ->
  velocities (physics w) !! i = Some v ->
  dragRef w <> Some i ->
  stepPiece fr i w = freeStep fr i mesh v w.
Proof.
  intros Hm Hv Hd. unfold stepPiece. rewrite Hm, Hv.
  destruct (dragRef w) as [k|]; [|reflexivity].
  destruct (Nat.eqb_spec k i) as [->|_]; [congruence|reflexivity].
Qed.

End PhysicsFacts.


(** ** Icon texture generator *)

Lemma drawIcon_unknown (type : Icons.IconType) (cx cy : R) (color : string) :
  ~ In type Icons.knownIcons ->
  Canvas.drawIcon type cx cy color
  = [Canvas.BeginPath; Canvas.Arc cx cy 50 0 (PI * 2) false; Canvas.Fill].
Proof.
  intros H. unfold Canvas.drawIcon.
  repeat match goal with
  | |- context [String.eqb type ?s] =>
      destruct (String.eqb_spec type s) as [->|_];
        [exfalso; apply H; simpl; tauto|]
  end.
  reflexivity.
Qed.

(** C6: the icon texture generator returns normally on every input.  With
    no 2D context it returns the empty string and writes one line with
    [console.error]; with a context and a glyph type outside the six known
    ones, the drawing is the common preamble followed by one filled circle,
    and the result is the encoding of that drawing. *)
Theorem icon_texture_fallbacks (dom : Canvas.Dom) (type : Icons.IconType)
    (colorArg : option string) :
  (exists r, Canvas.createIconTexture dom type colorArg = Canvas.Normal r)
  /\ (Canvas.context2d dom = false ->
      Canvas.createIconTexture dom type colorArg
      = Canvas.Normal
          {| Canvas.returned := "";
             Canvas.consoleError := ["Canvas 2D context unavailable"];
             Canvas.drawn := [] |})
  /\ (Canvas.context2d dom = true -> ~ In type Icons.knownIcons ->
      exists color,
        color = match colorArg with Some c => c | None => "#ffffff" end
        /\ Canvas.createIconTexture dom type colorArg
           = Canvas.Normal
               {| Canvas.returned :=
                    Canvas.toDataURL dom
                      (Canvas.preamble color ++ Canvas.filledCircle);
                  Canvas.consoleError := [];
                  Canvas.drawn := Canvas.preamble color ++ Canvas.filledCircle
               |}).
Proof.
  split; [|split].
  - unfold Canvas.createIconTexture. destruct (Canvas.context2d dom); eauto.
  - intros H. unfold Canvas.createIconTexture. rewrite H. reflexivity.
  - intros H Hun. eexists. split; [reflexivity|].
    unfold Canvas.createIconTexture. rewrite H.
    rewrite (drawIcon_unknown _ _ _ _ Hun). reflexivity.
Qed.

Lemma icon_texture_fallbacks_witness :
  Canvas.createIconTexture
    {| Canvas.context2d := false; Canvas.toDataURL := fun _ => "data:," |}
    "star" None
  = Canvas.Normal
      {| Canvas.returned := "";
         Canvas.consoleError := ["Canvas 2D context unavailable"];
         Canvas.drawn := [] |}
  /\ exists color,
       color = "#1a1a24"
       /\ Canvas.createIconTexture
            {| Canvas.context2d := true;
               Canvas.toDataURL := fun _ => "data:," |}
            "star" (Some "#1a1a24")
          = Canvas.Normal
              {| Canvas.returned := "data:,";
                 Canvas.consoleError := [];
                 Canvas.drawn := Canvas.preamble color ++ Canvas.filledCircle
              |}.
Proof.
  split.
  - apply (proj1 (proj2 (icon_texture_fallbacks
       {| Canvas.context2d := false; Canvas.toDataURL := fun _ => "data:," |}
       "star" None))).
    reflexivity.
  - apply (proj2 (proj2 (icon_texture_fallbacks
       {| Canvas.context2d := true; Canvas.toDataURL := fun _ => "data:," |}
       "star" (Some "#1a1a24")))).
    + reflexivity.
    + simpl. intros [H|[H|[H|[H|[H|[H|H]]]]]]; try discriminate H. exact H.
Defined.

(** Each known glyph is drawn by its own routine, not by the fallback:
    the drawings start with a different line width. *)
Lemma drawIcon_known_not_fallback :
  Forall (fun type =>
            exists w rest,
              Canvas.drawIcon type 256 256 "#ffffff"
              = Canvas.LineWidth w :: rest)
         Icons.knownIcons.
Proof.
  repeat (apply Forall_cons; [eexists; eexists; reflexivity|]).
  apply Forall_nil.
Qed.

(** ** Physics activation latch *)

Lemma pushZeros_velocities (n : nat) (p : Physics.PhysicsState) :
  Physics.velocities (Physics.pushZeros n p)
  = Physics.velocities p ++ repeat (THREE.vec3 0 0 0) n.
Proof.
  revert p. induction n as [|n IH]; intros p; simpl.
  - now rewrite app_nil_r.
  - rewrite IH. simpl. now rewrite <- app_assoc.
Qed.

Lemma map_const_repeat {A B : Type} (b : B) (l : list A) :
  List.map (fun _ => b) l = repeat b (List.length l).
Proof. induction l as [|a l IH]; simpl; [reflexivity|now rewrite IH]. Qed.

(** C3: the trigger of the drop phase is a latch on the physics state.
    When the scroll position moves forward past the end, [active] becomes
    true; when it moves backward past the end, [active] becomes false and
    every velocity becomes the zero vector, whatever it was (all 27 of them
    after the mount effect); an update that does not cross the end leaves
    the physics state as it is, whatever the progress. *)
Theorem drop_trigger_is_a_latch (t : Choreography.ScrollTrigger)
    (p : Physics.PhysicsState) (scroll : R) :
  (Choreography.past t = false -> (Choreography.endPx t <= scroll)%R ->
     Physics.active (snd (Choreography.onScroll scroll (t, p))) = true
     /\ Physics.velocities (snd (Choreography.onScroll scroll (t, p)))
        = Physics.velocities p)
  /\ (Choreography.past t = true -> (scroll < Choreography.endPx t)%R ->
        Physics.active (snd (Choreography.onScroll scroll (t, p))) = false
        /\ Physics.velocities (snd (Choreography.onScroll scroll (t, p)))
           = repeat (THREE.vec3 0 0 0) (List.length (Physics.velocities p)))
  /\ (Choreography.past t = Choreography.isPast t scroll ->
        snd (Choreography.onScroll scroll (t, p)) = p)
  /\ Choreography.past (fst (Choreography.onScroll scroll (t, p)))
     = Choreography.isPast t scroll
  /\ List.length
       (Physics.velocities (Physics.initPhysics Physics.initialPhysics))
     = 27%nat.
Proof.
  unfold Choreography.onScroll, Choreography.isPast.
  cbn [fst snd Choreography.past Choreography.setPast].
  split; [|split; [|split; [|split]]].
  - intros Hp Hs. rewrite Hp.
    destruct (Rle_dec (Choreography.endPx t) scroll); [|contradiction].
    split; reflexivity.
  - intros Hp Hs. rewrite Hp.
    destruct (Rle_dec (Choreography.endPx t) scroll); [lra|].
    split; [reflexivity|]. apply map_const_repeat.
  - intros Hp. rewrite Hp.
    destruct (Rle_dec (Choreography.endPx t) scroll); reflexivity.
  - reflexivity.
  - unfold Physics.initPhysics. rewrite pushZeros_velocities. reflexivity.
Qed.

Lemma drop_trigger_is_a_latch_witness :
  (Physics.active
     (snd (Choreography.onScroll 900
        ({| Choreography.startPx := 500; Choreography.endPx := 800;
            Choreography.past := false |},
         Physics.initPhysics Physics.initialPhysics))) = true)
  /\ (Physics.velocities
        (snd (Choreography.onScroll 700
           ({| Choreography.startPx := 500; Choreography.endPx := 800;
               Choreography.past := true |},
            {| Physics.active := true;
               Physics.velocities := [THREE.vec3 3 0 (-2); THREE.vec3 0 1 0];
               Physics.offsets := [] |})))
      = [THREE.vec3 0 0 0; THREE.vec3 0 0 0]).
Proof.
  split.
  - apply (proj1 (drop_trigger_is_a_latch
       {| Choreography.startPx := 500; Choreography.endPx := 800;
          Choreography.past := false |}
       (Physics.initPhysics Physics.initialPhysics) 900)).
    + reflexivity.
    + cbn [Choreography.endPx]. lra.
  - apply (proj1 (proj2 (drop_trigger_is_a_latch
       {| Choreography.startPx := 500; Choreography.endPx := 800;
          Choreography.past := true |}
       {| Physics.active := true;
          Physics.velocities := [THREE.vec3 3 0 (-2); THREE.vec3 0 1 0];
          Physics.offsets := [] |} 700))).
    + reflexivity.
    + cbn [Choreography.endPx]. lra.
Defined.

(** ** Physics frame *)

Section FrameFacts.

Import THREE Physics.
Local Open Scope R_scope.

Variable fr : Frame.

Lemma forEachFrom_app {S : Type} (f : nat -> S -> option S) (a b : nat) :
  forall k s,
    forEachFrom (a + b) k f s
    = match forEachFrom a k f s with
      | Some s' => forEachFrom b (k + a) f s'
      | None => None
      end.
Proof.
  induction a as [|a IH]; intros k s; simpl.
  - now rewrite Nat.add_0_r.
  - destruct (f k s) as [s1|]; [|reflexivity].
    rewrite IH. now rewrite Nat.add_succ_comm.
Qed.




End FrameFacts.

Section WallClamp.

Import THREE Physics.
Local Open Scope R_scope.

Variable fr : Frame.




End WallClamp.

(** ** The landed scene *)

Section SampleFacts.

Import THREE Physics.
Local Open Scope R_scope.

Lemma sample_cube (j : nat) (m : Group) :
  Sample.cubes !! j = Some m ->
  position m = vec3 (if Nat.eqb j 0 then 4 else 0) (-5) (3 * INR j).
Proof.
  unfold Sample.cubes. rewrite list_lookup_imap.
  destruct (Scene.mountCubes Sample.grid !! j) as [c|]; simpl;
    intros [= <-]; reflexivity.
Qed.

Lemma sample_roomy : roomy Sample.world.
Proof.
  unfold roomy.
  assert (Hc : List.length (cubesRefs Sample.world) = 27%nat)
    by reflexivity.
  assert (Hv : List.length (velocities (physics Sample.world)) = 27%nat)
    by reflexivity.
  rewrite Hc, Hv. lia.
Qed.

Lemma sample_first :
  Sample.cubes !! 0%nat
  = Some {| position := vec3 4 (-5) (3 * INR 0);
            rotation := vec3 0 0 0; scale := vec3 1 1 1;
            userDataId := Grid.cubeId (-1) 1 (-1) |}.
Proof. reflexivity. Qed.

(** In the landed scene neither the pointer nor another piece is within
    reach of piece 0. *)
Lemma sample_impulses (v : Vector3) (n : nat) :
  collisions Sample.frame Sample.cubes 0
    (vec3 4 (-5) (3 * INR 0)) (v, n) = Some (v, n)
  /\ mouseRepulsion Sample.frame None (vec3 4 (-5) (3 * INR 0)) v = v.
Proof.
  split.
  - apply collisions_far. intros j m Hj Hm.
    apply sample_cube in Hm. cbn [Sample.frame getWorldPosition].
    rewrite Hm. destruct (Nat.eqb_spec j 0) as [->|_]; [congruence|].
    pose proof (distanceTo_ge_dx (vec3 4 (-5) (3 * INR 0))
                  (vec3 0 (-5) (3 * INR j))) as H.
    cbn [x] in H. unfold CUBE_THEME.collisionMinDist. intros Hlt.
    revert H Hlt. generalize (distanceTo (vec3 4 (-5) (3 * INR 0))
                                (vec3 0 (-5) (3 * INR j))).
    intros d H Hlt. lra.
  - apply mouseRepulsion_far.
    pose proof (distanceTo_ge_dx (floorOf (vec3 4 (-5) (3 * INR 0)))
                  (floorOf (mouseWorldPos Sample.frame))) as H.
    unfold CUBE_THEME.repulsionRadius. intros Hlt.
    revert H Hlt.
    generalize (distanceTo (floorOf (vec3 4 (-5) (3 * INR 0)))
                  (floorOf (mouseWorldPos Sample.frame))).
    cbn [x floorOf Sample.frame mouseWorldPos].
    intros d H Hlt. lra.
Qed.


End SampleFacts.



(** ** Drag rule *)

Section DragFacts.

Import THREE Physics.
Local Open Scope R_scope.

Variable fr : Frame.

Lemma pushOther_spec (i : nat) (p : Vector3) (j : nat) (w : World) :
  roomy w ->
  exists w',
    pushOther fr i p j w = Some w'
    /\ cubesRefs w' = cubesRefs w
    /\ dragRef w' = dragRef w /\ draws w' = draws w
    /\ active (physics w') = active (physics w)
    /\ List.length (velocities (physics w'))
       = List.length (velocities (physics w))
    /\ (forall k, k <> j ->
          velocities (physics w') !! k = velocities (physics w) !! k)
    /\ velocities (physics w') !! j = pushedAt fr i p w j.
Proof.
  intros Hr. unfold pushOther, pushedAt, pushedVelocity.
  destruct (Nat.eqb i j); [exists w; repeat split; auto|].
  destruct (cubesRefs w !! j) as [mj|] eqn:Hm.
  2:{ exists w. repeat split; auto. }
  destruct (velocities (physics w) !! j) as [vj|] eqn:Hv.
  2:{ apply lookup_lt_Some in Hm. apply lookup_ge_None in Hv.
      unfold roomy in Hr. lia. }
  destruct (Rlt_dec _ _) as [Hlt|Hge].
  - eexists. split; [reflexivity|]. cbn.
    rewrite length_insert.
    repeat split; auto.
    + intros k Hk. now apply list_lookup_insert_ne.
    + apply list_lookup_insert_eq. eapply lookup_lt_Some; eauto.
  - exists w. repeat split; auto.
Qed.

Lemma pushLoop_spec (i : nat) (p : Vector3) (n : nat) :
  forall k w,
    roomy w ->
    exists w',
      forEachFrom n k (pushOther fr i p) w = Some w'
      /\ cubesRefs w' = cubesRefs w
      /\ dragRef w' = dragRef w /\ draws w' = draws w
      /\ active (physics w') = active (physics w)
      /\ forall j,
           velocities (physics w') !! j
           = if (k <=? j)%nat && (j <? k + n)%nat
             then pushedAt fr i p w j
             else velocities (physics w) !! j.
Proof.
  induction n as [|n IH]; intros k w Hr; simpl.
  - exists w. repeat split; auto. intros j.
    destruct (Nat.leb_spec k j); destruct (Nat.ltb_spec j (k + 0));
      simpl; auto; lia.
  - destruct (pushOther_spec i p k w Hr)
      as (w1 & -> & Hc1 & Hd1 & Hn1 & Ha1 & Hl1 & Ho1 & Hk1).
    assert (Hr1 : roomy w1) by (unfold roomy in *; rewrite Hc1, Hl1; auto).
    destruct (IH (S k) w1 Hr1) as (w' & Hrun & Hc & Hd & Hn & Ha & Hv).
    exists w'. split; [exact Hrun|].
    split; [congruence|]. split; [congruence|]. split; [congruence|].
    split; [congruence|].
    intros j. rewrite Hv.
    destruct (Nat.eq_dec j k) as [->|Hjk].
    + replace ((S k <=? k)%nat) with false
        by (symmetry; apply Nat.leb_gt; lia).
      replace ((k <=? k)%nat) with true by (symmetry; apply Nat.leb_refl).
      replace ((k <? k + S n)%nat) with true
        by (symmetry; apply Nat.ltb_lt; lia).
      simpl. exact Hk1.
    + unfold pushedAt. rewrite Hc1, (Ho1 j Hjk).
      destruct (Nat.leb_spec (S k) j); destruct (Nat.leb_spec k j);
        destruct (Nat.ltb_spec j (S k + n));
        destruct (Nat.ltb_spec j (k + S n)); simpl; auto; lia.
Qed.

(** The iteration of the dragged piece. *)
Lemma dragStep_spec (w : World) (i : nat) (mesh : Group) (v : Vector3) :
  cubesRefs w !! i = Some mesh ->
  velocities (physics w) !! i = Some v ->
  roomy w ->
  let target := dragTarget fr in
  let p' := lerp (position mesh) target 0.2 in
  exists w',
    dragStep fr i mesh w = Some w'
    /\ cubesRefs w' = <[i := setPosition mesh p']> (cubesRefs w)
    /\ velocities (physics w') !! i
       = Some (multiplyScalar (sub target (position mesh)) 10)
    /\ (forall j mj vj, j <> i ->
          cubesRefs w !! j = Some mj ->
          velocities (physics w) !! j = Some vj ->
          velocities (physics w') !! j
          = Some (pushedVelocity fr p' j (position mj) vj))
    /\ dragRef w' = dragRef w /\ draws w' = draws w
    /\ active (physics w') = active (physics w).
Proof.
  intros Hm Hv Hr target p'. unfold dragStep. fold target. fold p'.
  set (w2 := setCubes _ _).
  assert (Hr2 : roomy w2).
  { unfold roomy, w2 in *. cbn. now rewrite !length_insert. }
  destruct (pushLoop_spec i p' (List.length (cubesRefs w2)) 0 w2 Hr2)
    as (w' & Hrun & Hc & Hd & Hn & Ha & Hvel).
  exists w'. split; [exact Hrun|].
  split; [rewrite Hc; reflexivity|].
  split.
  { rewrite Hvel. unfold pushedAt. rewrite Nat.eqb_refl.
    destruct ((0 <=? i)%nat && (i <? 0 + List.length (cubesRefs w2))%nat);
      cbn; apply list_lookup_insert_eq; eapply lookup_lt_Some; eauto. }
  split.
  { intros j mj vj Hj Hmj Hvj. rewrite Hvel.
    assert (Hlen : (j < List.length (cubesRefs w2))%nat).
    { unfold w2. cbn. rewrite length_insert. eapply lookup_lt_Some; eauto. }
    replace ((0 <=? j)%nat) with true by (symmetry; apply Nat.leb_le; lia).
    replace ((j <? 0 + List.length (cubesRefs w2))%nat) with true
      by (symmetry; apply Nat.ltb_lt; lia).
    simpl. unfold pushedAt.
    destruct (Nat.eqb_spec i j) as [->|_]; [congruence|].
    unfold w2. cbn.
    rewrite !list_lookup_insert_ne by congruence.
    rewrite Hmj, Hvj. reflexivity. }
  split; [rewrite Hd; reflexivity|].
  split; [rewrite Hn; reflexivity|rewrite Ha; reflexivity].
Qed.

End DragFacts.


(** While nothing is dragged, a pointer within the repulsion radius pushes
    the piece away from it. *)
Lemma mouseRepulsion_near (fr : Physics.Frame) (c u : THREE.Vector3) :
  (THREE.distanceTo (Physics.floorOf c)
     (Physics.floorOf (Physics.mouseWorldPos fr))
   < CUBE_THEME.repulsionRadius)%R ->
  Physics.mouseRepulsion fr None c u
  = THREE.add u
      (THREE.multiplyScalar
         (THREE.normalize
            (THREE.sub (Physics.floorOf c)
               (Physics.floorOf (Physics.mouseWorldPos fr))))
         ((1 - THREE.distanceTo (Physics.floorOf c)
                 (Physics.floorOf (Physics.mouseWorldPos fr))
               / CUBE_THEME.repulsionRadius)
          * CUBE_THEME.repulsionForce * Physics.delta fr))%R.
Proof.
  intros H. unfold Physics.mouseRepulsion.
  destruct (Rlt_dec _ _); [reflexivity|contradiction].
Qed.

(** ** Tweens and timelines *)

Section TweenFacts.

Import THREE Scene Gsap.
Local Open Scope R_scope.

Lemma interpolate_0 (s e : Vector3) : interpolate s e 0 = s.
Proof.
  destruct s as [sx sy sz]. unfold interpolate. cbn [x y z].
  f_equal; ring.
Qed.

Lemma interpolate_1 (s e : Vector3) : interpolate s e 1 = e.
Proof.
  destruct e as [ex ey ez]. unfold interpolate. cbn [x y z].
  f_equal; ring.
Qed.

Lemma easeFn_0 (e : Ease) : easeFn e 0 = 0.
Proof.
  destruct e; unfold easeFn, easeOut, easeInOut;
    try destruct (Rlt_dec 0 0.5) as [_|H]; try lra; cbn [pow]; lra.
Qed.

Lemma easeFn_1 (e : Ease) : easeFn e 1 = 1.
Proof.
  destruct e; unfold easeFn, easeOut, easeInOut;
    try destruct (Rlt_dec 1 0.5) as [H|_]; try lra; cbn [pow]; lra.
Qed.

Lemma tweenValue_start (tw : Tween) (start : Vector3) (time : R) :
  time <= startAt tw -> tweenValue tw start time = start.
Proof.
  intros H. unfold tweenValue, localProgress.
  destruct (Rle_dec time (startAt tw)); [|contradiction].
  rewrite easeFn_0. apply interpolate_0.
Qed.

Lemma tweenValue_end (tw : Tween) (start : Vector3) (time : R) :
  0 < duration tw -> startAt tw + duration tw <= time ->
  tweenValue tw start time = toVars tw.
Proof.
  intros Hd H. unfold tweenValue, localProgress.
  destruct (Rle_dec time (startAt tw)); [lra|].
  destruct (Rle_dec (startAt tw + duration tw) time); [|contradiction].
  rewrite easeFn_1. apply interpolate_1.
Qed.

Lemma tweenValue_setFrom (tw : Tween) (v start : Vector3) (time : R) :
  tweenValue (setFrom tw v) start time = tweenValue tw start time.
Proof. reflexivity. Qed.

Lemma getTarget_setTarget_same (t : Target) (v : Vector3) (s : Stage) :
  validTarget s t -> getTarget t (setTarget t v s) = v.
Proof.
  intros Hv. destruct t as [| | |[| |]|i|i]; try reflexivity;
    cbn [validTarget] in Hv; unfold setTarget, getTarget;
    destruct (cubesRefs s !! i) as [m|] eqn:E;
    try (apply lookup_ge_None in E; lia);
    cbn [withCubes cubesRefs]; rewrite list_lookup_insert_eq
      by (eapply lookup_lt_Some; eauto); reflexivity.
Qed.

Lemma getTarget_setTarget_other (t t' : Target) (v : Vector3) (s : Stage) :
  t <> t' -> getTarget t (setTarget t' v s) = getTarget t s.
Proof.
  intros Hne. destruct t' as [| | |l'|j|j].
  - destruct t as [| | |[| |]|i|i]; try congruence; reflexivity.
  - destruct t as [| | |[| |]|i|i]; try congruence; reflexivity.
  - destruct t as [| | |[| |]|i|i]; try congruence; reflexivity.
  - destruct l'; destruct t as [| | |[| |]|i|i]; try congruence; reflexivity.
  - unfold setTarget.
    destruct (cubesRefs s !! j) as [m|] eqn:E; [|reflexivity].
    destruct t as [| | |[| |]|i|i]; try reflexivity;
      unfold getTarget; cbn [withCubes cubesRefs].
    + rewrite list_lookup_insert_ne by congruence. reflexivity.
    + destruct (Nat.eq_dec i j) as [->|Hij].
      * rewrite list_lookup_insert_eq by (eapply lookup_lt_Some; eauto).
        rewrite E. reflexivity.
      * rewrite list_lookup_insert_ne by congruence. reflexivity.
  - unfold setTarget.
    destruct (cubesRefs s !! j) as [m|] eqn:E; [|reflexivity].
    destruct t as [| | |[| |]|i|i]; try reflexivity;
      unfold getTarget; cbn [withCubes cubesRefs].
    + destruct (Nat.eq_dec i j) as [->|Hij].
      * rewrite list_lookup_insert_eq by (eapply lookup_lt_Some; eauto).
        rewrite E. reflexivity.
      * rewrite list_lookup_insert_ne by congruence. reflexivity.
    + rewrite list_lookup_insert_ne by congruence. reflexivity.
Qed.

Lemma setTarget_length (t : Target) (v : Vector3) (s : Stage) :
  List.length (cubesRefs (setTarget t v s)) = List.length (cubesRefs s).
Proof.
  destruct t as [| | |[| |]|i|i]; try reflexivity; unfold setTarget;
    destruct (cubesRefs s !! i); try reflexivity;
    cbn [withCubes cubesRefs]; apply length_insert.
Qed.

Lemma validTarget_length (s s' : Stage) (t : Target) :
  List.length (cubesRefs s') = List.length (cubesRefs s) ->
  validTarget s t -> validTarget s' t.
Proof. intros H. destruct t; cbn [validTarget]; auto; lia. Qed.

Lemma renderTweens_length (time : R) (tl : Timeline) :
  forall s,
    List.length (cubesRefs (snd (renderTweens time tl s)))
    = List.length (cubesRefs s).
Proof.
  induction tl as [|tw rest IH]; intros s; [reflexivity|].
  cbn [renderTweens renderTween].
  destruct (renderTweens time rest _) as [rest' s2] eqn:E.
  cbn [snd]. specialize (IH (setTarget (target tw)
                               (tweenValue tw (startOf tw s) time) s)).
  rewrite E in IH. cbn [snd] in IH. rewrite IH. apply setTarget_length.
Qed.

(** Rendering leaves the targets of no tween as they are. *)
Lemma renderTweens_other (time : R) (t : Target) (tl : Timeline) :
  forall s,
    ~ In t (List.map target tl) ->
    getTarget t (snd (renderTweens time tl s)) = getTarget t s.
Proof.
  induction tl as [|tw rest IH]; intros s Hn; [reflexivity|].
  cbn [renderTweens renderTween].
  destruct (renderTweens time rest _) as [rest' s2] eqn:E.
  cbn [snd]. cbn [List.map In] in Hn.
  specialize (IH (setTarget (target tw)
                    (tweenValue tw (startOf tw s) time) s)).
  rewrite E in IH. cbn [snd] in IH. rewrite IH by tauto.
  apply getTarget_setTarget_other. intros ->. tauto.
Qed.

End TweenFacts.

Section TimelineFacts.

Import THREE Scene Gsap.
Local Open Scope R_scope.

Lemma primed_targets (s : Stage) (tl : Timeline) :
  List.map target (primed s tl) = List.map target tl.
Proof. unfold primed. rewrite List.map_map. reflexivity. Qed.

Lemma primed_primed (s s' : Stage) (tl : Timeline) :
  primed s' (primed s tl) = primed s tl.
Proof. unfold primed. rewrite List.map_map. reflexivity. Qed.

Lemma totalDuration_primed (s : Stage) (tl : Timeline) :
  totalDuration (primed s tl) = totalDuration tl.
Proof.
  induction tl as [|tw rest IH]; [reflexivity|].
  cbn [primed List.map totalDuration fold_right] in *.
  unfold primed, totalDuration in IH. rewrite IH. reflexivity.
Qed.

Lemma totalDuration_ge (tl : Timeline) (tw : Tween) :
  In tw tl -> startAt tw + duration tw <= totalDuration tl.
Proof.
  induction tl as [|a rest IH]; intros Hin; [destruct Hin|].
  cbn [totalDuration fold_right]. destruct Hin as [->|Hin].
  - apply Rmax_l.
  - eapply Rle_trans; [apply IH; exact Hin|apply Rmax_r].
Qed.

(** One render of a timeline whose tweens have distinct targets: every
    tween records its start value on the stage the render began with, and
    its target ends at the value of that tween. *)
Lemma renderTweens_spec (time : R) (tl : Timeline) :
  forall s,
    List.NoDup (List.map target tl) ->
    Forall (validTarget s) (List.map target tl) ->
    fst (renderTweens time tl s) = primed s tl
    /\ Forall (fun tw =>
                 getTarget (target tw) (snd (renderTweens time tl s))
                 = tweenValue tw (startOf tw s) time) tl.
Proof.
  induction tl as [|tw rest IH]; intros s Hnd Hv.
  - split; [reflexivity|constructor].
  - cbn [List.map] in Hnd, Hv.
    apply List.NoDup_cons_iff in Hnd as [Hnotin Hnd].
    apply Forall_cons_iff in Hv as [Hvt Hv].
    set (s1 := setTarget (target tw) (tweenValue tw (startOf tw s) time) s).
    assert (Hv1 : Forall (validTarget s1) (List.map target rest)).
    { eapply Forall_impl; [|exact Hv]. intros t Ht.
      eapply validTarget_length; [|exact Ht]. apply setTarget_length. }
    destruct (IH s1 Hnd Hv1) as [Hfst Hvals].
    pose proof (renderTweens_other time (target tw) rest s1 Hnotin) as Hhead.
    cbn [renderTweens renderTween]. fold s1.
    destruct (renderTweens time rest s1) as [rest' s2] eqn:E.
    cbn [fst snd] in *.
    assert (Hstart : forall tw', In tw' rest -> startOf tw' s1 = startOf tw' s).
    { intros tw' Hin. unfold startOf. destruct (from tw'); [reflexivity|].
      apply getTarget_setTarget_other. intros Heq. apply Hnotin.
      rewrite <- Heq. apply in_map. exact Hin. }
    split.
    + cbn [primed List.map]. f_equal. rewrite Hfst. unfold primed.
      apply List.map_ext_in. intros tw' Hin. now rewrite Hstart.
    + constructor.
      * rewrite Hhead. unfold s1. now apply getTarget_setTarget_same.
      * rewrite List.Forall_forall in Hvals |- *. intros tw' Hin.
        rewrite (Hvals tw' Hin). now rewrite Hstart.
Qed.

Lemma scrub_reached (tl : Timeline) (s0 : Stage) (p : R)
    (ts : Timeline * Stage) :
  List.NoDup (List.map target tl) ->
  Forall (validTarget s0) (List.map target tl) ->
  reached tl s0 ts ->
  reached tl s0 (scrub p ts)
  /\ Forall (fun tw =>
               getTarget (target tw) (snd (scrub p ts))
               = tweenValue tw (startOf tw s0) (p * totalDuration tl)) tl.
Proof.
  intros Hnd Hv [->|[Hfst Hlen]].
  - unfold scrub. cbn [fst snd].
    destruct (renderTweens_spec (p * totalDuration tl) tl s0 Hnd Hv)
      as [Hf Hvals].
    split; [|exact Hvals].
    right. split; [exact Hf|apply renderTweens_length].
  - destruct ts as [T s]. cbn [fst snd] in *. subst T.
    unfold scrub. cbn [fst snd]. rewrite totalDuration_primed.
    assert (Hnd' : List.NoDup (List.map target (primed s0 tl)))
      by (rewrite primed_targets; exact Hnd).
    assert (Hv' : Forall (validTarget s) (List.map target (primed s0 tl))).
    { rewrite primed_targets. eapply Forall_impl; [|exact Hv].
      intros t Ht. eapply validTarget_length; [|exact Ht]. exact Hlen. }
    destruct (renderTweens_spec (p * totalDuration tl) (primed s0 tl) s
                Hnd' Hv') as [Hf Hvals].
    split.
    + right. split; [rewrite Hf; apply primed_primed|].
      rewrite renderTweens_length. exact Hlen.
    + unfold primed in Hvals at 2. rewrite List.Forall_map in Hvals.
      exact Hvals.
Qed.

Lemma scrubAll_reached (tl : Timeline) (s0 : Stage) (ps : list R) :
  List.NoDup (List.map target tl) ->
  Forall (validTarget s0) (List.map target tl) ->
  forall ts, reached tl s0 ts -> reached tl s0 (scrubAll ps ts).
Proof.
  intros Hnd Hv. induction ps as [|p ps IH]; intros ts Hr; [exact Hr|].
  cbn [scrubAll fold_left]. apply IH.
  apply (scrub_reached tl s0 p ts Hnd Hv Hr).
Qed.

(** After any scroll history, what a tween target holds depends on the
    last progress value only. *)
Lemma scrubAll_last (tl : Timeline) (s0 : Stage) (ps : list R) (p : R) :
  List.NoDup (List.map target tl) ->
  Forall (validTarget s0) (List.map target tl) ->
  Forall (fun tw =>
            getTarget (target tw) (snd (scrubAll (ps ++ [p]) (tl, s0)))
            = tweenValue tw (startOf tw s0) (p * totalDuration tl)) tl.
Proof.
  intros Hnd Hv. unfold scrubAll. rewrite fold_left_app.
  cbn [fold_left].
  apply scrub_reached; [exact Hnd|exact Hv|].
  apply (scrubAll_reached tl s0 ps Hnd Hv). left. reflexivity.
Qed.

End TimelineFacts.

(** ** Scroll timelines *)

Section ScrollFacts.

Import THREE Scene Gsap Choreography.
Local Open Scope R_scope.

Variable c : Setup.
Variable g : Grid.CubeGridState.

Lemma explodeAll_targets (meshes : list Group) :
  forall i,
    List.map target (explodeAll c g i meshes)
    = cubeTargets i (List.length meshes).
Proof.
  induction meshes as [|m rest IH]; intros i; [reflexivity|].
  cbn [explodeAll explodeTweens List.app List.map target to].
  rewrite IH. reflexivity.
Qed.

Lemma cubeTargets_In (t : Target) (n : nat) :
  forall i,
    In t (cubeTargets i n) ->
    exists k,
      (i <= k < i + n)%nat /\ (t = CubePosition k \/ t = CubeRotation k).
Proof.
  induction n as [|n IH]; intros i Hin; [destruct Hin|].
  unfold cubeTargets in Hin. cbn [seq flat_map List.app In] in Hin.
  destruct Hin as [<-|[<-|Hin]].
  - exists i. split; [lia|auto].
  - exists i. split; [lia|auto].
  - destruct (IH (S i) Hin) as (k & Hk & Ht). exists k. split; [lia|exact Ht].
Qed.

Lemma cubeTargets_NoDup (n : nat) : forall i, List.NoDup (cubeTargets i n).
Proof.
  induction n as [|n IH]; intros i; [constructor|].
  unfold cubeTargets. cbn [seq flat_map List.app].
  constructor; [|constructor; [|apply IH]].
  - intros [H|H]; [discriminate|].
    destruct (cubeTargets_In _ _ _ H) as (k & Hk & [E|E]);
      [injection E as E; lia|discriminate].
  - intros H.
    destruct (cubeTargets_In _ _ _ H) as (k & Hk & [E|E]);
      [discriminate|injection E as E; lia].
Qed.

Lemma tl1_targets :
  List.map target (tl1 c) = [MainRotation; MainPosition; MainScale].
Proof. reflexivity. Qed.

Lemma tl2_targets (s : Stage) :
  List.map target (tl2 c g s)
  = [SliceRotation Grid.top; SliceRotation Grid.mid; SliceRotation Grid.bot;
     MainPosition; MainScale; MainRotation]
    ++ cubeTargets 0 (List.length (cubesRefs s)).
Proof.
  unfold tl2. rewrite List.map_app, explodeAll_targets. reflexivity.
Qed.

Lemma tl1_NoDup : List.NoDup (List.map target (tl1 c)).
Proof.
  rewrite tl1_targets.
  repeat (constructor; [cbn [In]; intuition discriminate|]). constructor.
Qed.

Lemma tl2_NoDup (s : Stage) : List.NoDup (List.map target (tl2 c g s)).
Proof.
  rewrite tl2_targets. cbn [List.app].
  repeat (constructor;
    [cbn [In]; intros H;
     repeat (destruct H as [H|H]; [discriminate|]);
     destruct (cubeTargets_In _ _ _ H) as (k & _ & [E|E]); discriminate|]).
  apply cubeTargets_NoDup.
Qed.

Lemma tl1_valid (s : Stage) :
  Forall (validTarget s) (List.map target (tl1 c)).
Proof. rewrite tl1_targets. repeat constructor. Qed.

Lemma tl2_valid (s : Stage) :
  Forall (validTarget s) (List.map target (tl2 c g s)).
Proof.
  rewrite tl2_targets. apply Forall_app. split; [repeat constructor|].
  rewrite List.Forall_forall. intros t Hin.
  destruct (cubeTargets_In _ _ _ Hin) as (k & Hk & [-> | ->]);
    cbn [validTarget]; lia.
Qed.

(** Every tween of the two timelines starts at the beginning of its
    timeline and has not recorded a start value yet. *)
Lemma explodeAll_fresh (meshes : list Group) :
  forall i,
    Forall (fun tw => from tw = None /\ startAt tw = 0)
           (explodeAll c g i meshes).
Proof.
  induction meshes as [|m rest IH]; intros i; [constructor|].
  cbn [explodeAll explodeTweens List.app].
  repeat (constructor; [split; reflexivity|]). apply IH.
Qed.

Lemma tl1_fresh : Forall (fun tw => from tw = None /\ startAt tw = 0) (tl1 c).
Proof. repeat (constructor; [split; reflexivity|]). constructor. Qed.

Lemma tl2_fresh (s : Stage) :
  Forall (fun tw => from tw = None /\ startAt tw = 0) (tl2 c g s).
Proof.
  unfold tl2. apply Forall_app. split; [|apply explodeAll_fresh].
  repeat (constructor; [split; reflexivity|]). constructor.
Qed.

(** For a timeline of fresh tweens with distinct targets, all starting at
    0: whatever the scroll history, each target holds the interpolation at
    the last progress value, and at progress 0 its starting value. *)
Lemma scrub_pure (tl : Timeline) (s0 : Stage) (ps : list R) (p : R) :
  List.NoDup (List.map target tl) ->
  Forall (validTarget s0) (List.map target tl) ->
  Forall (fun tw => from tw = None /\ startAt tw = 0) tl ->
  Forall (fun tw =>
            getTarget (target tw) (snd (scrubAll (ps ++ [p]) (tl, s0)))
            = tweenValue tw (getTarget (target tw) s0) (p * totalDuration tl)
            /\ getTarget (target tw) (snd (scrubAll (ps ++ [0]) (tl, s0)))
               = getTarget (target tw) s0) tl.
Proof.
  intros Hnd Hv Hf.
  pose proof (scrubAll_last tl s0 ps p Hnd Hv) as Hp.
  pose proof (scrubAll_last tl s0 ps 0 Hnd Hv) as H0.
  rewrite List.Forall_forall in *. intros tw Hin.
  destruct (Hf tw Hin) as [Hfrom Hat].
  assert (Hs : startOf tw s0 = getTarget (target tw) s0)
    by (unfold startOf; now rewrite Hfrom).
  split.
  - rewrite (Hp tw Hin), Hs. reflexivity.
  - rewrite (H0 tw Hin), Hs. apply tweenValue_start. rewrite Hat. lra.
Qed.

End ScrollFacts.


(** ** Explosion *)

Section ExplosionFacts.

Import THREE Scene Gsap Choreography.
Local Open Scope R_scope.

Lemma length_up : length (vec3 0 1 0) = 1.
Proof.
  unfold length, lengthSq. cbn [x y z].
  replace (0 * 0 + 1 * 1 + 0 * 0) with 1 by ring. apply sqrt_1.
Qed.

Lemma lengthSq_of_unit (u : Vector3) : length u = 1 -> lengthSq u = 1.
Proof.
  intros H. unfold length in H.
  rewrite <- (sqrt_sqrt (lengthSq u)) by apply lengthSq_nonneg.
  rewrite H. ring.
Qed.

(** The explosion direction is a unit vector in every case. *)
Lemma explodeDirection_unit (mesh : Group) (pY : R) :
  length (explodeDirection mesh pY) = 1.
Proof.
  unfold explodeDirection.
  destruct (Req_dec_T (length (normalize (combined mesh pY))) 0) as [E|E].
  - apply length_up.
  - apply normalize_unit. intros H0. apply E.
    rewrite (normalize_zero _ H0). apply length_zero_iff. reflexivity.
Qed.

Lemma explodeDirection_degenerate (mesh : Group) (pY : R) :
  length (combined mesh pY) = 0 -> explodeDirection mesh pY = vec3 0 1 0.
Proof.
  intros H. unfold explodeDirection. rewrite (normalize_zero _ H).
  destruct (Req_dec_T (length zero) 0) as [_|E]; [reflexivity|].
  exfalso. apply E. apply length_zero_iff. reflexivity.
Qed.

Lemma explodeDist_ge (c : Setup) (r : R) :
  0 <= r -> safeSpread c <= explodeDist c r.
Proof. intros H. unfold explodeDist. lra. Qed.

(** Seen from the group, a piece ends at least 0.7 times its explosion
    distance away from where it sat within its slice. *)
Lemma explode_distance (c : Setup) (mesh : Group) (pY r : R) :
  0.7 * explodeDist c r
  <= distanceTo (inGroup (explodeTarget c mesh pY r) pY) (position mesh).
Proof.
  pose proof (lengthSq_of_unit _ (explodeDirection_unit mesh pY)) as Hu.
  apply sqrt_ge_of_sq.
  unfold distanceToSquared, inGroup, explodeTarget. cbn [x y z].
  revert Hu. unfold lengthSq.
  generalize (explodeDirection mesh pY). intros [ux uy uz]. cbn [x y z].
  generalize (explodeDist c r). intros d Hu.
  replace (x (position mesh) + ux * (d * 0.7) - x (position mesh))
    with (0.7 * d * ux) by ring.
  replace (y (position mesh) + uy * d - pY + pY - y (position mesh))
    with (d * uy) by ring.
  replace (z (position mesh) + uz * d - z (position mesh))
    with (d * uz) by ring.
  assert (H1 : 0 <= (d * uy) * (d * uy)) by apply Rle_0_sqr.
  assert (H2 : 0 <= (d * uz) * (d * uz)) by apply Rle_0_sqr.
  replace (0.7 * d * (0.7 * d))
    with (0.7 * d * ux * (0.7 * d * ux)
          + 0.49 * (d * uy * (d * uy)) + 0.49 * (d * uz * (d * uz))).
  - lra.
  - assert (Hd2 : d * d = d * d * (ux * ux + uy * uy + uz * uz))
      by (rewrite Hu; ring).
    nra.
Qed.

(** A piece on the x axis of the middle slice moves by 0.7 times its
    explosion distance exactly. *)
Lemma explode_on_x_axis (c : Setup) (mesh : Group) (r a : R) :
  position mesh = vec3 a 0 0 -> 0 < a -> 0 <= explodeDist c r ->
  distanceTo (explodeTarget c mesh 0 r) (position mesh)
  = 0.7 * explodeDist c r.
Proof.
  intros Hp Ha Hd.
  assert (Hlen : length (combined mesh 0) = a).
  { unfold combined, length, lengthSq. rewrite Hp. cbn [x y z].
    replace (a * a + 0 * 0 + 0 * 0) with (a * a) by ring.
    apply sqrt_square. lra. }
  assert (Hdir : explodeDirection mesh 0 = vec3 1 0 0).
  { pose proof (explodeDirection_unit mesh 0) as Hunit.
    unfold explodeDirection in *.
    destruct (Req_dec_T (length (normalize (combined mesh 0))) 0) as [E|E].
    - exfalso. unfold normalize in E. rewrite Hlen in E.
      destruct (Req_dec_T a 0) as [Ha0|_]; [lra|].
      unfold divideScalar in E. rewrite length_scale in E.
      + rewrite Hlen in E. assert (a * (1 / a) = 1) by (field; lra). lra.
      + apply Rlt_le. apply Rdiv_lt_0_compat; lra.
    - unfold normalize. rewrite Hlen.
      destruct (Req_dec_T a 0) as [Ha0|_]; [lra|].
      unfold divideScalar, multiplyScalar, combined. rewrite Hp.
      cbn [x y z]. f_equal; field; lra. }
  unfold explodeTarget. rewrite Hdir, Hp. cbn [x y z].
  unfold distanceTo, distanceToSquared. cbn [x y z].
  generalize (explodeDist c r) Hd. intros d Hd'.
  replace ((a + 1 * (d * 0.7) - a) * (a + 1 * (d * 0.7) - a)
           + (0 + 0 * d - 0 - 0) * (0 + 0 * d - 0 - 0)
           + (0 + 0 * d - 0) * (0 + 0 * d - 0))
    with ((0.7 * d) * (0.7 * d)) by ring.
  apply sqrt_square. lra.
Qed.

Variable c : Setup.
Variable g : Grid.CubeGridState.

Lemma explodeAll_In (meshes : list Group) :
  forall i k mesh,
    meshes !! k = Some mesh ->
    In (to (CubePosition (i + k))
           (explodeTarget c mesh (parentY g mesh) (random c (4 * (i + k))))
           defaultDuration Power2Out 0)
       (explodeAll c g i meshes).
Proof.
  induction meshes as [|m rest IH]; intros i k mesh Hk; [discriminate|].
  cbn [explodeAll explodeTweens List.app].
  destruct k as [|k].
  - injection Hk as ->. rewrite Nat.add_0_r. left. reflexivity.
  - right. right. replace (i + S k)%nat with (S i + k)%nat by lia.
    apply IH. exact Hk.
Qed.

(** Driven to progress 1, the explosion timeline leaves each piece at its
    explosion target. *)
Lemma explode_final (s0 : Stage) (ps : list R) (i : nat) (mesh : Group) :
  cubesRefs s0 !! i = Some mesh ->
  exists mesh',
    cubesRefs (snd (scrubAll (ps ++ [1]) (tl2 c g s0, s0))) !! i = Some mesh'
    /\ position mesh'
       = explodeTarget c mesh (parentY g mesh) (random c (4 * i)).
Proof.
  intros Hm.
  set (tw := to (CubePosition i)
               (explodeTarget c mesh (parentY g mesh) (random c (4 * i)))
               defaultDuration Power2Out 0).
  assert (Hin : In tw (tl2 c g s0)).
  { unfold tl2. apply in_or_app. right.
    apply (explodeAll_In (cubesRefs s0) 0 i mesh Hm). }
  pose proof (scrub_pure (tl2 c g s0) s0 ps 1
                (tl2_NoDup c g s0) (tl2_valid c g s0) (tl2_fresh c g s0))
    as Hall.
  rewrite List.Forall_forall in Hall. destruct (Hall tw Hin) as [Hval _].
  pose proof (totalDuration_ge (tl2 c g s0) tw Hin) as Htot.
  cbn [tw to startAt duration] in Htot. unfold defaultDuration in Htot.
  rewrite tweenValue_end in Hval.
  2:{ cbn [tw to duration]. unfold defaultDuration. lra. }
  2:{ cbn [tw to startAt duration]. unfold defaultDuration. lra. }
  cbn [tw to target toVars getTarget] in Hval.
  assert (Hlen :
    List.length (cubesRefs (snd (scrubAll (ps ++ [1]) (tl2 c g s0, s0))))
    = List.length (cubesRefs s0)).
  { destruct (scrubAll_reached (tl2 c g s0) s0 (ps ++ [1])
                (tl2_NoDup c g s0) (tl2_valid c g s0) (tl2 c g s0, s0))
      as [->|[_ Hl]]; [left; reflexivity|reflexivity|exact Hl]. }
  destruct (cubesRefs (snd (scrubAll (ps ++ [1]) (tl2 c g s0, s0))) !! i)
    as [mesh'|] eqn:E.
  - exists mesh'. split; [reflexivity|exact Hval].
  - apply lookup_ge_None in E. apply lookup_lt_Some in Hm. lia.
Qed.

End ExplosionFacts.

Section SampleExplosion.

Import THREE Scene Gsap Choreography.
Local Open Scope R_scope.

Lemma sample_midRight : cubesRefs Sample.stage !! 16%nat = Some Sample.midRight.
Proof. reflexivity. Qed.

Lemma sample_centre : cubesRefs Sample.stage !! 13%nat = Some Sample.centre.
Proof. reflexivity. Qed.

Lemma sample_midRight_parentY : parentY Sample.grid Sample.midRight = 0.
Proof. reflexivity. Qed.

Lemma sample_centre_parentY : parentY Sample.grid Sample.centre = 0.
Proof. reflexivity. Qed.

Lemma sample_midRight_position : position Sample.midRight = vec3 1.05 0 0.
Proof.
  unfold Sample.midRight, toVector3. cbn [position].
  change (inject_Z 1 * ThemeQ.gap)%Q with (105 # 100)%Q.
  change (inject_Z 0 * ThemeQ.gap)%Q with (0 # 100)%Q.
  unfold Q2R. cbn [Qnum Qden]. f_equal; lra.
Qed.

Lemma sample_centre_position : position Sample.centre = vec3 0 0 0.
Proof.
  unfold Sample.centre, toVector3. cbn [position].
  change (inject_Z 0 * ThemeQ.gap)%Q with (0 # 100)%Q.
  unfold Q2R. cbn [Qnum Qden]. f_equal; lra.
Qed.

Lemma sample_safeSpread : safeSpread Sample.setup = 3.
Proof.
  unfold safeSpread. cbn [Sample.setup screenWidth].
  unfold Rmin. destruct (Rle_dec 3.0 (12 * 0.25)); lra.
Qed.

Lemma inGroup_0 (p q : Vector3) : distanceTo (inGroup p 0) q = distanceTo p q.
Proof.
  unfold distanceTo, distanceToSquared, inGroup. cbn [x y z].
  replace (y p + 0 - y q) with (y p - y q) by ring. reflexivity.
Qed.

End SampleExplosion.

(** C4, as the code has it: with the explosion timeline driven to progress
    1, each piece sits at its pre-explosion position plus
    (0.7 * d * u.x, d * u.y - sliceY, d * u.z), where u is the unit
    explosion direction, sliceY the vertical placement of its slice and
    d = base spread + 2 * random draw, at least the base spread when the
    draw is not negative.  Raised by sliceY, that position lies at least
    0.7 times the base spread from the pre-explosion position; for a piece
    of the middle slice (sliceY = 0) this is the distance it has moved. *)
Theorem explosion_moves_by_scaled_spread (c : Choreography.Setup)
    (g : Grid.CubeGridState) (s0 : Scene.Stage) (ps : list R) (i : nat)
    (mesh : THREE.Group) :
  Scene.cubesRefs s0 !! i = Some mesh ->
  (0 <= Choreography.random c (4 * i))%R ->
  exists mesh',
    Scene.cubesRefs
      (snd (Gsap.scrubAll (ps ++ [1%R]) (Choreography.tl2 c g s0, s0))) !! i
    = Some mesh'
    /\ THREE.position mesh'
       = Choreography.explodeTarget c mesh (Choreography.parentY g mesh)
           (Choreography.random c (4 * i))
    /\ (Choreography.safeSpread c
        <= Choreography.explodeDist c (Choreography.random c (4 * i)))%R
    /\ (0.7 * Choreography.safeSpread c
        <= THREE.distanceTo
             (Choreography.inGroup (THREE.position mesh')
                (Choreography.parentY g mesh))
             (THREE.position mesh))%R
    /\ (Choreography.parentY g mesh = 0%R ->
        (0.7 * Choreography.safeSpread c
         <= THREE.distanceTo (THREE.position mesh') (THREE.position mesh))%R).
Proof.
  intros Hm Hr.
  destruct (explode_final c g s0 ps i mesh Hm) as (mesh' & Hl & Hp).
  pose proof (explodeDist_ge c _ Hr) as Hd.
  pose proof (explode_distance c mesh (Choreography.parentY g mesh)
                (Choreography.random c (4 * i))) as Hdist.
  exists mesh'. split; [exact Hl|]. split; [exact Hp|]. split; [exact Hd|].
  rewrite Hp. split; [lra|].
  intros H0. rewrite H0 in Hdist |- *. rewrite inGroup_0 in Hdist. lra.
Qed.

Lemma explosion_moves_by_scaled_spread_witness :
  exists mesh',
    Scene.cubesRefs
      (snd (Gsap.scrubAll ([] ++ [1%R])
              (Choreography.tl2 Sample.setup Sample.grid Sample.stage,
               Sample.stage))) !! 16%nat
    = Some mesh'
    /\ THREE.position mesh'
       = Choreography.explodeTarget Sample.setup Sample.midRight
           (Choreography.parentY Sample.grid Sample.midRight)
           (Choreography.random Sample.setup (4 * 16))
    /\ (0.7 * Choreography.safeSpread Sample.setup
        <= THREE.distanceTo (THREE.position mesh')
             (THREE.position Sample.midRight))%R.
Proof.
  destruct (explosion_moves_by_scaled_spread Sample.setup Sample.grid
              Sample.stage [] 16 Sample.midRight sample_midRight)
    as (mesh' & Hl & Hp & _ & _ & Hmid).
  - cbn [Sample.setup Choreography.random]. lra.
  - exists mesh'. split; [exact Hl|]. split; [exact Hp|].
    apply Hmid. exact sample_midRight_parentY.
Defined.

(** C4 as stated fails on the mounted grid: on a desktop viewport of width
    12 the base spread is 3; with the random term at 0, the middle-slice
    piece at (1, 0, 0) moves from x = 1.05 to x = 3.15, a distance of 2.1,
    less than the base spread. *)
Lemma explosion_spread_counterexample :
  exists mesh',
    Scene.cubesRefs Sample.stage !! 16%nat = Some Sample.midRight
    /\ Choreography.random Sample.setup (4 * 16) = 0%R
    /\ Choreography.safeSpread Sample.setup = 3%R
    /\ Scene.cubesRefs
         (snd (Gsap.scrubAll [1%R]
                 (Choreography.tl2 Sample.setup Sample.grid Sample.stage,
                  Sample.stage))) !! 16%nat
       = Some mesh'
    /\ THREE.distanceTo (THREE.position mesh') (THREE.position Sample.midRight)
       = 2.1%R
    /\ (THREE.distanceTo (THREE.position mesh')
          (THREE.position Sample.midRight)
        < Choreography.safeSpread Sample.setup)%R.
Proof.
  destruct (explode_final Sample.setup Sample.grid Sample.stage [] 16
              Sample.midRight sample_midRight) as (mesh' & Hl & Hp).
  assert (Hdist :
    THREE.distanceTo (THREE.position mesh') (THREE.position Sample.midRight)
    = 2.1%R).
  { rewrite Hp, sample_midRight_parentY.
    rewrite (explode_on_x_axis Sample.setup Sample.midRight _ 1.05%R
               sample_midRight_position).
    - unfold Choreography.explodeDist. rewrite sample_safeSpread.
      cbn [Sample.setup Choreography.random]. lra.
    - lra.
    - unfold Choreography.explodeDist. rewrite sample_safeSpread.
      cbn [Sample.setup Choreography.random]. lra. }
  exists mesh'. split; [exact sample_midRight|]. split; [reflexivity|].
  split; [exact sample_safeSpread|]. split; [exact Hl|].
  split; [exact Hdist|]. rewrite Hdist, sample_safeSpread. lra.
Qed.

Section MountedFacts.

Import THREE Scene Choreography.
Local Open Scope R_scope.

(** For every mounted piece, its id and the vector the explosion
    normalises, by coordinates. *)
Lemma mounted_combined (rnd : Grid.RandomStream) :
  List.map (fun m => (userDataId m, combined m (parentY (Grid.slices rnd) m)))
    (mountCubes (Grid.slices rnd))
  = List.map (fun '(x, y, z) =>
       (Grid.cubeId x y z,
        vec3 (Q2R (inject_Z x * ThemeQ.gap)) (sliceY y)
             (Q2R (inject_Z z * ThemeQ.gap)))) mountOrder.
Proof. reflexivity. Qed.

Lemma axis_offset_zero (k : Z) : Q2R (inject_Z k * ThemeQ.gap) = 0 -> k = 0%Z.
Proof.
  rewrite Q2R_mult. unfold Q2R at 1 2.
  cbn [Qnum Qden inject_Z ThemeQ.gap]. intros H.
  apply eq_IZR_R0.
  assert (Hk : IZR k * (/ 1 * (105 * / 100)) = 0) by lra.
  apply Rmult_integral in Hk. destruct Hk as [Hk|Hk]; [exact Hk|lra].
Qed.

Lemma sliceY_zero (k : Z) : sliceY k = 0 -> k = 0%Z.
Proof.
  unfold sliceY. destruct (Z.eqb_spec k 1); [lra|].
  destruct (Z.eqb_spec k 0); [auto|lra].
Qed.

Lemma only_centre_is_degenerate (rnd : Grid.RandomStream) :
  Forall (fun m =>
            length (combined m (parentY (Grid.slices rnd) m)) = 0 ->
            userDataId m = Grid.cubeId 0 0 0)
         (mountCubes (Grid.slices rnd)).
Proof.
  rewrite List.Forall_forall. intros m Hin Hlen.
  apply length_zero_iff in Hlen.
  pose proof (in_map (fun m => (userDataId m,
                                combined m (parentY (Grid.slices rnd) m)))
                _ _ Hin) as Hpair.
  rewrite mounted_combined in Hpair. apply in_map_iff in Hpair.
  destruct Hpair as ([[kx ky] kz] & Heq & _).
  pose proof (f_equal fst Heq) as Hid.
  pose proof (f_equal snd Heq) as Hvec.
  cbn [fst snd] in Hid, Hvec. rewrite Hlen in Hvec.
  pose proof (f_equal x Hvec) as Hx.
  pose proof (f_equal y Hvec) as Hy.
  pose proof (f_equal z Hvec) as Hz.
  cbn [x y z zero] in Hx, Hy, Hz.
  apply axis_offset_zero in Hx. apply sliceY_zero in Hy.
  apply axis_offset_zero in Hz. rewrite <- Hid, Hx, Hy, Hz. reflexivity.
Qed.

End MountedFacts.


(** * Further properties of the code *)

(** ** Utility functions *)

Section UtilsFacts.

Local Open Scope Q_scope.



Lemma floor_index (r : Q) (n : nat) :
  0 <= r -> r < 1 -> (0 < n)%nat ->
  (0 <= Qfloor (r * inject_Z (Z.of_nat n)) < Z.of_nat n)%Z.
Proof.
  intros H0 H1 Hn.
  set (q := r * inject_Z (Z.of_nat n)).
  assert (Hn' : 0 < inject_Z (Z.of_nat n)).
  { change 0 with (inject_Z 0). rewrite <- Zlt_Qlt. lia. }
  assert (Hq0 : 0 <= q) by (unfold q; Lqa.nra).
  assert (Hqn : q < inject_Z (Z.of_nat n)) by (unfold q; Lqa.nra).
  split.
  - change 0%Z with (Qfloor 0). apply Qfloor_resp_le. exact Hq0.
  - rewrite Zlt_Qlt. eapply Qle_lt_trans; [apply Qfloor_le|exact Hqn].
Qed.

(** X5: for a draw in [0, 1), [randomPick] returns an element of a
    non-empty array; on the empty array it returns [undefined]. *)
Theorem randomPick_member {T : Type} (r : Q) (array : list T) :
  0 <= r -> r < 1 ->
  (array <> [] -> exists x, Utils.randomPick r array = Some x /\ In x array)
  /\ Utils.randomPick r (@nil T) = None.
Proof.
  intros H0 H1. split.
  - intros Hne. unfold Utils.randomPick.
    assert (Hlen : (0 < List.length array)%nat)
      by (destruct array; [congruence|simpl; lia]).
    pose proof (floor_index r (List.length array) H0 H1 Hlen) as [Hk0 Hkn].
    set (k := Qfloor _) in *.
    destruct (Z.ltb_spec k 0) as [Hneg|_]; [lia|].
    destruct (nth_error array (Z.to_nat k)) as [x|] eqn:E.
    + exists x. split; [reflexivity|]. eapply nth_error_In. exact E.
    + apply nth_error_None in E. lia.
  - unfold Utils.randomPick.
    destruct (Qfloor _ <? 0)%Z; [reflexivity|].
    destruct (Z.to_nat _); reflexivity.
Qed.

Lemma randomPick_member_witness :
  exists x,
    Utils.randomPick (1 # 2) ["a"; "b"; "c"]%string = Some x
    /\ In x ["a"; "b"; "c"]%string.
Proof.
  apply (proj1 (randomPick_member (1 # 2) ["a"; "b"; "c"]%string
                  ltac:(unfold Qle; simpl; lia) ltac:(unfold Qlt; simpl; lia))).
  discriminate.
Defined.

End UtilsFacts.

(** ** Grid colours *)

Lemma slices_colors (rnd : Grid.RandomStream) :
  List.map Grid.color (Grid.allCubes (Grid.slices rnd))
  = List.map (fun '(x, y, z) => Grid.pickColor (rnd (Render.drawIndex x y z)))
      Scene.mountOrder.
Proof. reflexivity. Qed.

Lemma pickColor_out_of_range (r : Q) :
  (r < 0 \/ 1 <= r)%Q -> Grid.pickColor r = None.
Proof.
  intros H. unfold Grid.pickColor, Grid.colorIndex.
  change (inject_Z (Z.of_nat (List.length ThemeQ.cubeColors))) with 6%Q.
  set (q := (r * 6)%Q).
  destruct (Z.ltb_spec (Qfloor q) 0) as [_|Hk]; [reflexivity|].
  destruct H as [H|H].
  - exfalso. assert (Hq : (q < 0)%Q) by (unfold q; Lqa.lra).
    assert (Hf : (inject_Z (Qfloor q) <= q)%Q) by apply Qfloor_le.
    assert (Hz : (inject_Z (Qfloor q) < inject_Z 0)%Q)
      by (change (inject_Z 0) with 0%Q; Lqa.lra).
    rewrite <- Zlt_Qlt in Hz. lia.
  - assert (Hq : (6 <= q)%Q) by (unfold q; Lqa.lra).
    assert (Hf : (Qfloor 6 <= Qfloor q)%Z) by (apply Qfloor_resp_le; exact Hq).
    change (Qfloor 6) with 6%Z in Hf.
    apply nth_error_None.
    change (List.length ThemeQ.cubeColors) with 6%nat. lia.
Qed.

(** X6: the grid builder makes one draw per piece, the piece at (x, y, z)
    taking draw number 9(x+1) + 3(y+1) + (z+1).  When every draw lies in
    [0, 1), every piece gets a colour of the palette; a draw outside
    [0, 1) would leave the colour undefined. *)
Theorem grid_colors_in_palette (rnd : Grid.RandomStream) :
  (forall k, (0 <= rnd k)%Q /\ (rnd k < 1)%Q) ->
  List.map Grid.color (Grid.allCubes (Grid.slices rnd))
  = List.map (fun '(x, y, z) => Grid.pickColor (rnd (Render.drawIndex x y z)))
      Scene.mountOrder
  /\ Forall (fun c => exists col,
               Grid.color c = Some col /\ In col ThemeQ.cubeColors)
            (Grid.allCubes (Grid.slices rnd))
  /\ (forall r, (r < 0 \/ 1 <= r)%Q -> Grid.pickColor r = None).
Proof.
  intros Hrnd. split; [apply slices_colors|].
  split; [|apply pickColor_out_of_range].
  rewrite List.Forall_forall. intros c Hin.
  pose proof (in_map Grid.color _ _ Hin) as Hc.
  rewrite slices_colors in Hc. apply in_map_iff in Hc.
  destruct Hc as ([[x y] z] & Heq & _).
  destruct (Hrnd (Render.drawIndex x y z)) as [H0 H1].
  destruct (pickColor_in_palette _ H0 H1) as (col & Hcol & Hpal).
  exists col. split; [rewrite <- Heq; exact Hcol|exact Hpal].
Qed.

Lemma grid_colors_in_palette_witness :
  Forall (fun c => exists col,
            Grid.color c = Some col /\ In col ThemeQ.cubeColors)
         (Grid.allCubes (Grid.slices (fun _ => (1 # 2)%Q))).
Proof.
  apply (grid_colors_in_palette (fun _ => (1 # 2)%Q)).
  intros k. split; [unfold Qle|unfold Qlt]; simpl; lia.
Defined.

(** ** Pointer handlers *)

Section RenderFacts.

Import THREE Physics.

Lemma mounted_at_pointerIndex (g : Grid.CubeGridState) (l : Grid.Layer)
    (i : nat) (c : Grid.CubeData) :
  Render.sliceOf g l !! i = Some c ->
  Scene.mountCubes g !! Render.pointerIndex g l i = Some (Scene.mountCube c).
Proof.
  intros H. unfold Scene.mountCubes, Grid.allCubes.
  rewrite list_lookup_fmap.
  destruct l; cbn [Render.sliceOf Render.pointerIndex] in *;
    unfold Render.topCount, Render.midCount.
  - rewrite lookup_app_l by (eapply lookup_lt_Some; eauto).
    rewrite H. reflexivity.
  - rewrite lookup_app_r by lia.
    replace (List.length (Grid.g_top g) + i - List.length (Grid.g_top g))%nat
      with i by lia.
    rewrite lookup_app_l by (eapply lookup_lt_Some; eauto).
    rewrite H. reflexivity.
  - rewrite lookup_app_r by lia. rewrite lookup_app_r by lia.
    replace (List.length (Grid.g_top g) + List.length (Grid.g_mid g) + i
             - List.length (Grid.g_top g) - List.length (Grid.g_mid g))%nat
      with i by lia.
    rewrite H. reflexivity.
Qed.

End RenderFacts.

(** ** The [Cube] component *)

Section CubeFacts.

Import THREE.
Local Open Scope R_scope.

(** Easing toward [v] by [alpha] scales the remaining distance by
    [|1 - alpha|]. *)
Lemma lerp_gap (a v : Vector3) (alpha : R) :
  distanceTo (lerp a v alpha) v = Rabs (1 - alpha) * distanceTo a v.
Proof.
  unfold distanceTo, distanceToSquared, lerp. cbn [x y z].
  replace ((x a + (x v - x a) * alpha - x v)
           * (x a + (x v - x a) * alpha - x v)
           + (y a + (y v - y a) * alpha - y v)
             * (y a + (y v - y a) * alpha - y v)
           + (z a + (z v - z a) * alpha - z v)
             * (z a + (z v - z a) * alpha - z v))
    with (Rsqr (1 - alpha)
          * ((x a - x v) * (x a - x v) + (y a - y v) * (y a - y v)
             + (z a - z v) * (z a - z v)))
    by (unfold Rsqr; ring).
  rewrite sqrt_mult; [|apply Rle_0_sqr|apply sum_squares_nonneg].
  rewrite sqrt_Rsqr_abs. reflexivity.
Qed.

Lemma distanceTo_nonneg (a b : Vector3) : 0 <= distanceTo a b.
Proof. apply sqrt_pos. Qed.

Lemma distanceTo_zero (a b : Vector3) : distanceTo a b = 0 -> a = b.
Proof.
  intros H. apply sqrt_eq_0 in H; [|apply distanceToSquared_nonneg].
  unfold distanceToSquared in H. destruct a as [ax ay az], b as [bx b_y bz].
  cbn [x y z] in H.
  assert (Hx : ax - bx = 0 /\ ay - b_y = 0 /\ az - bz = 0).
  { revert H. generalize (ax - bx) (ay - b_y) (az - bz). intros dx dy dz H.
    pose proof (Rle_0_sqr dx). pose proof (Rle_0_sqr dy).
    pose proof (Rle_0_sqr dz). unfold Rsqr in *.
    repeat split; apply Rsqr_0_uniq; unfold Rsqr; lra. }
  destruct Hx as (Hx & Hy & Hz). f_equal; lra.
Qed.

(** X8: the icon of a face is never drawn in the colour of the face: a
    face of the dark neutral colour gets a white icon, any other face a
    dark one.  A cube without an icon type (or with an empty one) gets no
    texture; otherwise, when a 2D context exists, the texture is drawn
    with that icon colour as stroke and fill style. *)
Theorem icon_color_contrasts_with_face (dom : Canvas.Dom) (color : string)
    (t : Icons.IconType) :
  Render.iconColor color <> color
  /\ Render.textureUrl dom None color = None
  /\ Render.textureUrl dom (Some "") color = None
  /\ (t <> "" -> Canvas.context2d dom = true ->
      exists o rest,
        Render.textureUrl dom (Some t) color = Some (Canvas.Normal o)
        /\ Canvas.drawn o
           = [Canvas.ClearRect 0 0 Canvas.size Canvas.size;
              Canvas.StrokeStyle (Render.iconColor color);
              Canvas.FillStyle (Render.iconColor color)] ++ rest).
Proof.
  split; [|split; [reflexivity|split; [reflexivity|]]].
  - unfold Render.iconColor.
    destruct (String.eqb_spec color Render.neutral1) as [->|Hne].
    + discriminate.
    + intros E. apply Hne. symmetry. exact E.
  - intros Ht Hctx. unfold Render.textureUrl.
    destruct (String.eqb_spec t "") as [E|_]; [contradiction|].
    unfold Canvas.createIconTexture. rewrite Hctx.
    eexists. eexists. split; [reflexivity|]. reflexivity.
Qed.

Lemma icon_color_contrasts_with_face_witness :
  exists o rest,
    Render.textureUrl
      {| Canvas.context2d := true; Canvas.toDataURL := fun _ => "data:," |}
      (Some "brain") "#1a1a24" = Some (Canvas.Normal o)
    /\ Canvas.drawn o
       = [Canvas.ClearRect 0 0 Canvas.size Canvas.size;
          Canvas.StrokeStyle "#ffffff"; Canvas.FillStyle "#ffffff"] ++ rest.
Proof.
  apply (proj2 (proj2 (proj2 (icon_color_contrasts_with_face
           {| Canvas.context2d := true; Canvas.toDataURL := fun _ => "data:," |}
           "#1a1a24" "brain")))).
  - discriminate.
  - reflexivity.
Defined.

(** X9: one frame of the hover animation multiplies the distance between
    the scale of the cube and its target (the base scale, 5% larger while
    hovered) by [|1 - 10 delta|].  So a frame time of 0.1 s lands on the
    target exactly, a frame time below 0.2 s never moves away from it,
    and a frame longer than 0.2 s ends farther from the target than it
    started. *)
Theorem hover_scale_gap (hovered : bool) (s delta : R) (m : Group) :
  let target := Render.hoverTarget hovered s in
  let m' := Render.hoverFrame hovered s delta m in
  distanceTo (scale m') target
  = Rabs (1 - delta * 10) * distanceTo (scale m) target
  /\ position m' = position m
  /\ (delta = 0.1 -> scale m' = target)
  /\ (0 <= delta <= 0.2 ->
      distanceTo (scale m') target <= distanceTo (scale m) target)
  /\ (0.2 < delta -> scale m <> target ->
      distanceTo (scale m) target < distanceTo (scale m') target).
Proof.
  intros target m'.
  assert (Hgap : distanceTo (scale m') target
                 = Rabs (1 - delta * 10) * distanceTo (scale m) target)
    by apply lerp_gap.
  pose proof (distanceTo_nonneg (scale m) target) as Hd.
  split; [exact Hgap|]. split; [reflexivity|]. split; [|split].
  - intros ->. apply distanceTo_zero. rewrite Hgap.
    replace (1 - 0.1 * 10) with 0 by lra. rewrite Rabs_R0. ring.
  - intros [H0 H1]. rewrite Hgap.
    assert (Ha : Rabs (1 - delta * 10) <= 1)
      by (apply Rabs_le; split; lra).
    revert Hd Ha. generalize (distanceTo (scale m) target).
    generalize (Rabs (1 - delta * 10)). intros k d Hd Ha. nra.
  - intros H Hne. rewrite Hgap.
    assert (Ha : 1 < Rabs (1 - delta * 10))
      by (rewrite Rabs_left by lra; lra).
    assert (Hpos : 0 < distanceTo (scale m) target).
    { destruct Hd as [Hd|Hd]; [exact Hd|].
      exfalso. apply Hne. apply distanceTo_zero. symmetry. exact Hd. }
    revert Hpos Ha. generalize (distanceTo (scale m) target).
    generalize (Rabs (1 - delta * 10)). intros k d Hpos Ha. nra.
Qed.

Lemma hover_scale_gap_witness :
  scale (Render.hoverFrame true 1 0.1 Sample.midRight)
  = Render.hoverTarget true 1.
Proof.
  apply (proj1 (proj2 (proj2 (hover_scale_gap true 1 0.1 Sample.midRight)))).
  reflexivity.
Defined.

End CubeFacts.

(** ** Physics frame: totality and shape *)

Section ShapeFacts.

Import THREE Physics Frames.
Local Open Scope R_scope.

Variable fr : Frame.

Lemma sameShape_refl (w : World) : sameShape w w.
Proof. repeat split. Qed.

Lemma sameShape_trans (a b c : World) :
  sameShape a b -> sameShape b c -> sameShape a c.
Proof.
  intros (H1 & H2 & H3 & H4) (K1 & K2 & K3 & K4).
  repeat split; congruence.
Qed.

Lemma forEachFrom_sameShape (f : nat -> World -> option World) :
  (forall j w w', f j w = Some w' -> sameShape w w') ->
  forall n k w w', forEachFrom n k f w = Some w' -> sameShape w w'.
Proof.
  intros Hf n. induction n as [|n IH]; intros k w w' H; simpl in H.
  - injection H as <-. apply sameShape_refl.
  - destruct (f k w) as [w1|] eqn:E; [|discriminate].
    eapply sameShape_trans; [apply (Hf _ _ _ E)|apply (IH _ _ _ H)].
Qed.

Lemma pushOther_sameShape (i : nat) (p : Vector3) (j : nat) (w w' : World) :
  pushOther fr i p j w = Some w' -> sameShape w w'.
Proof.
  unfold pushOther. destruct (Nat.eqb i j).
  { intros [= <-]. apply sameShape_refl. }
  destruct (cubesRefs w !! j) as [m|].
  2:{ intros [= <-]. apply sameShape_refl. }
  destruct (Rlt_dec _ _).
  2:{ intros [= <-]. apply sameShape_refl. }
  destruct (velocities (physics w) !! j) as [vj|]; [|discriminate].
  intros [= <-]. unfold sameShape. cbn. rewrite length_insert.
  repeat split.
Qed.

Lemma stepPiece_sameShape (k : nat) (w w' : World) :
  stepPiece fr k w = Some w' -> sameShape w w'.
Proof.
  unfold stepPiece.
  destruct (cubesRefs w !! k) as [mesh|].
  2:{ intros [= <-]. apply sameShape_refl. }
  destruct (velocities (physics w) !! k) as [v|]; [|discriminate].
  assert (Hfree : freeStep fr k mesh v w = Some w' -> sameShape w w').
  { destruct (impulses_total fr w k mesh v) as [[u n] Hi].
    rewrite (freeStep_spec fr w k mesh v u n Hi). intros [= <-].
    unfold sameShape. cbn. rewrite !length_insert. repeat split. }
  destruct (dragRef w) as [d|]; [|exact Hfree].
  destruct (Nat.eqb d k); [|exact Hfree].
  unfold dragStep. intros H.
  apply (forEachFrom_sameShape _ (pushOther_sameShape k _)) in H.
  destruct H as (H1 & H2 & H3 & H4).
  cbn [cubesRefs physics velocities dragRef active setCubes setVelocities]
    in H1, H2, H3, H4.
  rewrite length_insert in H1. rewrite length_insert in H2.
  repeat split; assumption.
Qed.

Lemma stepPiece_total (k : nat) (w : World) :
  roomy w -> is_Some (stepPiece fr k w).
Proof.
  intros Hr. unfold stepPiece.
  destruct (cubesRefs w !! k) as [mesh|] eqn:Hm; [|eauto].
  destruct (velocities (physics w) !! k) as [v|] eqn:Hv.
  2:{ apply lookup_lt_Some in Hm. apply lookup_ge_None in Hv.
      unfold roomy in Hr. lia. }
  assert (Hfree : is_Some (freeStep fr k mesh v w)).
  { destruct (impulses_total fr w k mesh v) as [[u n] Hi].
    rewrite (freeStep_spec fr w k mesh v u n Hi). eauto. }
  destruct (dragRef w) as [d|]; [|exact Hfree].
  destruct (Nat.eqb d k); [|exact Hfree].
  destruct (dragStep_spec fr w k mesh v Hm Hv Hr) as (w' & -> & _). eauto.
Qed.

Lemma roomy_sameShape (w w' : World) : sameShape w w' -> roomy w -> roomy w'.
Proof. intros (H1 & H2 & _) Hr. unfold roomy in *. lia. Qed.

Lemma steps_total (n : nat) :
  forall k w, roomy w -> is_Some (forEachFrom n k (stepPiece fr) w).
Proof.
  induction n as [|n IH]; intros k w Hr; simpl; [eauto|].
  destruct (stepPiece_total k w Hr) as [w1 E]. rewrite E.
  apply IH. eapply roomy_sameShape; [|exact Hr].
  eapply stepPiece_sameShape. exact E.
Qed.

(** A piece without a velocity slot makes the loop raise when its turn
    comes, unless an earlier iteration has raised already. *)
Lemma steps_raise (i : nat) (n : nat) :
  forall k w,
    (k <= i < k + n)%nat ->
    (i < List.length (cubesRefs w))%nat ->
    (List.length (velocities (physics w)) <= i)%nat ->
    forEachFrom n k (stepPiece fr) w = None.
Proof.
  induction n as [|n IH]; intros k w Hk Hc Hv; [lia|]. simpl.
  destruct (stepPiece fr k w) as [w1|] eqn:E; [|reflexivity].
  destruct (Nat.eq_dec k i) as [->|Hne].
  - exfalso. unfold stepPiece in E.
    destruct (lookup_lt_is_Some_2 _ _ Hc) as [mesh Hm]. rewrite Hm in E.
    rewrite (proj2 (lookup_ge_None _ _) Hv) in E. discriminate.
  - destruct (stepPiece_sameShape k w w1 E) as (H1 & H2 & _).
    apply IH; lia.
Qed.

End ShapeFacts.

(** X10: an active frame returns normally whenever every mounted piece
    has a velocity slot, also while a piece is dragged, and it keeps the
    number of pieces, the number of velocity slots, the dragged piece and
    the [active] flag.  A mounted piece without a velocity slot makes the
    frame raise; an inactive frame changes nothing and never raises. *)
Theorem frame_total_when_roomy (fr : Physics.Frame) (w : Physics.World) :
  (Physics.roomy w ->
   exists w', Physics.useFrame fr w = Some w' /\ Frames.sameShape w w')
  /\ (Physics.active (Physics.physics w) = true ->
      ~ Physics.roomy w -> Physics.useFrame fr w = None)
  /\ (Physics.active (Physics.physics w) = false ->
      Physics.useFrame fr w = Some w).
Proof.
  split; [|split].
  - intros Hr. unfold Physics.useFrame.
    destruct (Physics.active (Physics.physics w)).
    + destruct (steps_total fr (List.length (Physics.cubesRefs w)) 0 w Hr)
        as [w' E].
      exists w'. split; [exact E|].
      eapply forEachFrom_sameShape; [|exact E].
      intros j a b. apply stepPiece_sameShape.
    + exists w. split; [reflexivity|apply sameShape_refl].
  - intros Ha Hnr. unfold Physics.useFrame. rewrite Ha.
    unfold Physics.roomy in Hnr.
    apply (steps_raise fr
             (List.length (Physics.velocities (Physics.physics w)))); lia.
  - intros Ha. unfold Physics.useFrame. rewrite Ha. reflexivity.
Qed.

Lemma frame_total_when_roomy_witness :
  (exists w',
     Physics.useFrame Sample.frame Sample.dragging = Some w'
     /\ Frames.sameShape Sample.dragging w')
  /\ Physics.useFrame Sample.frame
       {| Physics.physics :=
            {| Physics.active := true; Physics.velocities := [];
               Physics.offsets := [] |};
          Physics.cubesRefs := Sample.cubes;
          Physics.dragRef := None;
          Physics.draws := 0 |} = None.
Proof.
  split.
  - apply (proj1 (frame_total_when_roomy Sample.frame Sample.dragging)).
    exact sample_roomy.
  - apply (proj1 (proj2 (frame_total_when_roomy Sample.frame _)));
      [reflexivity|].
    unfold Physics.roomy.
    change (List.length (Physics.cubesRefs _)) with 27%nat.
    cbn [Physics.physics Physics.velocities List.length]. lia.
Defined.

(** ** Physics frame: what a free step does to one piece *)

Section FreeStepFacts.

Import THREE Physics.
Local Open Scope R_scope.

Variable fr : Frame.

Lemma length_le_of_sq (a b : Vector3) :
  lengthSq a <= lengthSq b -> length a <= length b.
Proof.
  intros H. unfold length.
  apply sqrt_le_1; [apply lengthSq_nonneg|apply lengthSq_nonneg|exact H].
Qed.

Lemma wallCollision_speed (safe px vx : R) :
  snd (wallCollision safe px vx) * snd (wallCollision safe px vx) <= vx * vx.
Proof.
  unfold wallCollision.
  destruct (Rgt_dec px safe); [cbn [snd]; nra|].
  destruct (Rlt_dec px (- safe)); cbn [snd]; nra.
Qed.

Lemma wallCollision_inside (safe px vx : R) :
  - safe <= px <= safe -> wallCollision safe px vx = (px, vx).
Proof.
  intros [H1 H2]. unfold wallCollision.
  destruct (Rgt_dec px safe); [lra|].
  destruct (Rlt_dec px (- safe)); [lra|reflexivity].
Qed.

Lemma integrate_spec (i : nat) (p u : Vector3) :
  integrate fr i p u
  = (vec3 (fst (wallCollision (safeBoundary fr) (x p) (x u))
           + snd (wallCollision (safeBoundary fr) (x p) (x u)) * delta fr)
          (y p + sin (elapsedTime fr * 3 + INR i) * 0.003)
          (z p + z u * delta fr),
     multiplyScalar
       (vec3 (snd (wallCollision (safeBoundary fr) (x p) (x u))) (y u) (z u))
       CUBE_THEME.drag).
Proof.
  unfold integrate.
  destruct (wallCollision (safeBoundary fr) (x p) (x u)) as [px vx].
  reflexivity.
Qed.

Lemma integrate_damps (i : nat) (p u : Vector3) :
  length (snd (integrate fr i p u)) <= CUBE_THEME.drag * length u.
Proof.
  rewrite integrate_spec. cbn [snd].
  rewrite length_scale by (unfold CUBE_THEME.drag; lra).
  rewrite Rmult_comm. apply Rmult_le_compat_l.
  - unfold CUBE_THEME.drag. lra.
  - apply length_le_of_sq. unfold lengthSq. cbn [x y z].
    pose proof (wallCollision_speed (safeBoundary fr) (x p) (x u)). lra.
Qed.

(** The iteration of a piece that is not the dragged one, spelled out. *)
Lemma free_iteration (w : World) (i : nat) (mesh : Group) (v : Vector3) :
  cubesRefs w !! i = Some mesh ->
  velocities (physics w) !! i = Some v ->
  dragRef w <> Some i ->
  exists u n w',
    impulses fr w i mesh v = Some (u, n)
    /\ stepPiece fr i w = Some w'
    /\ cubesRefs w' !! i
       = Some (setPosition mesh (fst (integrate fr i (position mesh) u)))
    /\ velocities (physics w') !! i
       = Some (snd (integrate fr i (position mesh) u))
    /\ (forall j, j <> i ->
          cubesRefs w' !! j = cubesRefs w !! j
          /\ velocities (physics w') !! j = velocities (physics w) !! j).
Proof.
  intros Hm Hv Hd.
  destruct (impulses_total fr w i mesh v) as [[u n] Hi].
  exists u, n. eexists. split; [exact Hi|].
  rewrite (stepPiece_free fr w i mesh v Hm Hv Hd).
  rewrite (freeStep_spec fr w i mesh v u n Hi).
  split; [reflexivity|]. cbn.
  split; [apply list_lookup_insert_eq; eapply lookup_lt_Some; eauto|].
  split; [apply list_lookup_insert_eq; eapply lookup_lt_Some; eauto|].
  intros j Hj. split; apply list_lookup_insert_ne; congruence.
Qed.

End FreeStepFacts.

(** X11: the iteration of a free piece never leaves it faster than 0.96
    times the speed it has after the frame's impulses; with no wall hit
    the stored velocity is exactly 0.96 times that velocity.  The
    iteration changes the mesh and the velocity of no other piece. *)
Theorem free_step_damps (fr : Physics.Frame) (w : Physics.World) (i : nat)
    (mesh : THREE.Group) (v : THREE.Vector3) :
  Physics.cubesRefs w !! i = Some mesh ->
  Physics.velocities (Physics.physics w) !! i = Some v ->
  Physics.dragRef w <> Some i ->
  exists u n w' v',
    Physics.impulses fr w i mesh v = Some (u, n)
    /\ Physics.stepPiece fr i w = Some w'
    /\ Physics.velocities (Physics.physics w') !! i = Some v'
    /\ (THREE.length v' <= 0.96 * THREE.length u)%R
    /\ ((- Physics.safeBoundary fr <= THREE.x (THREE.position mesh)
         <= Physics.safeBoundary fr)%R ->
        v' = THREE.multiplyScalar u 0.96%R)
    /\ (forall j, j <> i ->
          Physics.cubesRefs w' !! j = Physics.cubesRefs w !! j
          /\ Physics.velocities (Physics.physics w') !! j
             = Physics.velocities (Physics.physics w) !! j).
Proof.
  intros Hm Hv Hd.
  destruct (free_iteration fr w i mesh v Hm Hv Hd)
    as (u & n & w' & Hi & Hstep & _ & Hvel & Hother).
  exists u, n, w'. eexists.
  split; [exact Hi|]. split; [exact Hstep|]. split; [exact Hvel|].
  split; [apply integrate_damps|]. split; [|exact Hother].
  intros Hin. rewrite integrate_spec. cbn [snd].
  rewrite (wallCollision_inside _ _ _ Hin). cbn [snd].
  rewrite vec3_eta. reflexivity.
Qed.

Lemma free_step_damps_witness :
  exists u n w' v',
    Physics.impulses Sample.frame Sample.world 0
      {| THREE.position := THREE.vec3 4 (-5) (3 * INR 0);
         THREE.rotation := THREE.vec3 0 0 0;
         THREE.scale := THREE.vec3 1 1 1;
         THREE.userDataId := Grid.cubeId (-1) 1 (-1) |}
      (THREE.vec3 1 0 0) = Some (u, n)
    /\ Physics.stepPiece Sample.frame 0 Sample.world = Some w'
    /\ Physics.velocities (Physics.physics w') !! 0%nat = Some v'
    /\ (THREE.length v' <= 0.96 * THREE.length u)%R.
Proof.
  destruct (free_step_damps Sample.frame Sample.world 0 _ (THREE.vec3 1 0 0)
              sample_first eq_refl ltac:(discriminate))
    as (u & n & w' & v' & Hi & Hs & Hv & Hl & _).
  exists u, n, w', v'. repeat split; assumption.
Defined.

(** X12: the iteration of a free piece moves it by velocity times delta
    along z, and along x from where the wall check left it; the height
    never follows the velocity: it changes by the idle bob only, at most
    0.003 per frame.  Rotation, scale and id stay as they are. *)
Theorem free_step_moves_in_plane (fr : Physics.Frame) (w : Physics.World)
    (i : nat) (mesh : THREE.Group) (v : THREE.Vector3) :
  Physics.cubesRefs w !! i = Some mesh ->
  Physics.velocities (Physics.physics w) !! i = Some v ->
  Physics.dragRef w <> Some i ->
  exists u n w' mesh',
    Physics.impulses fr w i mesh v = Some (u, n)
    /\ Physics.stepPiece fr i w = Some w'
    /\ Physics.cubesRefs w' !! i = Some mesh'
    /\ (THREE.z (THREE.position mesh')
        = THREE.z (THREE.position mesh) + THREE.z u * Physics.delta fr)%R
    /\ (Rabs (THREE.y (THREE.position mesh') - THREE.y (THREE.position mesh))
        <= 0.003)%R
    /\ ((- Physics.safeBoundary fr <= THREE.x (THREE.position mesh)
         <= Physics.safeBoundary fr)%R ->
        (THREE.x (THREE.position mesh')
         = THREE.x (THREE.position mesh) + THREE.x u * Physics.delta fr)%R)
    /\ THREE.rotation mesh' = THREE.rotation mesh
    /\ THREE.scale mesh' = THREE.scale mesh
    /\ THREE.userDataId mesh' = THREE.userDataId mesh.
Proof.
  intros Hm Hv Hd.
  destruct (free_iteration fr w i mesh v Hm Hv Hd)
    as (u & n & w' & Hi & Hstep & Hmesh & _ & _).
  exists u, n, w'. eexists.
  split; [exact Hi|]. split; [exact Hstep|]. split; [exact Hmesh|].
  rewrite integrate_spec. cbn [fst THREE.setPosition THREE.position
    THREE.rotation THREE.scale THREE.userDataId THREE.x THREE.y THREE.z].
  split; [reflexivity|]. split.
  - pose proof (SIN_bound (Physics.elapsedTime fr * 3 + INR i)) as [Hl Hu].
    revert Hl Hu.
    generalize (sin (Physics.elapsedTime fr * 3 + INR i)). intros s Hl Hu.
    apply Rabs_le. split; lra.
  - split; [|repeat split].
    intros Hin. rewrite (wallCollision_inside _ _ _ Hin). reflexivity.
Qed.

Lemma free_step_moves_in_plane_witness :
  exists u n w' mesh',
    Physics.impulses Sample.frame Sample.world 0
      {| THREE.position := THREE.vec3 4 (-5) (3 * INR 0);
         THREE.rotation := THREE.vec3 0 0 0;
         THREE.scale := THREE.vec3 1 1 1;
         THREE.userDataId := Grid.cubeId (-1) 1 (-1) |}
      (THREE.vec3 1 0 0) = Some (u, n)
    /\ Physics.stepPiece Sample.frame 0 Sample.world = Some w'
    /\ Physics.cubesRefs w' !! 0%nat = Some mesh'
    /\ (Rabs (THREE.y (THREE.position mesh') - -5) <= 0.003)%R.
Proof.
  destruct (free_step_moves_in_plane Sample.frame Sample.world 0 _
              (THREE.vec3 1 0 0) sample_first eq_refl ltac:(discriminate))
    as (u & n & w' & mesh' & Hi & Hs & Hm & _ & Hy & _).
  exists u, n, w', mesh'. repeat split; assumption.
Defined.

(** ** Physics frame: impulses *)

Section ImpulseFacts.

Import THREE Physics.
Local Open Scope R_scope.

Variable fr : Frame.

Lemma distanceTo_sym (a b : Vector3) : distanceTo a b = distanceTo b a.
Proof.
  unfold distanceTo, distanceToSquared. cbn zeta. f_equal. ring.
Qed.

Lemma distanceTo_sub (a b : Vector3) : length (sub a b) = distanceTo a b.
Proof. reflexivity. Qed.

Lemma normalize_length_le (a : Vector3) : length (normalize a) <= 1.
Proof.
  destruct (Req_dec_T (length a) 0) as [E|E].
  - rewrite (normalize_zero _ E).
    replace (length zero) with 0; [lra|].
    symmetry. apply length_zero_iff. reflexivity.
  - rewrite (normalize_unit _ E). lra.
Qed.

Lemma normalize_flip (a b : Vector3) :
  normalize (sub b a) = multiplyScalar (normalize (sub a b)) (-1).
Proof.
  unfold normalize. rewrite !distanceTo_sub, (distanceTo_sym b a).
  destruct (Req_dec_T (distanceTo a b) 0);
    unfold divideScalar, multiplyScalar, sub; cbn [x y z]; f_equal; ring.
Qed.

(** The collision impulse on a piece at [a] from a piece at [b], at
    distance [dist], when the jitter draws are [r1] and [r2]. *)
Lemma collide_near (cubes : list Group) (i j : nat) (mj : Group)
    (a v : Vector3) (n : nat) :
  i <> j -> cubes !! j = Some mj ->
  distanceTo a (getWorldPosition fr j (position mj))
  < CUBE_THEME.collisionMinDist ->
  collide fr cubes i a j (v, n)
  = Some (add v
            (multiplyScalar
               (vec3 (x (normalize (sub a (getWorldPosition fr j (position mj))))
                      + (random fr n - 0.5) * 0.1)
                     (y (normalize (sub a (getWorldPosition fr j (position mj)))))
                     (z (normalize (sub a (getWorldPosition fr j (position mj))))
                      + (random fr (S n) - 0.5) * 0.1))
               ((CUBE_THEME.collisionMinDist
                 - distanceTo a (getWorldPosition fr j (position mj)))
                * CUBE_THEME.collisionForce * delta fr)),
          S (S n)).
Proof.
  intros Hij Hj Hd. unfold collide.
  destruct (Nat.eqb_spec i j) as [E|_]; [contradiction|].
  rewrite Hj. destruct (Rlt_dec _ _); [reflexivity|contradiction].
Qed.

Lemma mouseRepulsion_y (drag : option nat) (c v : Vector3) :
  y (mouseRepulsion fr drag c v) = y v.
Proof.
  unfold mouseRepulsion. destruct drag; [reflexivity|].
  destruct (Rlt_dec _ _); [|reflexivity].
  unfold normalize, divideScalar. unfold add, multiplyScalar, sub, floorOf.
  cbn [x y z].
  match goal with |- context [1 / ?k] => generalize (1 / k) end.
  intros k. ring.
Qed.

Lemma mouseRepulsion_bounded (drag : option nat) (c v : Vector3) :
  0 <= delta fr ->
  length (sub (mouseRepulsion fr drag c v) v)
  <= CUBE_THEME.repulsionForce * delta fr.
Proof.
  intros Hdelta.
  assert (Hzero : length (sub v v) <= CUBE_THEME.repulsionForce * delta fr).
  { replace (length (sub v v)) with 0.
    - unfold CUBE_THEME.repulsionForce. nra.
    - symmetry. apply length_zero_iff. unfold sub, zero. f_equal; ring. }
  unfold mouseRepulsion. destruct drag; [exact Hzero|].
  destruct (Rlt_dec _ _) as [Hlt|_]; [|exact Hzero].
  set (d := distanceTo (floorOf c) (floorOf (mouseWorldPos fr))) in *.
  set (dir := normalize (sub (floorOf c) (floorOf (mouseWorldPos fr)))).
  set (k := (1 - d / CUBE_THEME.repulsionRadius) * CUBE_THEME.repulsionForce
            * delta fr).
  assert (Hd0 : 0 <= d) by apply sqrt_pos.
  assert (Hk : 0 <= k /\ k <= CUBE_THEME.repulsionForce * delta fr).
  { unfold k, CUBE_THEME.repulsionRadius, CUBE_THEME.repulsionForce in *.
    assert (Hf : 0 <= 1 - d / 4.0 <= 1) by lra.
    revert Hf. generalize (1 - d / 4.0). intros f Hf. split; nra. }
  replace (sub (add v (multiplyScalar dir k)) v) with (multiplyScalar dir k).
  - rewrite length_scale by apply Hk.
    pose proof (normalize_length_le
                  (sub (floorOf c) (floorOf (mouseWorldPos fr)))) as Hn.
    fold dir in Hn. pose proof (length_nonneg dir) as Hp.
    destruct Hk as [Hk0 Hk1].
    revert Hn Hp. generalize (length dir). intros l Hn Hp. nra.
  - unfold sub, add, multiplyScalar. cbn [x y z]. f_equal; ring.
Qed.

End ImpulseFacts.

(** X14: mouse repulsion never changes the vertical velocity of a piece,
    and what it adds to the velocity in one frame is at most
    repulsionForce * delta long (nothing at all while a piece is
    dragged). *)
Theorem mouse_repulsion_is_horizontal_and_bounded (fr : Physics.Frame)
    (drag : option nat) (c v : THREE.Vector3) :
  (0 <= Physics.delta fr)%R ->
  THREE.y (Physics.mouseRepulsion fr drag c v) = THREE.y v
  /\ (THREE.length (THREE.sub (Physics.mouseRepulsion fr drag c v) v)
      <= CUBE_THEME.repulsionForce * Physics.delta fr)%R.
Proof.
  intros H. split; [apply mouseRepulsion_y|apply mouseRepulsion_bounded].
  exact H.
Qed.

Lemma mouse_repulsion_is_horizontal_and_bounded_witness :
  THREE.y (Physics.mouseRepulsion Sample.frame None (THREE.vec3 4 (-5) 0)
             (THREE.vec3 1 2 0)) = 2%R.
Proof.
  apply (proj1 (mouse_repulsion_is_horizontal_and_bounded Sample.frame None
                  (THREE.vec3 4 (-5) 0) (THREE.vec3 1 2 0)
                  ltac:(cbn [Sample.frame Physics.delta]; lra))).
Defined.



(** ** Drop targets *)

Section DropFacts.

Import THREE Scene Choreography.
Local Open Scope R_scope.



(** X17: the landing x of a piece against the walls of the physics step,
    for the same viewport width w.  When w >= 10 or w <= 5 every landing x
    is within the walls, so the first wall check leaves it alone.  When
    5 < w < 10 the drop range is wider than the walls: a draw of 0 lands
    the piece beyond the left wall, and the first wall check pulls it
    back onto the wall. *)
Theorem drop_range_against_walls (c : Setup) (g : Grid.CubeGridState)
    (n : nat) (mesh : Group) (fr : Physics.Frame) (vx : R) :
  Physics.viewportWidth fr = screenWidth c ->
  0 <= random c n < 1 ->
  let p := Drop.dropPosition c g n mesh in
  (10 <= screenWidth c \/ screenWidth c <= 5 ->
   Physics.wallCollision (Physics.safeBoundary fr) (x p) vx = (x p, vx))
  /\ (5 < screenWidth c < 10 -> random c n = 0 ->
      x p < - Physics.safeBoundary fr
      /\ Physics.wallCollision (Physics.safeBoundary fr) (x p) vx
         = (- Physics.safeBoundary fr, vx * -0.8)).
Proof.
  intros Hw [Hr0 Hr1] p.
  unfold p, Drop.dropPosition. cbn [x].
  unfold Physics.safeBoundary, Physics.worldWidth, Drop.dropRange.
  rewrite Hw. generalize (screenWidth c). intros w.
  generalize dependent (random c n). intros r Hr0 Hr1.
  split.
  - intros Hcase. apply wallCollision_inside.
    unfold Rmax.
    destruct (Rle_dec 2 (w * 0.8)); destruct (Rle_dec 2 (w / 2 - 1));
      split; nra.
  - intros Hmid ->.
    assert (Hlt : (0 - 0.5) * Rmax 2 (w * 0.8) < - Rmax 2 (w / 2 - 1)).
    { unfold Rmax.
      destruct (Rle_dec 2 (w * 0.8)); destruct (Rle_dec 2 (w / 2 - 1)); lra. }
    split; [exact Hlt|].
    assert (Hpos : 2 <= Rmax 2 (w / 2 - 1)) by apply Rmax_l.
    unfold Physics.wallCollision.
    destruct (Rgt_dec _ _) as [Hgt|_]; [lra|].
    destruct (Rlt_dec _ _) as [_|Hn]; [reflexivity|contradiction].
Qed.

Lemma drop_range_against_walls_witness :
  x (Drop.dropPosition
       {| isMobile := false; screenWidth := 8; random := fun _ => 0 |}
       Sample.grid 108 Sample.midRight)
  < - Physics.safeBoundary Sample.frame.
Proof.
  apply (proj2 (drop_range_against_walls
           {| isMobile := false; screenWidth := 8; random := fun _ => 0 |}
           Sample.grid 108 Sample.midRight Sample.frame 0 eq_refl
           ltac:(cbn [random]; lra))).
  - cbn [screenWidth]. lra.
  - reflexivity.
Defined.

End DropFacts.

(** ** Scroll timelines: end values and overshoot *)

Section PhaseFacts.

Import THREE Scene Gsap Choreography Segments.
Local Open Scope R_scope.

Lemma easeOut_range (n : nat) (p : R) :
  0 <= p <= 1 -> 0 <= easeOut n p <= 1.
Proof.
  intros [H0 H1]. unfold easeOut.
  assert (Hq : 0 <= (1 - p) ^ n <= 1).
  { split; [apply pow_le; lra|].
    apply Rle_trans with (1 ^ n); [apply pow_incr; lra|].
    rewrite pow1. lra. }
  lra.
Qed.

Lemma easeInOut_range (n : nat) (p : R) :
  0 <= p <= 1 -> 0 <= easeInOut n p <= 1.
Proof.
  intros [H0 H1]. unfold easeInOut.
  destruct (Rlt_dec p 0.5) as [Hlt|Hge].
  - assert (Hq : 0 <= (p * 2) ^ n <= 1).
    { split; [apply pow_le; lra|].
      apply Rle_trans with (1 ^ n); [apply pow_incr; lra|].
    rewrite pow1. lra. }
    lra.
  - apply Rnot_lt_le in Hge.
    assert (Hq : 0 <= ((1 - p) * 2) ^ n <= 1).
    { split; [apply pow_le; lra|].
      apply Rle_trans with (1 ^ n); [apply pow_incr; lra|].
    rewrite pow1. lra. }
    lra.
Qed.

Lemma easeFn_range (e : Ease) (p : R) : 0 <= p <= 1 -> 0 <= easeFn e p <= 1.
Proof.
  intros H. destruct e; cbn [easeFn];
    first [apply easeOut_range|apply easeInOut_range]; exact H.
Qed.

Lemma localProgress_range (tw : Tween) (time : R) :
  0 < duration tw -> 0 <= localProgress tw time <= 1.
Proof.
  intros Hd. unfold localProgress.
  destruct (Rle_dec time (startAt tw)); [lra|].
  destruct (Rle_dec (startAt tw + duration tw) time); [lra|].
  assert (Hn : 0 < time - startAt tw < duration tw) by lra.
  revert Hn. generalize (time - startAt tw). intros t Ht.
  split.
  - apply Rlt_le. apply Rdiv_lt_0_compat; lra.
  - apply Rlt_le. apply (Rmult_lt_reg_r (duration tw)); [exact Hd|].
    unfold Rdiv. rewrite Rmult_assoc, Rinv_l by lra. lra.
Qed.

Lemma between_ends (s e r : R) :
  0 <= r <= 1 -> Rmin s e <= s + (e - s) * r <= Rmax s e.
Proof.
  intros [H0 H1]. unfold Rmin, Rmax. destruct (Rle_dec s e); split; nra.
Qed.

Lemma interpolate_within (s e : Vector3) (r : R) :
  0 <= r <= 1 -> within s e (interpolate s e r).
Proof.
  intros H. unfold within, interpolate. cbn [x y z].
  repeat split; apply between_ends; exact H.
Qed.

Lemma tweenValue_within (tw : Tween) (start : Vector3) (time : R) :
  0 < duration tw -> within start (toVars tw) (tweenValue tw start time).
Proof.
  intros Hd. unfold tweenValue. apply interpolate_within.
  apply easeFn_range. apply localProgress_range. exact Hd.
Qed.

Variable c : Setup.
Variable g : Grid.CubeGridState.

Lemma explodeAll_durations (meshes : list Group) :
  forall i, Forall (fun tw => 0 < duration tw) (explodeAll c g i meshes).
Proof.
  induction meshes as [|m rest IH]; intros i; [constructor|].
  cbn [explodeAll explodeTweens List.app].
  constructor; [cbn [to duration]; unfold defaultDuration; lra|].
  constructor;
    [cbn [to duration]; unfold CUBE_THEME.explosionDuration; lra|].
  apply IH.
Qed.

Lemma tl1_durations : Forall (fun tw => 0 < duration tw) (tl1 c).
Proof.
  unfold tl1.
  repeat (constructor; [cbn [to duration]; unfold defaultDuration; lra|]).
  constructor.
Qed.

Lemma tl2_durations (s : Stage) :
  Forall (fun tw => 0 < duration tw) (tl2 c g s).
Proof.
  unfold tl2. apply Forall_app. split; [|apply explodeAll_durations].
  repeat (constructor; [cbn [to duration]; unfold defaultDuration; lra|]).
  constructor.
Qed.

(** What [scrub_pure] gives for tweens of positive duration: end values
    at progress 1, and values within the segment at any progress. *)
Lemma scrub_ends_and_stays (tl : Timeline) (s0 : Stage) (ps : list R)
    (p : R) :
  List.NoDup (List.map target tl) ->
  Forall (validTarget s0) (List.map target tl) ->
  Forall (fun tw => from tw = None /\ startAt tw = 0) tl ->
  Forall (fun tw => 0 < duration tw) tl ->
  Forall (fun tw =>
            getTarget (target tw) (snd (scrubAll (ps ++ [1]) (tl, s0)))
            = toVars tw
            /\ within (getTarget (target tw) s0) (toVars tw)
                 (getTarget (target tw) (snd (scrubAll (ps ++ [p]) (tl, s0)))))
         tl.
Proof.
  intros Hnd Hv Hf Hd.
  pose proof (scrub_pure tl s0 ps 1 Hnd Hv Hf) as H1.
  pose proof (scrub_pure tl s0 ps p Hnd Hv Hf) as Hp.
  rewrite List.Forall_forall in *. intros tw Hin.
  destruct (H1 tw Hin) as [E1 _]. destruct (Hp tw Hin) as [Ep _].
  specialize (Hd tw Hin). split.
  - rewrite E1. apply tweenValue_end; [exact Hd|].
    pose proof (totalDuration_ge tl tw Hin). lra.
  - rewrite Ep. apply tweenValue_within. exact Hd.
Qed.

End PhaseFacts.

(** X18: driven to progress 1 after any scroll history, the
    hero-to-details timeline leaves the main group at the details
    rotation, position and scale of the breakpoint, and the explosion
    timeline leaves every transform it writes at its end value: slice
    rotations at zero, the main group at the origin with the breakdown
    scale, every piece at its explosion target and random turn. *)
Theorem scrub_phases_reach_their_targets (c : Choreography.Setup)
    (g : Grid.CubeGridState) (s0 : Scene.Stage) (ps : list R) :
  let end1 := snd (Gsap.scrubAll (ps ++ [1%R]) (Choreography.tl1 c, s0)) in
  let end2 :=
    snd (Gsap.scrubAll (ps ++ [1%R]) (Choreography.tl2 c g s0, s0)) in
  (Gsap.getTarget Gsap.MainRotation end1 = THREE.vec3 0.2 (PI * 0.25) 0
   /\ Gsap.getTarget Gsap.MainPosition end1 = Choreography.centerPosDetails c
   /\ Gsap.getTarget Gsap.MainScale end1
      = THREE.vec3 (Choreography.detailScale c) (Choreography.detailScale c)
          (Choreography.detailScale c))
  /\ Forall (fun tw => Gsap.getTarget (Gsap.target tw) end2 = Gsap.toVars tw)
            (Choreography.tl2 c g s0)
  /\ (Gsap.getTarget (Gsap.SliceRotation Grid.top) end2 = THREE.vec3 0 0 0
      /\ Gsap.getTarget (Gsap.SliceRotation Grid.mid) end2 = THREE.vec3 0 0 0
      /\ Gsap.getTarget (Gsap.SliceRotation Grid.bot) end2 = THREE.vec3 0 0 0
      /\ Gsap.getTarget Gsap.MainPosition end2 = THREE.vec3 0 0 0).
Proof.
  intros end1 end2.
  pose proof (scrub_ends_and_stays (Choreography.tl1 c) s0 ps 1
                (tl1_NoDup c) (tl1_valid c s0) (tl1_fresh c)
                (tl1_durations c)) as H1.
  pose proof (scrub_ends_and_stays (Choreography.tl2 c g s0) s0 ps 1
                (tl2_NoDup c g s0) (tl2_valid c g s0) (tl2_fresh c g s0)
                (tl2_durations c g s0)) as H2.
  fold end1 in H1. fold end2 in H2.
  assert (H2' : Forall (fun tw => Gsap.getTarget (Gsap.target tw) end2
                                  = Gsap.toVars tw)
                       (Choreography.tl2 c g s0)).
  { eapply Forall_impl; [|exact H2]. intros tw [E _]. exact E. }
  split.
  - apply Forall_cons_iff in H1 as [[E1 _] H1].
    apply Forall_cons_iff in H1 as [[E2 _] H1].
    apply Forall_cons_iff in H1 as [[E3 _] _].
    split; [exact E1|]. split; [exact E2|exact E3].
  - split; [exact H2'|].
    unfold Choreography.tl2 in H2'. apply Forall_app in H2' as [Hfix _].
    apply Forall_cons_iff in Hfix as [E1 Hfix].
    apply Forall_cons_iff in Hfix as [E2 Hfix].
    apply Forall_cons_iff in Hfix as [E3 Hfix].
    apply Forall_cons_iff in Hfix as [E4 _].
    split; [exact E1|]. split; [exact E2|]. split; [exact E3|exact E4].
Qed.

(** ** Icon drawings *)

Section DrawingFacts.

Import Canvas Drawing.
Local Open Scope R_scope.

Ltac in_canvas :=
  repeat (apply Forall_cons;
          [cbn [inCanvas]; unfold inside, Canvas.size; repeat split; lra|]);
  apply Forall_nil.

Lemma drawCodeBrackets_inside :
  Forall inCanvas (drawCodeBrackets (size / 2) (size / 2)).
Proof. cbv [drawCodeBrackets]. in_canvas. Qed.

Lemma drawBrain_inside : Forall inCanvas (drawBrain (size / 2) (size / 2)).
Proof. cbv [drawBrain]. in_canvas. Qed.

Lemma drawDataFlow_inside :
  Forall inCanvas (drawDataFlow (size / 2) (size / 2)).
Proof. cbv [drawDataFlow]. in_canvas. Qed.

Lemma drawCube3D_inside : Forall inCanvas (drawCube3D (size / 2) (size / 2)).
Proof. cbv [drawCube3D List.app line fst snd]. in_canvas. Qed.

Lemma drawCircuit_inside :
  Forall inCanvas (drawCircuit (size / 2) (size / 2)).
Proof.
  cbv [drawCircuit flat_map List.app line dot Z.ltb Z.compare Pos.compare
       Pos.compare_cont].
  in_canvas.
Qed.

Lemma drawNeuralNetwork_inside (color : string) :
  Forall inCanvas (drawNeuralNetwork (size / 2) (size / 2) color).
Proof.
  cbv [drawNeuralNetwork flat_map List.map List.app seq combine List.tl line
       dot fst snd INR].
  in_canvas.
Qed.

Lemma drawIcon_inside (type : Icons.IconType) (color : string) :
  Forall inCanvas (drawIcon type (size / 2) (size / 2) color).
Proof.
  unfold drawIcon.
  destruct (String.eqb type "neural-network");
    [apply drawNeuralNetwork_inside|].
  destruct (String.eqb type "code-brackets"); [apply drawCodeBrackets_inside|].
  destruct (String.eqb type "brain"); [apply drawBrain_inside|].
  destruct (String.eqb type "data-flow"); [apply drawDataFlow_inside|].
  destruct (String.eqb type "circuit"); [apply drawCircuit_inside|].
  destruct (String.eqb type "cube-3d"); [apply drawCube3D_inside|].
  in_canvas.
Qed.

Lemma drawIcon_paints (type : Icons.IconType) (cx cy : R) (color : string) :
  paints false (drawIcon type cx cy color) = true
  /\ alphaAfter 1 (drawIcon type cx cy color) = 1.
Proof.
  unfold drawIcon.
  repeat (destruct (String.eqb _ _); [split; reflexivity|]).
  split; reflexivity.
Qed.

Lemma createIconTexture_normal (dom : Dom) (type : Icons.IconType)
    (colorArg : option string) :
  exists o,
    createIconTexture dom type colorArg = Normal o
    /\ (drawn o = []
        \/ exists color,
             drawn o = preamble color ++ drawIcon type (size / 2) (size / 2)
                                           color).
Proof.
  unfold createIconTexture. destruct (context2d dom).
  - eexists. split; [reflexivity|]. right. eexists. reflexivity.
  - eexists. split; [reflexivity|]. left. reflexivity.
Qed.

End DrawingFacts.

(** X20: whatever the glyph type and the colour, everything the icon
    texture generator draws lies within the 512 x 512 canvas: every path
    point, the bounding box of every circle and arc, every rectangle. *)
Theorem icons_stay_inside_the_canvas (dom : Canvas.Dom)
    (type : Icons.IconType) (colorArg : option string) :
  exists o,
    Canvas.createIconTexture dom type colorArg = Canvas.Normal o
    /\ Forall Drawing.inCanvas (Canvas.drawn o).
Proof.
  destruct (createIconTexture_normal dom type colorArg)
    as (o & Ho & [Hd|[color Hd]]); exists o; (split; [exact Ho|]);
    rewrite Hd.
  - constructor.
  - apply Forall_app. split; [|apply drawIcon_inside].
    unfold Canvas.preamble.
    constructor; [|repeat constructor].
    cbn [Drawing.inCanvas]. unfold Drawing.inside, Canvas.size.
    repeat split; lra.
Qed.

(** X21: every drawing of the icon texture generator keeps the path
    discipline of the canvas: each path is begun, built and painted once
    by a stroke or a fill, nothing is built or painted outside a path, no
    path is left unpainted; and the global alpha is back at 1 when the
    drawing ends. *)
Theorem icons_paint_every_path (dom : Canvas.Dom) (type : Icons.IconType)
    (colorArg : option string) :
  exists o,
    Canvas.createIconTexture dom type colorArg = Canvas.Normal o
    /\ Drawing.paints false (Canvas.drawn o) = true
    /\ Drawing.alphaAfter 1 (Canvas.drawn o) = 1%R.
Proof.
  destruct (createIconTexture_normal dom type colorArg)
    as (o & Ho & [Hd|[color Hd]]); exists o; (split; [exact Ho|]);
    rewrite Hd.
  - split; reflexivity.
  - unfold Canvas.preamble.
    cbn [List.app Drawing.paints Drawing.alphaAfter].
    apply drawIcon_paints.
Qed.

Lemma grid_iconTypes (rnd : Grid.RandomStream) :
  List.map Grid.iconType (Grid.allCubes (Grid.slices rnd))
  = List.map (fun '(x, y, z) => Grid.iconFor x y z) Scene.mountOrder.
Proof. reflexivity. Qed.

(** X22: no piece of the grid ever shows the fallback dot.  Every glyph
    type the grid builder assigns is one of the six known types, so with
    a 2D context the texture of such a piece is drawn by the routine of
    its glyph (each of which starts by setting its own line width, which
    the fallback does not), in the icon colour of the face; a piece
    without a glyph gets no texture. *)
Theorem grid_glyphs_have_their_own_drawing (rnd : Grid.RandomStream)
    (dom : Canvas.Dom) (color : string) :
  Canvas.context2d dom = true ->
  Forall (fun c =>
            match Grid.iconType c with
            | None => Render.textureUrl dom None color = None
            | Some t =>
                In t Icons.knownIcons
                /\ exists o w rest,
                     Render.textureUrl dom (Some t) color
                     = Some (Canvas.Normal o)
                     /\ Canvas.drawn o
                        = Canvas.preamble (Render.iconColor color)
                          ++ Canvas.LineWidth w :: rest
            end)
         (Grid.allCubes (Grid.slices rnd)).
Proof.
  intros Hctx.
  assert (Hknown : forall t,
    In t Icons.knownIcons ->
    In t Icons.knownIcons
    /\ exists o w rest,
         Render.textureUrl dom (Some t) color = Some (Canvas.Normal o)
         /\ Canvas.drawn o
            = Canvas.preamble (Render.iconColor color)
              ++ Canvas.LineWidth w :: rest).
  { intros t Hin. split; [exact Hin|].
    unfold Render.textureUrl, Canvas.createIconTexture. rewrite Hctx.
    cbn [Icons.knownIcons In] in Hin.
    destruct Hin as [<-|[<-|[<-|[<-|[<-|[<-|[]]]]]]];
      eexists; eexists; eexists; (split; [reflexivity|reflexivity]). }
  rewrite List.Forall_forall. intros c Hin.
  pose proof (in_map Grid.iconType _ _ Hin) as Hi.
  rewrite grid_iconTypes in Hi. apply in_map_iff in Hi.
  destruct Hi as ([[kx ky] kz] & Heq & _). rewrite <- Heq.
  unfold Grid.iconFor.
  repeat (destruct (_ && _)%bool;
          [apply Hknown; cbn [Icons.knownIcons In Icons.front Icons.back
             Icons.top Icons.right Icons.left Icons.CENTER_FACE_ICONS];
           tauto|]).
  reflexivity.
Qed.

Lemma grid_glyphs_have_their_own_drawing_witness :
  Forall (fun c =>
            match Grid.iconType c with
            | None =>
                Render.textureUrl
                  {| Canvas.context2d := true;
                     Canvas.toDataURL := fun _ => "data:," |} None "#f72585"
                = None
            | Some t =>
                In t Icons.knownIcons
                /\ exists o w rest,
                     Render.textureUrl
                       {| Canvas.context2d := true;
                          Canvas.toDataURL := fun _ => "data:," |}
                       (Some t) "#f72585"
                     = Some (Canvas.Normal o)
                     /\ Canvas.drawn o
                        = Canvas.preamble (Render.iconColor "#f72585")
                          ++ Canvas.LineWidth w :: rest
            end)
         (Grid.allCubes Sample.grid).
Proof.
  apply (grid_glyphs_have_their_own_drawing (fun _ => 0%Q)
           {| Canvas.context2d := true; Canvas.toDataURL := fun _ => "data:," |}
           "#f72585").
  reflexivity.
Defined.

(** ** The life of the mounted scene *)

Section SessionFacts.

Import THREE Physics Session.

Lemma mounted_steady (rnd : Grid.RandomStream) :
  steady (mounted (Grid.slices rnd)).
Proof.
  unfold steady, mounted. cbn [cubesRefs physics].
  unfold initPhysics. rewrite pushZeros_velocities.
  cbn [initialPhysics velocities List.app].
  split; [|split].
  - unfold Scene.mountCubes. rewrite length_map. reflexivity.
  - apply repeat_length.
  - intros _. apply Forall_forall. intros v Hin.
    apply repeat_spec in Hin. exact Hin.
Qed.

Lemma handle_steady (g : Grid.CubeGridState) (e : Event) (w : World) :
  steady w -> exists w', handle g e w = Some w' /\ steady w'.
Proof.
  intros (Hc & Hv & Hz). destruct e as [fr|l i| | |]; cbn [handle].
  - unfold useFrame. destruct (active (physics w)) eqn:Ha.
    + assert (Hr : roomy w) by (unfold roomy; lia).
      destruct (steps_total fr (List.length (cubesRefs w)) 0 w Hr)
        as [w' E].
      exists w'. split; [exact E|].
      assert (Hs : Frames.sameShape w w').
      { eapply forEachFrom_sameShape; [|exact E].
        intros j a b. apply stepPiece_sameShape. }
      destruct Hs as (H1 & H2 & _ & H4).
      split; [congruence|]. split; [congruence|].
      intros Hf. rewrite H4, Ha in Hf. discriminate.
    + exists w. split; [reflexivity|]. split; [exact Hc|].
      split; [exact Hv|]. intros _. apply Hz. reflexivity.
  - eexists. split; [reflexivity|].
    unfold Render.onPointerDown, handleCubePointerDown.
    destruct (active (physics w)) eqn:Ha;
      (split; [exact Hc|]; split; [exact Hv|]).
    + cbn [physics]. rewrite Ha. discriminate.
    + intros _. apply Hz. reflexivity.
  - eexists. split; [reflexivity|].
    split; [exact Hc|]. split; [exact Hv|exact Hz].
  - eexists. split; [reflexivity|].
    unfold setPhysics, Choreography.onLeave, steady.
    cbn [cubesRefs physics velocities active].
    split; [exact Hc|]. split; [exact Hv|]. discriminate.
  - eexists. split; [reflexivity|].
    unfold setPhysics, Choreography.onEnterBack, steady.
    cbn [cubesRefs physics velocities active].
    split; [exact Hc|]. split; [rewrite length_map; exact Hv|].
    intros _. apply Forall_forall. intros v Hin.
    apply in_map_iff in Hin. destruct Hin as (u & <- & _). reflexivity.
Qed.

Lemma run_steady (g : Grid.CubeGridState) (es : list Event) :
  forall w, steady w -> exists w', run g es w = Some w' /\ steady w'.
Proof.
  induction es as [|e rest IH]; intros w Hs; cbn [run].
  - exists w. split; [reflexivity|exact Hs].
  - destruct (handle_steady g e w Hs) as (w1 & -> & Hs1).
    apply IH. exact Hs1.
Qed.

End SessionFacts.

(** X23: once the grid is rendered and the mount effect has run, no
    sequence of frames, pointer presses and releases and scroll-trigger
    callbacks makes the physics loop raise, whatever the frame inputs;
    the scene keeps its 27 pieces and 27 velocity slots, and whenever
    physics is inactive every velocity is the zero vector. *)
Theorem mounted_scene_never_raises (rnd : Grid.RandomStream)
    (es : list Session.Event) :
  exists w',
    Session.run (Grid.slices rnd) es (Session.mounted (Grid.slices rnd))
    = Some w'
    /\ List.length (Physics.cubesRefs w') = 27%nat
    /\ List.length (Physics.velocities (Physics.physics w')) = 27%nat
    /\ (Physics.active (Physics.physics w') = false ->
        Forall (fun v => v = THREE.vec3 0 0 0)
               (Physics.velocities (Physics.physics w'))).
Proof.
  destruct (run_steady (Grid.slices rnd) es _ (mounted_steady rnd))
    as (w' & Hrun & Hs).
  exists w'. split; [exact Hrun|exact Hs].
Qed.


Lemma mounted_scene_never_raises_witness :
  exists w',
    Session.run (Grid.slices (fun _ => 0%Q))
      [Session.Leave; Session.Press Grid.top 0; Session.Release;
       Session.EnterBack]
      (Session.mounted (Grid.slices (fun _ => 0%Q))) = Some w'
    /\ Physics.active (Physics.physics w') = false
    /\ Forall (fun v => v = THREE.vec3 0 0 0)
              (Physics.velocities (Physics.physics w')).
Proof.
  destruct (mounted_scene_never_raises (fun _ => 0%Q)
              [Session.Leave; Session.Press Grid.top 0; Session.Release;
               Session.EnterBack]) as (w' & Hrun & _ & _ & Hz).
  assert (Ha : Physics.active (Physics.physics w') = false).
  { cbn [Session.run Session.handle] in Hrun.
    apply (inj Some) in Hrun. rewrite <- Hrun. reflexivity. }
  exists w'. split; [exact Hrun|]. split; [exact Ha|]. apply Hz. exact Ha.
Defined.

(** * The frame loop, pass by pass *)

Section FramePasses.

Import THREE Physics Frames.
Local Open Scope R_scope.

Variable fr : Frame.

(** One pass of the loop, whatever is dragged: it succeeds, keeps the
    shape of the world, leaves the meshes of the other pieces alone and,
    unless it is the pass of the dragged piece, their velocities too. *)
Lemma stepPiece_pass (k : nat) (w : World) :
  roomy w ->
  exists w',
    stepPiece fr k w = Some w'
    /\ sameShape w w' /\ roomy w'
    /\ (forall j, j <> k -> cubesRefs w' !! j = cubesRefs w !! j)
    /\ (dragRef w <> Some k ->
        forall j, j <> k ->
          velocities (physics w') !! j = velocities (physics w) !! j).
Proof.
  intros Hr.
  destruct (stepPiece_total fr k w Hr) as [w' E].
  pose proof (stepPiece_sameShape fr k w w' E) as Hs.
  exists w'. split; [exact E|]. split; [exact Hs|].
  split; [eapply roomy_sameShape; eauto|].
  unfold stepPiece in E.
  destruct (cubesRefs w !! k) as [mesh|] eqn:Hm.
  2:{ injection E as <-. split; auto. }
  destruct (velocities (physics w) !! k) as [v|] eqn:Hv; [|discriminate].
  assert (Hfree : freeStep fr k mesh v w = Some w' ->
            (forall j, j <> k -> cubesRefs w' !! j = cubesRefs w !! j)
            /\ (forall j, j <> k ->
                  velocities (physics w') !! j
                  = velocities (physics w) !! j)).
  { destruct (impulses_total fr w k mesh v) as [[u n] Hi].
    rewrite (freeStep_spec fr w k mesh v u n Hi). intros [= <-].
    cbn [cubesRefs physics velocities setDraws setCubes setVelocities].
    split; intros j Hj; apply list_lookup_insert_ne; congruence. }
  destruct (dragRef w) as [d|] eqn:Hd.
  - destruct (Nat.eqb_spec d k) as [->|Hne].
    + destruct (dragStep_spec fr w k mesh v Hm Hv Hr)
        as (w2 & E2 & Hc & _).
      rewrite E2 in E. injection E as <-.
      split; [|congruence].
      intros j Hj. rewrite Hc. apply list_lookup_insert_ne. congruence.
    + destruct (Hfree E) as [H1 H2]. split; [exact H1|]. intros _. exact H2.
  - destruct (Hfree E) as [H1 H2]. split; [exact H1|]. intros _. exact H2.
Qed.

(** The passes [k], ..., [k + n - 1]. *)
Lemma steps_pass (n : nat) :
  forall k w,
    roomy w ->
    exists w',
      forEachFrom n k (stepPiece fr) w = Some w'
      /\ sameShape w w' /\ roomy w'
      /\ (forall j, (j < k \/ k + n <= j)%nat ->
            cubesRefs w' !! j = cubesRefs w !! j)
      /\ ((forall d, dragRef w = Some d -> (d < k \/ k + n <= d)%nat) ->
          forall j, (j < k \/ k + n <= j)%nat ->
            velocities (physics w') !! j = velocities (physics w) !! j).
Proof.
  induction n as [|n IH]; intros k w Hr; simpl.
  - exists w. split; [reflexivity|]. split; [apply sameShape_refl|].
    split; [exact Hr|]. split; auto.
  - destruct (stepPiece_pass k w Hr) as (w1 & -> & Hs1 & Hr1 & Hc1 & Hv1).
    destruct (IH (S k) w1 Hr1) as (w' & Hrun & Hs & Hr' & Hc & Hv).
    exists w'. split; [exact Hrun|].
    split; [eapply sameShape_trans; eauto|]. split; [exact Hr'|].
    split.
    + intros j Hj. rewrite (Hc j) by lia. apply Hc1. lia.
    + intros Hd j Hj.
      destruct Hs1 as (_ & _ & Hd1 & _).
      rewrite (Hv ltac:(intros d E; rewrite Hd1 in E; specialize (Hd d E); lia)
                  j ltac:(lia)).
      apply Hv1; [|lia].
      intros E. specialize (Hd k E). lia.
Qed.

(** The frame as seen from a piece [i] that is not the dragged one: the
    loop reaches [i] with its mesh untouched, the pass of [i] gathers the
    impulses into [u] and integrates, and the mesh it writes is the one
    the frame ends with.  The velocity the pass starts from is the one
    the frame started with unless the dragged piece has had its pass
    before; the velocity the pass writes is the one the frame ends with
    unless the dragged piece has its pass after. *)
Lemma frame_of_free_piece (w : World) (i : nat) (mesh : Group)
    (v : Vector3) :
  active (physics w) = true -> roomy w ->
  cubesRefs w !! i = Some mesh ->
  velocities (physics w) !! i = Some v ->
  dragRef w <> Some i ->
  exists wi vi u n w',
    forEachFrom i 0 (stepPiece fr) w = Some wi
    /\ cubesRefs wi !! i = Some mesh
    /\ velocities (physics wi) !! i = Some vi
    /\ dragRef wi = dragRef w
    /\ impulses fr wi i mesh vi = Some (u, n)
    /\ useFrame fr w = Some w'
    /\ cubesRefs w' !! i
       = Some (setPosition mesh (fst (integrate fr i (position mesh) u)))
    /\ ((forall d, dragRef w = Some d -> (i < d)%nat) -> vi = v)
    /\ ((forall d, dragRef w = Some d -> (d < i)%nat) ->
        velocities (physics w') !! i
        = Some (snd (integrate fr i (position mesh) u))).
Proof.
  intros Ha Hr Hm Hv Hd.
  pose proof (lookup_lt_Some _ _ _ Hm) as Hlt.
  destruct (steps_pass i 0 w Hr) as (wi & Hrun & Hsi & Hri & Hci & Hvi).
  destruct Hsi as (Hl1 & Hl2 & Hdi & Hai).
  assert (Hmi : cubesRefs wi !! i = Some mesh)
    by (rewrite (Hci i) by lia; exact Hm).
  assert (Hsome : is_Some (velocities (physics wi) !! i)).
  { apply lookup_lt_is_Some_2. unfold roomy in Hri. lia. }
  destruct Hsome as [vi Hvel].
  assert (Hdi' : dragRef wi <> Some i) by (rewrite Hdi; exact Hd).
  destruct (free_iteration fr wi i mesh vi Hmi Hvel Hdi')
    as (u & n & wi' & Hi & Hstep & Hc' & Hv' & _).
  assert (Hri' : roomy wi').
  { eapply roomy_sameShape; [|exact Hri].
    eapply stepPiece_sameShape. exact Hstep. }
  destruct (steps_pass (List.length (cubesRefs w) - S i) (S i) wi' Hri')
    as (w' & Hrest & Hs' & _ & Hcr & Hvr).
  exists wi, vi, u, n, w'.
  split; [exact Hrun|]. split; [exact Hmi|]. split; [exact Hvel|].
  split; [exact Hdi|]. split; [exact Hi|].
  split.
  { unfold useFrame. rewrite Ha.
    replace (List.length (cubesRefs w))
      with (i + S (List.length (cubesRefs w) - S i))%nat by lia.
    rewrite forEachFrom_app, Hrun. simpl. rewrite Hstep. exact Hrest. }
  split; [rewrite (Hcr i) by lia; exact Hc'|].
  split.
  - intros Hafter.
    rewrite (Hvi ltac:(intros d E; specialize (Hafter d E); lia) i
               ltac:(lia)) in Hvel.
    congruence.
  - intros Hbefore.
    pose proof (stepPiece_sameShape fr i wi wi' Hstep) as (_ & _ & Hdw & _).
    rewrite (Hvr ltac:(intros d E; rewrite Hdw, Hdi in E;
                       specialize (Hbefore d E); lia) i ltac:(lia)).
    exact Hv'.
Qed.

(** The frame as seen from the dragged piece [i]: the pieces before it
    have their passes, which leave its mesh alone; its own pass is the
    drag step; the pieces after it have theirs, which leave its mesh and
    its velocity alone. *)
Lemma frame_of_dragged_piece (w : World) (i : nat) (mesh : Group)
    (v : Vector3) :
  active (physics w) = true -> roomy w ->
  dragRef w = Some i ->
  cubesRefs w !! i = Some mesh ->
  velocities (physics w) !! i = Some v ->
  let target := dragTarget fr in
  let p' := lerp (position mesh) target 0.2 in
  exists wi wd w',
    forEachFrom i 0 (stepPiece fr) w = Some wi
    /\ cubesRefs wi !! i = Some mesh
    /\ dragRef wi = Some i /\ roomy wi
    /\ stepPiece fr i wi = Some wd
    /\ forEachFrom (List.length (cubesRefs w) - S i) (S i) (stepPiece fr) wd
       = Some w'
    /\ useFrame fr w = Some w'
    /\ cubesRefs wd = <[i := setPosition mesh p']> (cubesRefs wi)
    /\ dragRef wd = Some i /\ roomy wd /\ draws wd = draws wi
    /\ (forall j mj vj, j <> i ->
          cubesRefs wi !! j = Some mj ->
          velocities (physics wi) !! j = Some vj ->
          velocities (physics wd) !! j
          = Some (pushedVelocity fr p' j (position mj) vj))
    /\ cubesRefs w' !! i = Some (setPosition mesh p')
    /\ velocities (physics w') !! i
       = Some (multiplyScalar (sub target (position mesh)) 10).
Proof.
  intros Ha Hr Hd Hm Hv target p'.
  pose proof (lookup_lt_Some _ _ _ Hm) as Hlt.
  destruct (steps_pass i 0 w Hr) as (wi & Hrun & Hsi & Hri & Hci & _).
  destruct Hsi as (Hl1 & Hl2 & Hdi & Hai).
  assert (Hmi : cubesRefs wi !! i = Some mesh)
    by (rewrite (Hci i) by lia; exact Hm).
  assert (Hsome : is_Some (velocities (physics wi) !! i)).
  { apply lookup_lt_is_Some_2. unfold roomy in Hri. lia. }
  destruct Hsome as [vi Hvel].
  destruct (dragStep_spec fr wi i mesh vi Hmi Hvel Hri)
    as (wd & Hdrag & Hcd & Hvd & Hpush & Hdd & Hnd & _).
  assert (Hstep : stepPiece fr i wi = Some wd).
  { unfold stepPiece. rewrite Hmi, Hvel, Hdi, Hd, Nat.eqb_refl. exact Hdrag. }
  assert (Hrd : roomy wd).
  { eapply roomy_sameShape; [|exact Hri].
    eapply stepPiece_sameShape. exact Hstep. }
  assert (Hdwd : dragRef wd = Some i) by congruence.
  destruct (steps_pass (List.length (cubesRefs w) - S i) (S i) wd Hrd)
    as (w' & Hrest & _ & _ & Hcr & Hvr).
  exists wi, wd, w'.
  split; [exact Hrun|]. split; [exact Hmi|].
  split; [congruence|]. split; [exact Hri|]. split; [exact Hstep|].
  split; [exact Hrest|].
  split.
  { unfold useFrame. rewrite Ha.
    replace (List.length (cubesRefs w))
      with (i + S (List.length (cubesRefs w) - S i))%nat at 1 by lia.
    rewrite forEachFrom_app, Hrun. simpl. rewrite Hstep. exact Hrest. }
  split; [exact Hcd|]. split; [exact Hdwd|]. split; [exact Hrd|].
  split; [exact Hnd|]. split; [exact Hpush|].
  split.
  - rewrite (Hcr i) by lia. rewrite Hcd.
    apply list_lookup_insert_eq. eapply lookup_lt_Some. exact Hmi.
  - rewrite (Hvr ltac:(intros d E; rewrite Hdwd in E; injection E as <-; lia)
               i ltac:(lia)).
    exact Hvd.
Qed.

End FramePasses.

(** * The walls of the physics step *)

Section Walls.

Import THREE Physics.
Local Open Scope R_scope.

Variable fr : Frame.

Lemma safeBoundary_unfold :
  safeBoundary fr = Rmax 2 (viewportWidth fr / 2 - 1).
Proof. reflexivity. Qed.

(** The three cases of the wall check. *)
Lemma wallCollision_cases (safe px vx : R) :
  0 <= safe ->
  (px > safe -> wallCollision safe px vx = (safe, vx * -0.8))
  /\ (px < - safe -> wallCollision safe px vx = (- safe, vx * -0.8))
  /\ (- safe <= px <= safe -> wallCollision safe px vx = (px, vx)).
Proof.
  intros Hs. unfold wallCollision. repeat split; intros H.
  - destruct (Rgt_dec px safe); [reflexivity|lra].
  - destruct (Rgt_dec px safe); [lra|].
    destruct (Rlt_dec px (- safe)); [reflexivity|lra].
  - destruct (Rgt_dec px safe); [lra|].
    destruct (Rlt_dec px (- safe)); [lra|reflexivity].
Qed.

End Walls.

(** C10: in every frame and for every viewport width, the wall check that
    the physics step runs on a piece that is not dragged uses the
    half-width [max(2, viewportWidth / 2 - 1)]: it is at least 2, so the
    strip between the walls is at least 4 wide.  The x the wall check
    leaves lies between the two walls, and the frame ends with that x plus
    velocity.x * delta.  The walls mirror each other about x = 0: beyond
    the right wall x becomes the half-width, beyond the left wall it
    becomes minus the half-width, velocity.x being multiplied by -0.8 in
    both cases; a piece within 2 of the centre line is never touched by
    the wall check, however narrow the viewport. *)
Theorem safe_boundary_never_below_two (fr : Physics.Frame)
    (w : Physics.World) (i : nat) (mesh : THREE.Group) (v : THREE.Vector3) :
  Physics.active (Physics.physics w) = true -> Physics.roomy w ->
  Physics.cubesRefs w !! i = Some mesh ->
  Physics.velocities (Physics.physics w) !! i = Some v ->
  Physics.dragRef w <> Some i ->
  let safe := Rmax 2 (Physics.viewportWidth fr / 2 - 1) in
  let px := THREE.x (THREE.position mesh) in
  (2 <= safe)%R
  /\ (4 <= safe - - safe)%R
  /\ exists wi vi u n w' mesh' cx cvx,
       Physics.forEachFrom i 0 (Physics.stepPiece fr) w = Some wi
       /\ Physics.velocities (Physics.physics wi) !! i = Some vi
       /\ Physics.impulses fr wi i mesh vi = Some (u, n)
       /\ Physics.wallCollision safe px (THREE.x u) = (cx, cvx)
       /\ Physics.useFrame fr w = Some w'
       /\ Physics.cubesRefs w' !! i = Some mesh'
       /\ THREE.x (THREE.position mesh') = (cx + cvx * Physics.delta fr)%R
       /\ (- safe <= cx <= safe)%R
       /\ ((px > safe)%R -> cx = safe /\ cvx = (THREE.x u * -0.8)%R)
       /\ ((px < - safe)%R -> cx = (- safe)%R /\ cvx = (THREE.x u * -0.8)%R)
       /\ ((- safe <= px <= safe)%R -> cx = px /\ cvx = THREE.x u)
       /\ ((-2 <= px <= 2)%R -> cx = px /\ cvx = THREE.x u).
Proof.
  intros Ha Hr Hm Hv Hd safe px.
  assert (H2 : (2 <= safe)%R) by apply Rmax_l.
  split; [exact H2|]. split; [lra|].
  destruct (frame_of_free_piece fr w i mesh v Ha Hr Hm Hv Hd)
    as (wi & vi & u & n & w' & Hrun & _ & Hvi & _ & Hi & Hframe & Hc & _).
  rewrite integrate_spec in Hc. cbn [fst] in Hc.
  rewrite safeBoundary_unfold in Hc. fold safe in Hc. fold px in Hc.
  destruct (Physics.wallCollision safe px (THREE.x u)) as [cx cvx] eqn:Hw.
  cbn [fst snd] in Hc.
  destruct (wallCollision_cases safe px (THREE.x u) ltac:(lra))
    as (Hright & Hleft & Hin).
  exists wi, vi, u, n, w'. eexists. exists cx, cvx.
  split; [exact Hrun|]. split; [exact Hvi|]. split; [exact Hi|].
  split; [exact Hw|]. split; [exact Hframe|]. split; [exact Hc|].
  split; [reflexivity|].
  assert (Hcase : forall a b : R,
            Physics.wallCollision safe px (THREE.x u) = (a, b) ->
            cx = a /\ cvx = b).
  { intros a b E. rewrite Hw in E. injection E as <- <-. split; reflexivity. }
  split.
  { destruct (Rgt_dec px safe) as [G|G].
    - destruct (Hcase _ _ (Hright G)) as [-> _]. lra.
    - destruct (Rlt_dec px (- safe)) as [L|L].
      + destruct (Hcase _ _ (Hleft L)) as [-> _]. lra.
      + destruct (Hcase _ _ (Hin ltac:(lra))) as [-> _]. lra. }
  split; [intros G; apply Hcase, Hright, G|].
  split; [intros L; apply Hcase, Hleft, L|].
  split; [intros I; apply Hcase, Hin, I|].
  intros I. apply Hcase, Hin. lra.
Qed.

Lemma safe_boundary_never_below_two_witness :
  exists w' mesh',
    Physics.useFrame Sample.frame Sample.world = Some w'
    /\ Physics.cubesRefs w' !! 0%nat = Some mesh'
    /\ (- Rmax 2 (8 / 2 - 1)
        <= THREE.x (THREE.position mesh')
           - THREE.x (THREE.vec3 1 0 0) * -0.8 * 0.02
        <= Rmax 2 (8 / 2 - 1))%R.
Proof.
  destruct (safe_boundary_never_below_two Sample.frame Sample.world 0
              {| THREE.position := THREE.vec3 4 (-5) (3 * INR 0);
                 THREE.rotation := THREE.vec3 0 0 0;
                 THREE.scale := THREE.vec3 1 1 1;
                 THREE.userDataId := Grid.cubeId (-1) 1 (-1) |}
              (THREE.vec3 1 0 0)
              eq_refl sample_roomy sample_first eq_refl
              ltac:(discriminate))
    as (_ & _ & wi & vi & u & n & w' & mesh' & cx & cvx & Hrun & Hvi & Hi
        & _ & Hframe & Hc & Hx & Hrange & Hright & _).
  injection Hrun as <-.
  cbn [Sample.world Physics.physics Physics.velocities] in Hvi.
  injection Hvi as <-.
  unfold Physics.impulses in Hi.
  cbn [Sample.world Physics.dragRef Physics.cubesRefs Physics.draws
       Sample.frame Physics.getWorldPosition THREE.position] in Hi.
  destruct (sample_impulses (THREE.vec3 1 0 0) 0) as [Hcol Hrep].
  rewrite Hrep, Hcol in Hi. injection Hi as <- <-.
  cbn [THREE.position THREE.x Sample.frame Physics.viewportWidth
       Physics.delta] in Hx, Hrange, Hright.
  destruct Hright as [-> ->].
  { unfold Rmax. destruct (Rle_dec 2 (8 / 2 - 1)); lra. }
  exists w', mesh'. split; [exact Hframe|]. split; [exact Hc|].
  rewrite Hx. cbn [THREE.x].
  pose proof (Rmax_l 2 (8 / 2 - 1)) as Hmax. revert Hmax.
  generalize (Rmax 2 (8 / 2 - 1)). intros m Hmax. lra.
Defined.

(** * The explosion of the piece on the axis *)

Section AxisPiece.

Import THREE Scene Gsap Choreography.
Local Open Scope R_scope.

Variable c : Setup.
Variable g : Grid.CubeGridState.

(** The position of piece [i] when the explosion timeline has been driven
    to progress [p]: the value of its position tween. *)
Lemma explode_at (s0 : Stage) (ps : list R) (p : R) (i : nat)
    (mesh : Group) :
  cubesRefs s0 !! i = Some mesh ->
  exists mesh',
    cubesRefs (snd (scrubAll (ps ++ [p]) (tl2 c g s0, s0))) !! i = Some mesh'
    /\ position mesh'
       = interpolate (position mesh)
           (explodeTarget c mesh (parentY g mesh) (random c (4 * i)))
           (easeFn Power2Out
              (localProgress
                 (to (CubePosition i)
                     (explodeTarget c mesh (parentY g mesh)
                        (random c (4 * i)))
                     defaultDuration Power2Out 0)
                 (p * totalDuration (tl2 c g s0)))).
Proof.
  intros Hm.
  set (tw := to (CubePosition i)
               (explodeTarget c mesh (parentY g mesh) (random c (4 * i)))
               defaultDuration Power2Out 0).
  assert (Hin : In tw (tl2 c g s0)).
  { unfold tl2. apply in_or_app. right.
    apply (explodeAll_In c g (cubesRefs s0) 0 i mesh Hm). }
  pose proof (scrub_pure (tl2 c g s0) s0 ps p
                (tl2_NoDup c g s0) (tl2_valid c g s0) (tl2_fresh c g s0))
    as Hall.
  rewrite List.Forall_forall in Hall. destruct (Hall tw Hin) as [Hval _].
  cbn [tw to target getTarget] in Hval. rewrite Hm in Hval.
  assert (Hlen :
    List.length (cubesRefs (snd (scrubAll (ps ++ [p]) (tl2 c g s0, s0))))
    = List.length (cubesRefs s0)).
  { destruct (scrubAll_reached (tl2 c g s0) s0 (ps ++ [p])
                (tl2_NoDup c g s0) (tl2_valid c g s0) (tl2 c g s0, s0))
      as [->|[_ Hl]]; [left; reflexivity|reflexivity|exact Hl]. }
  destruct (cubesRefs (snd (scrubAll (ps ++ [p]) (tl2 c g s0, s0))) !! i)
    as [mesh'|] eqn:E.
  - exists mesh'. split; [reflexivity|]. rewrite Hval. reflexivity.
  - apply lookup_ge_None in E. apply lookup_lt_Some in Hm. lia.
Qed.

(** A zero combined vector: the piece sits on the axis of a slice that is
    not raised, and its explosion target is straight above it. *)
Lemma degenerate_target (mesh : Group) (pY r : R) :
  length (combined mesh pY) = 0 ->
  pY = 0
  /\ explodeTarget c mesh pY r
     = add (position mesh) (multiplyScalar (vec3 0 1 0) (explodeDist c r)).
Proof.
  intros H0.
  pose proof (explodeDirection_degenerate mesh pY H0) as Hdir.
  apply length_zero_iff in H0.
  pose proof (f_equal y H0) as Hy. cbn [combined y zero] in Hy.
  split; [exact Hy|].
  unfold explodeTarget. rewrite Hdir. unfold add, multiplyScalar.
  cbn [x y z]. f_equal; lra.
Qed.

End AxisPiece.

(** C9: in the explosion timeline, a piece whose combined vector (offset
    within the slice, vertical placement of the slice) has zero length is
    displaced along the upward direction (0, 1, 0).  The direction the
    target computation uses for it is (0, 1, 0); its explosion target is
    its position plus (0, 1, 0) times the explosion distance; at every
    progress of the scrubbed timeline its displacement from the
    pre-explosion position is a multiple of (0, 1, 0), and at progress 1
    it is (0, 1, 0) times the explosion distance.  On the mounted grid,
    whatever the colours, the piece with a zero combined vector is piece
    13, the piece (0, 0, 0) on the axis of the middle slice, and no
    other. *)
Theorem degenerate_direction_is_up (c : Choreography.Setup)
    (g : Grid.CubeGridState) (s0 : Scene.Stage) (ps : list R) (p : R)
    (i : nat) (mesh : THREE.Group) :
  Scene.cubesRefs s0 !! i = Some mesh ->
  THREE.length (Choreography.combined mesh (Choreography.parentY g mesh))
  = 0%R ->
  let d := Choreography.explodeDist c (Choreography.random c (4 * i)) in
  Choreography.explodeDirection mesh (Choreography.parentY g mesh)
  = THREE.vec3 0 1 0
  /\ Choreography.explodeTarget c mesh (Choreography.parentY g mesh)
       (Choreography.random c (4 * i))
     = THREE.add (THREE.position mesh)
         (THREE.multiplyScalar (THREE.vec3 0 1 0) d)
  /\ (exists mesh' k,
        Scene.cubesRefs
          (snd (Gsap.scrubAll (ps ++ [p]) (Choreography.tl2 c g s0, s0))) !! i
        = Some mesh'
        /\ THREE.sub (THREE.position mesh') (THREE.position mesh)
           = THREE.multiplyScalar (THREE.vec3 0 1 0) k)
  /\ (exists mesh',
        Scene.cubesRefs
          (snd (Gsap.scrubAll (ps ++ [1%R]) (Choreography.tl2 c g s0, s0)))
          !! i
        = Some mesh'
        /\ THREE.sub (THREE.position mesh') (THREE.position mesh)
           = THREE.multiplyScalar (THREE.vec3 0 1 0) d)
  /\ (forall rnd,
        Forall (fun m =>
                  THREE.length
                    (Choreography.combined m
                       (Choreography.parentY (Grid.slices rnd) m)) = 0%R ->
                  THREE.userDataId m = Grid.cubeId 0 0 0)
               (Scene.mountCubes (Grid.slices rnd))
        /\ exists m,
             Scene.mountCubes (Grid.slices rnd) !! 13%nat = Some m
             /\ THREE.userDataId m = Grid.cubeId 0 0 0
             /\ THREE.length
                  (Choreography.combined m
                     (Choreography.parentY (Grid.slices rnd) m)) = 0%R).
Proof.
  intros Hm H0 d.
  destruct (degenerate_target c mesh (Choreography.parentY g mesh)
              (Choreography.random c (4 * i)) H0) as [HpY Htarget].
  fold d in Htarget.
  split; [apply explodeDirection_degenerate; exact H0|].
  split; [exact Htarget|].
  split; [|split].
  - destruct (explode_at c g s0 ps p i mesh Hm) as (mesh' & Hl & Hp).
    revert Hp. generalize (Gsap.easeFn Gsap.Power2Out
      (Gsap.localProgress
         (Gsap.to (Gsap.CubePosition i)
            (Choreography.explodeTarget c mesh (Choreography.parentY g mesh)
               (Choreography.random c (4 * i)))
            Gsap.defaultDuration Gsap.Power2Out 0)
         (p * Gsap.totalDuration (Choreography.tl2 c g s0)))).
    intros ratio Hp.
    exists mesh', (d * ratio)%R. split; [exact Hl|].
    rewrite Hp, Htarget.
    unfold Gsap.interpolate, THREE.sub, THREE.add, THREE.multiplyScalar.
    cbn [THREE.x THREE.y THREE.z]. f_equal; ring.
  - destruct (explode_final c g s0 ps i mesh Hm) as (mesh' & Hl & Hp).
    exists mesh'. split; [exact Hl|].
    rewrite Hp, Htarget.
    unfold THREE.sub, THREE.add, THREE.multiplyScalar.
    cbn [THREE.x THREE.y THREE.z]. f_equal; ring.
  - intros rnd. split; [apply only_centre_is_degenerate|].
    exists Sample.centre. split; [reflexivity|]. split; [reflexivity|].
    assert (HpY0 : Choreography.parentY (Grid.slices rnd) Sample.centre = 0%R)
      by reflexivity.
    rewrite HpY0. apply length_zero_iff.
    unfold Choreography.combined. rewrite sample_centre_position.
    reflexivity.
Qed.

Lemma degenerate_direction_is_up_witness :
  exists mesh',
    Scene.cubesRefs
      (snd (Gsap.scrubAll ([] ++ [1%R])
              (Choreography.tl2 Sample.setup Sample.grid Sample.stage,
               Sample.stage))) !! 13%nat
    = Some mesh'
    /\ THREE.sub (THREE.position mesh') (THREE.position Sample.centre)
       = THREE.multiplyScalar (THREE.vec3 0 1 0)
           (Choreography.explodeDist Sample.setup
              (Choreography.random Sample.setup (4 * 13))).
Proof.
  assert (H0 : THREE.length
                 (Choreography.combined Sample.centre
                    (Choreography.parentY Sample.grid Sample.centre)) = 0%R).
  { rewrite sample_centre_parentY. apply length_zero_iff.
    unfold Choreography.combined. rewrite sample_centre_position.
    reflexivity. }
  exact (proj1 (proj2 (proj2 (proj2
           (degenerate_direction_is_up Sample.setup Sample.grid Sample.stage
              [] 1%R 13 Sample.centre sample_centre H0))))).
Defined.

(** * Pointer down on a cube *)

Section PointerDown.

Import THREE Physics Frames.
Local Open Scope R_scope.

(** A loop keeps what each of its passes keeps. *)
Lemma forEachFrom_rel {S : Type} (R : S -> S -> Prop)
    (f : nat -> S -> option S) :
  (forall s, R s s) ->
  (forall a b c, R a b -> R b c -> R a c) ->
  (forall j s s', f j s = Some s' -> R s s') ->
  forall n k s s', forEachFrom n k f s = Some s' -> R s s'.
Proof.
  intros Hrefl Htrans Hf n.
  induction n as [|n IH]; intros k s s' H; simpl in H.
  - injection H as <-. apply Hrefl.
  - destruct (f k s) as [s1|] eqn:E; [|discriminate].
    eapply Htrans; [apply (Hf _ _ _ E)|apply (IH _ _ _ H)].
Qed.

Lemma insert_moved_ids (l : list Group) (k : nat) (mesh : Group)
    (p : Vector3) :
  l !! k = Some mesh ->
  List.map userDataId (<[k := setPosition mesh p]> l)
  = List.map userDataId l.
Proof.
  intros H.
  change (userDataId <$> <[k := setPosition mesh p]> l = userDataId <$> l).
  rewrite list_fmap_insert. apply list_insert_id.
  rewrite list_lookup_fmap, H. reflexivity.
Qed.

Lemma pushOther_cubes (fr : Frame) (i : nat) (p : Vector3) (j : nat)
    (w w' : World) :
  pushOther fr i p j w = Some w' -> cubesRefs w' = cubesRefs w.
Proof.
  unfold pushOther. destruct (Nat.eqb i j); [intros [= <-]; reflexivity|].
  destruct (cubesRefs w !! j) as [m|]; [|intros [= <-]; reflexivity].
  destruct (Rlt_dec _ _); [|intros [= <-]; reflexivity].
  destruct (velocities (physics w) !! j) as [vj|]; [|discriminate].
  intros [= <-]. reflexivity.
Qed.

Lemma stepPiece_ids (fr : Frame) (k : nat) (w w' : World) :
  stepPiece fr k w = Some w' -> sameIds w w'.
Proof.
  unfold stepPiece, sameIds.
  destruct (cubesRefs w !! k) as [mesh|] eqn:Hm;
    [|intros [= <-]; reflexivity].
  destruct (velocities (physics w) !! k) as [v|]; [|discriminate].
  assert (Hfree : freeStep fr k mesh v w = Some w' ->
            List.map userDataId (cubesRefs w')
            = List.map userDataId (cubesRefs w)).
  { destruct (impulses_total fr w k mesh v) as [[u n] Hi].
    rewrite (freeStep_spec fr w k mesh v u n Hi). intros [= <-].
    cbn [cubesRefs setDraws setCubes].
    apply insert_moved_ids. exact Hm. }
  destruct (dragRef w) as [d|]; [|exact Hfree].
  destruct (Nat.eqb d k); [|exact Hfree].
  unfold dragStep. intros H.
  apply (forEachFrom_rel (fun a b => cubesRefs b = cubesRefs a)) in H.
  - rewrite H. cbn [cubesRefs setCubes setVelocities].
    apply insert_moved_ids. exact Hm.
  - reflexivity.
  - intros a b c0 E1 E2. congruence.
  - intros j s s'. apply pushOther_cubes.
Qed.

Lemma useFrame_ids (fr : Frame) (w w' : World) :
  useFrame fr w = Some w' -> sameIds w w'.
Proof.
  unfold useFrame. destruct (active (physics w)).
  - apply (forEachFrom_rel sameIds).
    + reflexivity.
    + unfold sameIds. intros a b c0 E1 E2. congruence.
    + intros j s s'. apply stepPiece_ids.
  - intros [= <-]. reflexivity.
Qed.

(** The tweens move and turn the pieces; they keep the ids. *)
Lemma setTarget_ids (t : Gsap.Target) (v : Vector3) (s : Scene.Stage) :
  List.map userDataId (Scene.cubesRefs (Gsap.setTarget t v s))
  = List.map userDataId (Scene.cubesRefs s).
Proof.
  destruct t as [| | |l|k|k]; try reflexivity.
  - destruct l; reflexivity.
  - cbn [Gsap.setTarget].
    destruct (Scene.cubesRefs s !! k) as [m|] eqn:E; [|reflexivity].
    cbn [Gsap.withCubes Scene.cubesRefs].
    apply insert_moved_ids. exact E.
  - cbn [Gsap.setTarget].
    destruct (Scene.cubesRefs s !! k) as [m|] eqn:E; [|reflexivity].
    cbn [Gsap.withCubes Scene.cubesRefs].
    change (userDataId <$> <[k := setRotation m v]> (Scene.cubesRefs s)
            = userDataId <$> Scene.cubesRefs s).
    rewrite list_fmap_insert. apply list_insert_id.
    rewrite list_lookup_fmap, E. reflexivity.
Qed.

Lemma renderTweens_ids (time : R) (tl : Gsap.Timeline) :
  forall s,
    List.map userDataId (Scene.cubesRefs (snd (Gsap.renderTweens time tl s)))
    = List.map userDataId (Scene.cubesRefs s).
Proof.
  induction tl as [|tw rest IH]; intros s; [reflexivity|].
  cbn [Gsap.renderTweens]. unfold Gsap.renderTween.
  specialize (IH (Gsap.setTarget (Gsap.target tw)
                    (Gsap.tweenValue tw (Gsap.startOf tw s) time) s)).
  destruct (Gsap.renderTweens time rest _) as [rest' s2].
  cbn [snd] in *. rewrite IH. apply setTarget_ids.
Qed.

Lemma scrubAll_ids (ps : list R) :
  forall ts,
    List.map userDataId (Scene.cubesRefs (snd (Gsap.scrubAll ps ts)))
    = List.map userDataId (Scene.cubesRefs (snd ts)).
Proof.
  induction ps as [|p ps IH]; intros ts; [reflexivity|].
  cbn [Gsap.scrubAll fold_left].
  change (fold_left (fun acc q => Gsap.scrub q acc) ps (Gsap.scrub p ts))
    with (Gsap.scrubAll ps (Gsap.scrub p ts)).
  rewrite IH. unfold Gsap.scrub. apply renderTweens_ids.
Qed.

Lemma mounted_ids (g : Grid.CubeGridState) :
  List.map userDataId (Scene.mountCubes g)
  = List.map Grid.id (Grid.allCubes g).
Proof.
  unfold Scene.mountCubes. rewrite List.map_map. reflexivity.
Qed.

Lemma allCubes_at_pointerIndex (g : Grid.CubeGridState) (l : Grid.Layer)
    (i : nat) (c : Grid.CubeData) :
  Render.sliceOf g l !! i = Some c ->
  List.map Grid.id (Grid.allCubes g) !! Render.pointerIndex g l i
  = Some (Grid.id c).
Proof.
  intros H. rewrite <- mounted_ids.
  change (List.map userDataId (Scene.mountCubes g))
    with (userDataId <$> Scene.mountCubes g).
  rewrite list_lookup_fmap, (mounted_at_pointerIndex g l i c H).
  reflexivity.
Qed.

End PointerDown.

(** X7: the index a cube passes on pointer down is its index among the
    collected refs, for every slice and every grid, wherever the pieces
    have been moved since they were mounted: the refs need only carry the
    ids of the grid in mount order, which the scroll timelines and the
    physics frames keep.  So while physics is active the piece pressed
    becomes the dragged piece; while it is not, the press changes nothing;
    and a pointer up ends any drag. *)
Theorem pointer_down_grabs_the_pressed_piece (g : Grid.CubeGridState)
    (l : Grid.Layer) (i : nat) (c : Grid.CubeData) (w : Physics.World) :
  Render.sliceOf g l !! i = Some c ->
  List.map THREE.userDataId (Physics.cubesRefs w)
  = List.map Grid.id (Grid.allCubes g) ->
  (Physics.active (Physics.physics w) = true ->
   exists k m,
     Physics.dragRef (Render.onPointerDown g l i w) = Some k
     /\ Physics.cubesRefs (Render.onPointerDown g l i w) !! k = Some m
     /\ THREE.userDataId m = Grid.id c)
  /\ (Physics.active (Physics.physics w) = false ->
      Render.onPointerDown g l i w = w)
  /\ Physics.dragRef
       (Physics.handlePointerUp (Render.onPointerDown g l i w)) = None
  /\ (forall fr w',
        Physics.useFrame fr w = Some w' ->
        List.map THREE.userDataId (Physics.cubesRefs w')
        = List.map Grid.id (Grid.allCubes g))
  /\ (forall (tl : Gsap.Timeline) (s0 : Scene.Stage) (ps : list R),
        Scene.cubesRefs s0 = Scene.mountCubes g ->
        List.map THREE.userDataId
          (Scene.cubesRefs (snd (Gsap.scrubAll ps (tl, s0))))
        = List.map Grid.id (Grid.allCubes g)).
Proof.
  intros Hc Hids.
  split; [|split; [|split; [|split]]].
  - intros Ha. unfold Render.onPointerDown, Physics.handleCubePointerDown.
    rewrite Ha. cbn [Physics.dragRef Physics.cubesRefs].
    pose proof (allCubes_at_pointerIndex g l i c Hc) as Hk.
    rewrite <- Hids in Hk.
    change (List.map THREE.userDataId (Physics.cubesRefs w))
      with (THREE.userDataId <$> Physics.cubesRefs w) in Hk.
    rewrite list_lookup_fmap in Hk.
    destruct (Physics.cubesRefs w !! Render.pointerIndex g l i)
      as [m|] eqn:E; [|discriminate].
    cbn in Hk. injection Hk as Hk.
    exists (Render.pointerIndex g l i), m.
    split; [reflexivity|]. split; [exact E|exact Hk].
  - intros Ha. unfold Render.onPointerDown, Physics.handleCubePointerDown.
    rewrite Ha. reflexivity.
  - reflexivity.
  - intros fr w' Hf. rewrite (useFrame_ids fr w w' Hf). exact Hids.
  - intros tl s0 ps Hs. rewrite scrubAll_ids. cbn [snd].
    rewrite Hs. apply mounted_ids.
Qed.

Lemma pointer_down_grabs_the_pressed_piece_witness :
  exists k m,
    Physics.dragRef (Render.onPointerDown Sample.grid Grid.mid 4 Sample.world)
    = Some k
    /\ Physics.cubesRefs
         (Render.onPointerDown Sample.grid Grid.mid 4 Sample.world) !! k
       = Some m
    /\ THREE.userDataId m = Grid.cubeId 0 0 0.
Proof.
  apply (proj1 (pointer_down_grabs_the_pressed_piece Sample.grid Grid.mid 4
                  {| Grid.id := Grid.cubeId 0 0 0;
                     Grid.localPosition :=
                       ((inject_Z 0 * ThemeQ.gap)%Q, 0%Q,
                        (inject_Z 0 * ThemeQ.gap)%Q);
                     Grid.color := Grid.pickColor 0;
                     Grid.iconType := Grid.iconFor 0 0 0;
                     Grid.layer := Grid.layerFor 0 |}
                  Sample.world eq_refl eq_refl)).
  reflexivity.
Defined.

(** * The push of the dragged piece *)

Section HeldFacts.

Import THREE Physics.
Local Open Scope R_scope.

Lemma sqrt_lt_of_sq (r s : R) : 0 <= s -> 0 < r -> s < r * r -> sqrt s < r.
Proof.
  intros Hs Hr H.
  rewrite <- (sqrt_square r) by lra.
  apply sqrt_lt_1; [exact Hs|nra|exact H].
Qed.

Lemma distanceTo_ge_dz (a b : Vector3) : z b - z a <= distanceTo a b.
Proof.
  unfold distanceTo, distanceToSquared. apply sqrt_ge_of_sq.
  pose proof (Rle_0_sqr (x a - x b)). pose proof (Rle_0_sqr (y a - y b)).
  unfold Rsqr in *. nra.
Qed.

Lemma distanceTo_ge_dy (a b : Vector3) : y b - y a <= distanceTo a b.
Proof.
  unfold distanceTo, distanceToSquared. apply sqrt_ge_of_sq.
  pose proof (Rle_0_sqr (x a - x b)). pose proof (Rle_0_sqr (z a - z b)).
  unfold Rsqr in *. nra.
Qed.

(** A goal that holds by ring once sin a * sin a + cos a * cos a is
    replaced by 1. *)
Ltac by_unit_circle a k :=
  let H := fresh "H" in
  pose proof (sin2_cos2 a) as H; unfold Rsqr in H;
  apply Rminus_diag_uniq;
  match goal with
  | |- ?l - ?r = 0 =>
      replace (l - r) with ((sin a * sin a + cos a * cos a - 1) * k) by ring
  end;
  rewrite H; ring.

(** The rotations keep distances and lengths. *)
Lemma rotateX_distance (a : R) (u v : Vector3) :
  distanceToSquared (Held.rotateX a u) (Held.rotateX a v)
  = distanceToSquared u v.
Proof.
  unfold distanceToSquared, Held.rotateX. cbn [x y z].
  by_unit_circle a ((y u - y v) * (y u - y v) + (z u - z v) * (z u - z v)).
Qed.

Lemma rotateY_distance (a : R) (u v : Vector3) :
  distanceToSquared (Held.rotateY a u) (Held.rotateY a v)
  = distanceToSquared u v.
Proof.
  unfold distanceToSquared, Held.rotateY. cbn [x y z].
  by_unit_circle a ((x u - x v) * (x u - x v) + (z u - z v) * (z u - z v)).
Qed.

Lemma rotateZ_distance (a : R) (u v : Vector3) :
  distanceToSquared (Held.rotateZ a u) (Held.rotateZ a v)
  = distanceToSquared u v.
Proof.
  unfold distanceToSquared, Held.rotateZ. cbn [x y z].
  by_unit_circle a ((x u - x v) * (x u - x v) + (y u - y v) * (y u - y v)).
Qed.

Lemma rotateX_lengthSq (a : R) (v : Vector3) :
  lengthSq (Held.rotateX a v) = lengthSq v.
Proof.
  unfold lengthSq, Held.rotateX. cbn [x y z].
  by_unit_circle a (y v * y v + z v * z v).
Qed.

Lemma rotateY_lengthSq (a : R) (v : Vector3) :
  lengthSq (Held.rotateY a v) = lengthSq v.
Proof.
  unfold lengthSq, Held.rotateY. cbn [x y z].
  by_unit_circle a (x v * x v + z v * z v).
Qed.

Lemma rotateZ_lengthSq (a : R) (v : Vector3) :
  lengthSq (Held.rotateZ a v) = lengthSq v.
Proof.
  unfold lengthSq, Held.rotateZ. cbn [x y z].
  by_unit_circle a (x v * x v + y v * y v).
Qed.

(** Under the main group, distances in the world are 0.8 times the
    distances between the pieces as placed in the main group, and the
    world position of a piece is 0.8 times as far from the origin as the
    piece is from the centre of the main group. *)
Lemma world_distance (i j : nat) (p q : Vector3) :
  distanceToSquared (Held.worldPosition i p) (Held.worldPosition j q)
  = 0.64 * distanceToSquared (Choreography.inGroup p (Held.sliceOffset i))
             (Choreography.inGroup q (Held.sliceOffset j)).
Proof.
  unfold Held.worldPosition, Held.applyEuler.
  rewrite rotateX_distance, rotateY_distance, rotateZ_distance.
  unfold distanceToSquared, multiplyScalar, Held.mainScale,
    Choreography.breakdownScale.
  cbn [x y z Sample.setup Choreography.isMobile]. lra.
Qed.

Lemma world_lengthSq (j : nat) (q : Vector3) :
  lengthSq (Held.worldPosition j q)
  = 0.64 * lengthSq (Choreography.inGroup q (Held.sliceOffset j)).
Proof.
  unfold Held.worldPosition, Held.applyEuler.
  rewrite rotateX_lengthSq, rotateY_lengthSq, rotateZ_lengthSq.
  unfold lengthSq, multiplyScalar, Held.mainScale,
    Choreography.breakdownScale.
  cbn [x y z Sample.setup Choreography.isMobile]. lra.
Qed.

Lemma held_first : Held.cubes !! 0%nat = Some Held.held.
Proof. reflexivity. Qed.

Lemma held_second : Held.cubes !! 1%nat = Some Held.neighbour.
Proof. reflexivity. Qed.

Lemma held_cube (j : nat) (m : Group) :
  (2 <= j)%nat -> Held.cubes !! j = Some m ->
  position m = vec3 0 (-5) (3 * INR j).
Proof.
  intros Hj. unfold Held.cubes. rewrite list_lookup_imap.
  destruct (Scene.mountCubes Sample.grid !! j) as [c|]; simpl;
    intros [= <-]; unfold Held.placed.
  destruct j as [|[|j]]; [lia|lia|reflexivity].
Qed.

Lemma held_roomy : roomy Held.world.
Proof.
  unfold roomy.
  assert (Hc : List.length (cubesRefs Held.world) = 27%nat) by reflexivity.
  assert (Hv : List.length (velocities (physics Held.world)) = 27%nat)
    by reflexivity.
  rewrite Hc, Hv. lia.
Qed.

(** The pointer is right under the held piece: the drag step raises it
    by a fifth of its distance to the drag height. *)
Lemma held_stays :
  lerp (position Held.held) (dragTarget Held.frame) 0.2 = vec3 0 (-4.58) 0.
Proof.
  unfold lerp, dragTarget, PHYSICS_FLOOR_Y, CUBE_THEME.floorY.
  cbn [Held.held Held.frame position mouseWorldPos x y z].
  f_equal; lra.
Qed.

(** A piece with a single other piece within the minimum separation:
    the collision loop is the one call of the rule on that piece. *)
Lemma collisions_one_near (fr : Frame) (cubes : list Group) (i k : nat)
    (mk : Group) (c : Vector3) (s : Vector3 * nat) :
  i <> k -> cubes !! k = Some mk ->
  distanceTo c (getWorldPosition fr k (position mk))
  < CUBE_THEME.collisionMinDist ->
  (forall j m, j <> i -> j <> k -> cubes !! j = Some m ->
     ~ distanceTo c (getWorldPosition fr j (position m))
       < CUBE_THEME.collisionMinDist) ->
  collisions fr cubes i c s = collide fr cubes i c k s.
Proof.
  intros Hik Hk Hnear Hfar.
  assert (Hskip : forall j s0, j <> k ->
            collide fr cubes i c j s0 = Some s0).
  { intros j s0 Hjk. unfold collide.
    destruct (Nat.eqb_spec i j) as [->|Hij]; [reflexivity|].
    destruct (cubes !! j) as [m|] eqn:E; [|reflexivity].
    destruct (Rlt_dec _ _) as [Hlt|_]; [|reflexivity].
    exfalso. apply (Hfar j m); auto. }
  pose proof (lookup_lt_Some _ _ _ Hk) as Hlt.
  unfold collisions.
  replace (List.length cubes)
    with (k + S (List.length cubes - S k))%nat by lia.
  rewrite forEachFrom_app.
  rewrite forEachFrom_fix_range by (intros j Hj; apply Hskip; lia).
  rewrite Nat.add_0_l, forEachFrom_S.
  destruct s as [v n].
  rewrite (collide_near fr cubes i k mk c v n Hik Hk Hnear).
  apply forEachFrom_fix_range. intros j Hj. apply Hskip. lia.
Qed.

(** The neighbour is within the minimum distance of the held piece,
    whether the distance is taken in the world or between their
    positions in their slice, and within the minimum separation of the
    collision rule; from the position of the held piece within its
    slice, the world position of the neighbour is not within the minimum
    distance. *)
Lemma held_distances :
  distanceTo (getWorldPosition Held.frame 0 (vec3 0 (-4.58) 0))
    (getWorldPosition Held.frame 1 (position Held.neighbour)) < dragMinDist
  /\ distanceTo (vec3 0 (-4.58) 0) (position Held.neighbour) < dragMinDist
  /\ ~ distanceTo (vec3 0 (-4.58) 0)
         (getWorldPosition Held.frame 1 (position Held.neighbour))
       < dragMinDist
  /\ distanceTo (getWorldPosition Held.frame 1 (position Held.neighbour))
       (getWorldPosition Held.frame 0 (vec3 0 (-4.58) 0))
     < CUBE_THEME.collisionMinDist.
Proof.
  unfold dragMinDist, CUBE_THEME.collisionMinDist.
  cbn [Held.frame getWorldPosition Held.neighbour position].
  split; [|split; [|split]].
  - unfold distanceTo. rewrite world_distance.
    unfold distanceToSquared, Choreography.inGroup, Held.sliceOffset.
    cbn [Nat.ltb Nat.leb x y z].
    apply sqrt_lt_of_sq; nra.
  - unfold distanceTo, distanceToSquared. cbn [x y z].
    apply sqrt_lt_of_sq; nra.
  - pose proof (world_lengthSq 1 (vec3 1 (-4.65) 0)) as Hl.
    unfold lengthSq at 2 in Hl.
    unfold Choreography.inGroup, Held.sliceOffset in Hl.
    cbn [Nat.ltb Nat.leb x y z] in Hl.
    apply Rle_not_lt.
    eapply Rle_trans; [|apply distanceTo_ge_dy].
    cbn [y]. unfold lengthSq in Hl.
    generalize dependent (Held.worldPosition 1 (vec3 1 (-4.65) 0)).
    intros [wx wy wz]. cbn [x y z]. intros Hl.
    pose proof (Rle_0_sqr wx). pose proof (Rle_0_sqr wz).
    unfold Rsqr in *. nra.
  - unfold distanceTo. rewrite world_distance.
    unfold distanceToSquared, Choreography.inGroup, Held.sliceOffset.
    cbn [Nat.ltb Nat.leb x y z].
    apply sqrt_lt_of_sq; nra.
Qed.

(** The neighbour is far from every piece on the line. *)
Lemma held_line_far (j : nat) :
  (2 <= j)%nat ->
  ~ distanceTo (getWorldPosition Held.frame 1 (position Held.neighbour))
      (getWorldPosition Held.frame j (vec3 0 (-5) (3 * INR j)))
    < CUBE_THEME.collisionMinDist.
Proof.
  intros Hj.
  assert (H2 : 2 <= INR j).
  { change 2 with (INR 2). apply le_INR. exact Hj. }
  unfold CUBE_THEME.collisionMinDist.
  cbn [Held.frame getWorldPosition Held.neighbour position].
  unfold distanceTo. rewrite world_distance.
  unfold distanceToSquared, Choreography.inGroup. cbn [x y z].
  generalize (Held.sliceOffset 1) (Held.sliceOffset j). intros o1 oj.
  apply Rle_not_lt. apply sqrt_ge_of_sq.
  pose proof (Rle_0_sqr (-4.65 + o1 - (-5 + oj))). unfold Rsqr in *. nra.
Qed.

End HeldFacts.

(** C7, on the held scene: piece 0 is held and piece 1 lies next to it,
    within the minimum distance 1.3 of the drag rule, whether the
    distance is taken in the world (0.80) or between their positions in
    their slice (1.00).  The frame handles piece 0 by the drag rule, and
    the drag rule gives piece 1 no impulse: its velocity is zero before
    the pass of piece 0 and zero after it, and what the whole frame
    leaves in it is the impulse of the collision rule of its own pass,
    damped, and nothing more.  The drag rule measures the distance from
    [mesh.position], the position of the held piece within its slice, to
    the world position of the other piece, which is not below 1.3
    here. *)
Theorem drag_push_misses_a_near_piece :
  let p' :=
    THREE.lerp (THREE.position Held.held) (Physics.dragTarget Held.frame)
      0.2 in
  let a := Physics.getWorldPosition Held.frame 0 p' in
  let b :=
    Physics.getWorldPosition Held.frame 1 (THREE.position Held.neighbour) in
  exists wd w',
    Physics.cubesRefs Held.world !! 0%nat = Some Held.held
    /\ Physics.cubesRefs Held.world !! 1%nat = Some Held.neighbour
    /\ Physics.dragRef Held.world = Some 0%nat
    /\ Physics.velocities (Physics.physics Held.world) !! 1%nat
       = Some (THREE.vec3 0 0 0)
    /\ (THREE.distanceTo a b < Physics.dragMinDist)%R
    /\ (THREE.distanceTo p' (THREE.position Held.neighbour)
        < Physics.dragMinDist)%R
    /\ ~ (THREE.distanceTo p' b < Physics.dragMinDist)%R
    /\ Physics.stepPiece Held.frame 0 Held.world = Some wd
    /\ Physics.cubesRefs wd !! 0%nat
       = Some (THREE.setPosition Held.held (THREE.vec3 0 (-4.58) 0))
    /\ Physics.velocities (Physics.physics wd) !! 1%nat
       = Some (THREE.vec3 0 0 0)
    /\ Physics.useFrame Held.frame Held.world = Some w'
    /\ Physics.cubesRefs w' !! 0%nat
       = Some (THREE.setPosition Held.held (THREE.vec3 0 (-4.58) 0))
    /\ Physics.velocities (Physics.physics w') !! 1%nat
       = Some (THREE.multiplyScalar
                 (THREE.multiplyScalar (THREE.normalize (THREE.sub b a))
                    ((CUBE_THEME.collisionMinDist - THREE.distanceTo b a)
                     * CUBE_THEME.collisionForce
                     * Physics.delta Held.frame)%R)
                 CUBE_THEME.drag).
Proof.
  intros p' a b.
  destruct (frame_of_dragged_piece Held.frame Held.world 0 Held.held
              (THREE.vec3 0 0 0) eq_refl held_roomy eq_refl held_first
              eq_refl)
    as (wi & wd & w' & Hrun & _ & _ & _ & Hstep & Hrest & Hframe & Hcd & Hdd
        & Hrd & _ & Hpush & Hc0 & _).
  injection Hrun as <-.
  unfold a, b, p'. clear a b p'.
  rewrite held_stays in Hcd, Hpush, Hc0 |- *.
  destruct held_distances as (Hnear & Hlocal & Hfar & Hcol).
  (* the push loop leaves the neighbour alone *)
  pose proof (Hpush 1%nat Held.neighbour (THREE.vec3 0 0 0) ltac:(lia)
                held_second eq_refl) as Hv1.
  unfold Physics.pushedVelocity in Hv1. cbv zeta in Hv1.
  match type of Hv1 with
  | context [Rlt_dec ?a ?b] => destruct (Rlt_dec a b) as [Hlt|_]
  end; [contradiction|].
  (* the pass of the neighbour *)
  assert (Hm0 : Physics.cubesRefs wd !! 0%nat
                = Some (THREE.setPosition Held.held
                          (THREE.vec3 0 (-4.58) 0))).
  { rewrite Hcd. apply list_lookup_insert_eq.
    apply lookup_lt_Some with Held.held. exact held_first. }
  assert (Hm1 : Physics.cubesRefs wd !! 1%nat = Some Held.neighbour).
  { rewrite Hcd. rewrite list_lookup_insert_ne by lia. exact held_second. }
  destruct (free_iteration Held.frame wd 1 Held.neighbour (THREE.vec3 0 0 0)
              Hm1 Hv1 ltac:(rewrite Hdd; discriminate))
    as (u & n & w1 & Hi & Hstep1 & _ & Hvel1 & _).
  unfold Physics.impulses in Hi. rewrite Hdd in Hi.
  unfold Physics.mouseRepulsion in Hi.
  rewrite (collisions_one_near Held.frame (Physics.cubesRefs wd) 1 0
             (THREE.setPosition Held.held (THREE.vec3 0 (-4.58) 0)))
    in Hi.
  2:{ lia. }
  2:{ exact Hm0. }
  2:{ exact Hcol. }
  2:{ intros j m Hj1 Hj0 Hm. rewrite Hcd in Hm.
      rewrite list_lookup_insert_ne in Hm by lia.
      apply held_cube in Hm; [|lia]. rewrite Hm.
      apply held_line_far. lia. }
  rewrite (collide_near Held.frame (Physics.cubesRefs wd) 1 0
             (THREE.setPosition Held.held (THREE.vec3 0 (-4.58) 0)))
    in Hi by (first [lia | exact Hm0 | exact Hcol]).
  apply (inj Some) in Hi. apply pair_equal_spec in Hi.
  destruct Hi as [Hu Hn]. subst u n.
  (* the remaining passes leave the velocity of the neighbour alone *)
  assert (Hs1 : Frames.sameShape wd w1)
    by (eapply stepPiece_sameShape; exact Hstep1).
  assert (Hr1 : Physics.roomy w1)
    by (eapply roomy_sameShape; [exact Hs1|exact Hrd]).
  assert (Hd1 : Physics.dragRef w1 = Some 0%nat).
  { destruct Hs1 as (_ & _ & E & _). rewrite E. exact Hdd. }
  change (List.length (Physics.cubesRefs Held.world) - 1)%nat
    with (S 25) in Hrest.
  rewrite forEachFrom_S, Hstep1 in Hrest.
  destruct (steps_pass Held.frame 25 2 w1 Hr1)
    as (w'' & Hrun2 & _ & _ & _ & Hvr).
  rewrite Hrest in Hrun2. injection Hrun2 as <-.
  pose proof (Hvr ltac:(intros d E; rewrite Hd1 in E; injection E as <-; lia)
                1%nat ltac:(lia)) as Hfinal.
  rewrite Hvel1 in Hfinal. rewrite integrate_spec in Hfinal.
  cbn [snd] in Hfinal.
  rewrite wallCollision_inside in Hfinal.
  2:{ pose proof (safeBoundary_ge_2 Held.frame) as H2.
      cbn [Held.neighbour THREE.position THREE.x]. lra. }
  cbn [snd] in Hfinal.
  exists wd, w'.
  split; [exact held_first|]. split; [exact held_second|].
  split; [reflexivity|]. split; [reflexivity|].
  split; [exact Hnear|]. split; [exact Hlocal|]. split; [exact Hfar|].
  split; [exact Hstep|]. split; [exact Hm0|]. split; [exact Hv1|].
  split; [exact Hframe|]. split; [exact Hc0|].
  rewrite Hfinal. f_equal. f_equal.
  cbn [THREE.setPosition THREE.position].
  repeat match goal with
         | |- context [Physics.random Held.frame ?k] =>
             change (Physics.random Held.frame k) with 0.5%R
         end.
  set (d := THREE.normalize _).
  set (k := ((CUBE_THEME.collisionMinDist - _) * _ * _)%R).
  clearbody d k. destruct d as [dx dy dz].
  unfold THREE.add, THREE.multiplyScalar. cbn [THREE.x THREE.y THREE.z].
  f_equal; lra.
Qed.

(** * The idle timeline and the first scroll phase *)

Section IdleSchedule.

Import THREE Scene Gsap.
Local Open Scope R_scope.

(** One call of [to] on a builder whose fields are known. *)
Lemma to_spec (b : Idle.Builder) (t : Target) (vx vy vz : option R)
    (d : R) (pos : Idle.Position) (l : list Idle.Tween)
    (e ps d' start e' : R) :
  Idle.tweens b = l -> Idle.endTime b = e -> Idle.prevStart b = ps ->
  d = d' ->
  match pos with
  | Idle.AtEnd => e
  | Idle.EndPlus k => e + k
  | Idle.PrevStart k => ps + k
  end = start ->
  Rmax e (start + d') = e' ->
  Idle.tweens (Idle.to b t vx vy vz d pos)
  = l ++ [Idle.fresh t vx vy vz d' start]
  /\ Idle.endTime (Idle.to b t vx vy vz d pos) = e'
  /\ Idle.prevStart (Idle.to b t vx vy vz d pos) = start.
Proof.
  intros <- <- <- <- Hs He. unfold Idle.to. cbn [Idle.tweens Idle.endTime
    Idle.prevStart].
  assert (Hr : Idle.resolve b pos = start)
    by (rewrite <- Hs; destruct pos; reflexivity).
  rewrite Hr. repeat split. exact He.
Qed.

(** The timeline as the chain of calls it is. *)
Lemma timeline_chain :
  Idle.timeline
  = Idle.to (Idle.to (Idle.to (Idle.to (Idle.to (Idle.to (Idle.to (Idle.to
      (Idle.to Idle.empty
         (SliceRotation Grid.top) None (Some (PI / 2)) None Idle.idleSpeed
         Idle.AtEnd)
      (SliceRotation Grid.bot) None (Some (- PI / 2)) None Idle.idleSpeed
      (Idle.PrevStart 0.1))
      MainRotation None None (Some (PI / 2)) (Idle.idleSpeed * 1.2)
      (Idle.EndPlus 0.1))
      (SliceRotation Grid.mid) None (Some (PI / 2)) None Idle.idleSpeed
      Idle.AtEnd)
      (SliceRotation Grid.top) None (Some PI) None Idle.idleSpeed
      (Idle.PrevStart 0.1))
      MainRotation (Some 0.2) (Some (-0.5)) (Some 0) (Idle.idleSpeed * 1.5)
      (Idle.EndPlus 0.1))
      (SliceRotation Grid.mid) None (Some 0) None Idle.idleSpeed
      (Idle.EndPlus 0.2))
      (SliceRotation Grid.top) None (Some 0) None Idle.idleSpeed
      (Idle.PrevStart 0))
      (SliceRotation Grid.bot) None (Some 0) None Idle.idleSpeed
      (Idle.PrevStart 0).
Proof. reflexivity. Qed.

(** The schedule that the position parameters give, with
    [idleSpeed = 0.8]. *)
Lemma idle_schedule :
  Idle.tweens Idle.timeline
  = [ Idle.fresh (SliceRotation Grid.top) None (Some (PI / 2)) None 0.8 0;
      Idle.fresh (SliceRotation Grid.bot) None (Some (- PI / 2)) None 0.8 0.1;
      Idle.fresh MainRotation None None (Some (PI / 2)) 0.96 1;
      Idle.fresh (SliceRotation Grid.mid) None (Some (PI / 2)) None 0.8 1.96;
      Idle.fresh (SliceRotation Grid.top) None (Some PI) None 0.8 2.06;
      Idle.fresh MainRotation (Some 0.2) (Some (-0.5)) (Some 0) 1.2 2.96;
      Idle.fresh (SliceRotation Grid.mid) None (Some 0) None 0.8 4.36;
      Idle.fresh (SliceRotation Grid.top) None (Some 0) None 0.8 4.36;
      Idle.fresh (SliceRotation Grid.bot) None (Some 0) None 0.8 4.36 ].
Proof.
  rewrite timeline_chain.
  assert (H0 : Idle.tweens Idle.empty = []
               /\ Idle.endTime Idle.empty = 0
               /\ Idle.prevStart Idle.empty = 0) by (repeat split).
  revert H0. generalize Idle.empty. intros b0 (T0 & E0 & P0).
  pose proof (to_spec b0 (SliceRotation Grid.top) None (Some (PI / 2)) None
                Idle.idleSpeed Idle.AtEnd [] 0 0 0.8 0 0.8 T0 E0 P0
                ltac:(unfold Idle.idleSpeed; lra) eq_refl
                ltac:(rewrite Rmax_right by lra; lra)) as (T1 & E1 & P1).
  revert T1 E1 P1. generalize (Idle.to b0 (SliceRotation Grid.top) None
    (Some (PI / 2)) None Idle.idleSpeed Idle.AtEnd). intros b1 T1 E1 P1.
  pose proof (to_spec b1 (SliceRotation Grid.bot) None (Some (- PI / 2)) None
                Idle.idleSpeed (Idle.PrevStart 0.1) _ 0.8 0 0.8 0.1 0.9
                T1 E1 P1
                ltac:(unfold Idle.idleSpeed; lra) ltac:(lra)
                ltac:(rewrite Rmax_right by lra; lra)) as (T2 & E2 & P2).
  revert T2 E2 P2. generalize (Idle.to b1 (SliceRotation Grid.bot) None
    (Some (- PI / 2)) None Idle.idleSpeed (Idle.PrevStart 0.1)).
  intros b2 T2 E2 P2.
  pose proof (to_spec b2 MainRotation None None (Some (PI / 2))
                (Idle.idleSpeed * 1.2) (Idle.EndPlus 0.1) _ 0.9 0.1 0.96 1
                1.96 T2 E2 P2
                ltac:(unfold Idle.idleSpeed; lra) ltac:(lra)
                ltac:(rewrite Rmax_right by lra; lra)) as (T3 & E3 & P3).
  revert T3 E3 P3. generalize (Idle.to b2 MainRotation None None
    (Some (PI / 2)) (Idle.idleSpeed * 1.2) (Idle.EndPlus 0.1)).
  intros b3 T3 E3 P3.
  pose proof (to_spec b3 (SliceRotation Grid.mid) None (Some (PI / 2)) None
                Idle.idleSpeed Idle.AtEnd _ 1.96 1 0.8 1.96 2.76 T3 E3 P3
                ltac:(unfold Idle.idleSpeed; lra) eq_refl
                ltac:(rewrite Rmax_right by lra; lra)) as (T4 & E4 & P4).
  revert T4 E4 P4. generalize (Idle.to b3 (SliceRotation Grid.mid) None
    (Some (PI / 2)) None Idle.idleSpeed Idle.AtEnd). intros b4 T4 E4 P4.
  pose proof (to_spec b4 (SliceRotation Grid.top) None (Some PI) None
                Idle.idleSpeed (Idle.PrevStart 0.1) _ 2.76 1.96 0.8 2.06
                2.86 T4 E4 P4
                ltac:(unfold Idle.idleSpeed; lra) ltac:(lra)
                ltac:(rewrite Rmax_right by lra; lra)) as (T5 & E5 & P5).
  revert T5 E5 P5. generalize (Idle.to b4 (SliceRotation Grid.top) None
    (Some PI) None Idle.idleSpeed (Idle.PrevStart 0.1)).
  intros b5 T5 E5 P5.
  pose proof (to_spec b5 MainRotation (Some 0.2) (Some (-0.5)) (Some 0)
                (Idle.idleSpeed * 1.5) (Idle.EndPlus 0.1) _ 2.86 2.06 1.2
                2.96 4.16 T5 E5 P5
                ltac:(unfold Idle.idleSpeed; lra) ltac:(lra)
                ltac:(rewrite Rmax_right by lra; lra)) as (T6 & E6 & P6).
  revert T6 E6 P6. generalize (Idle.to b5 MainRotation (Some 0.2)
    (Some (-0.5)) (Some 0) (Idle.idleSpeed * 1.5) (Idle.EndPlus 0.1)).
  intros b6 T6 E6 P6.
  pose proof (to_spec b6 (SliceRotation Grid.mid) None (Some 0) None
                Idle.idleSpeed (Idle.EndPlus 0.2) _ 4.16 2.96 0.8 4.36 5.16
                T6 E6 P6
                ltac:(unfold Idle.idleSpeed; lra) ltac:(lra)
                ltac:(rewrite Rmax_right by lra; lra)) as (T7 & E7 & P7).
  revert T7 E7 P7. generalize (Idle.to b6 (SliceRotation Grid.mid) None
    (Some 0) None Idle.idleSpeed (Idle.EndPlus 0.2)).
  intros b7 T7 E7 P7.
  pose proof (to_spec b7 (SliceRotation Grid.top) None (Some 0) None
                Idle.idleSpeed (Idle.PrevStart 0) _ 5.16 4.36 0.8 4.36 5.16
                T7 E7 P7
                ltac:(unfold Idle.idleSpeed; lra) ltac:(lra)
                ltac:(rewrite Rmax_left by lra; lra)) as (T8 & E8 & P8).
  revert T8 E8 P8. generalize (Idle.to b7 (SliceRotation Grid.top) None
    (Some 0) None Idle.idleSpeed (Idle.PrevStart 0)).
  intros b8 T8 E8 P8.
  pose proof (to_spec b8 (SliceRotation Grid.bot) None (Some 0) None
                Idle.idleSpeed (Idle.PrevStart 0) _ 5.16 4.36 0.8 4.36 5.16
                T8 E8 P8
                ltac:(unfold Idle.idleSpeed; lra) ltac:(lra)
                ltac:(rewrite Rmax_left by lra; lra)) as (T9 & _ & _).
  exact T9.
Qed.

End IdleSchedule.

Section IdleFacts.

Import THREE Scene Gsap.
Local Open Scope R_scope.

Lemma idle_targets :
  Forall (fun tw => Idle.rotationTarget (Idle.target tw))
         (Idle.tweens Idle.timeline).
Proof.
  rewrite idle_schedule.
  repeat (constructor; [exact I|]). constructor.
Qed.

Lemma renderTween_target (time : R) (tw : Idle.Tween) (s : Stage) :
  Idle.target (fst (Idle.renderTween time tw s)) = Idle.target tw.
Proof.
  unfold Idle.renderTween.
  destruct (Rlt_dec time (Idle.startAt tw)); [reflexivity|].
  destruct (Idle.finished tw); reflexivity.
Qed.

Lemma rewindTween_target (tw : Idle.Tween) (s : Stage) :
  Idle.target (fst (Idle.rewindTween tw s)) = Idle.target tw.
Proof. unfold Idle.rewindTween. destruct (Idle.from tw); reflexivity. Qed.

Lemma renderTween_other (time : R) (t : Target) (tw : Idle.Tween)
    (s : Stage) :
  t <> Idle.target tw ->
  getTarget t (snd (Idle.renderTween time tw s)) = getTarget t s.
Proof.
  intros Hne. unfold Idle.renderTween.
  destruct (Rlt_dec time (Idle.startAt tw)); [reflexivity|].
  destruct (Idle.finished tw); [reflexivity|].
  cbn [snd]. apply getTarget_setTarget_other. exact Hne.
Qed.

Lemma rewindTween_other (t : Target) (tw : Idle.Tween) (s : Stage) :
  t <> Idle.target tw ->
  getTarget t (snd (Idle.rewindTween tw s)) = getTarget t s.
Proof.
  intros Hne. unfold Idle.rewindTween.
  destruct (Idle.from tw); [|reflexivity].
  cbn [snd]. apply getTarget_setTarget_other. exact Hne.
Qed.

Lemma render_cons (time : R) (tw : Idle.Tween) (rest : list Idle.Tween)
    (s : Stage) :
  Idle.render time (tw :: rest) s
  = (fst (Idle.renderTween time tw s)
       :: fst (Idle.render time rest (snd (Idle.renderTween time tw s))),
     snd (Idle.render time rest (snd (Idle.renderTween time tw s)))).
Proof.
  cbn [Idle.render].
  destruct (Idle.renderTween time tw s) as [tw' s1]. cbn [fst snd].
  destruct (Idle.render time rest s1) as [rest' s2]. reflexivity.
Qed.

Lemma rewind_cons (tw : Idle.Tween) (rest : list Idle.Tween) (s : Stage) :
  Idle.rewind (tw :: rest) s
  = (fst (Idle.rewindTween tw (snd (Idle.rewind rest s)))
       :: fst (Idle.rewind rest s),
     snd (Idle.rewindTween tw (snd (Idle.rewind rest s)))).
Proof.
  cbn [Idle.rewind].
  destruct (Idle.rewind rest s) as [rest' s1]. cbn [fst snd].
  destruct (Idle.rewindTween tw s1) as [tw' s2]. reflexivity.
Qed.

Lemma render_targets (time : R) (tl : list Idle.Tween) :
  forall s,
    List.map Idle.target (fst (Idle.render time tl s))
    = List.map Idle.target tl.
Proof.
  induction tl as [|tw rest IH]; intros s; [reflexivity|].
  rewrite render_cons. cbn [fst List.map].
  rewrite renderTween_target, IH. reflexivity.
Qed.

Lemma rewind_targets (tl : list Idle.Tween) :
  forall s,
    List.map Idle.target (fst (Idle.rewind tl s)) = List.map Idle.target tl.
Proof.
  induction tl as [|tw rest IH]; intros s; [reflexivity|].
  rewrite rewind_cons. cbn [fst List.map].
  rewrite rewindTween_target, IH. reflexivity.
Qed.

(** A render leaves a target alone when every tween on that target is
    still ahead of the playhead or already finished. *)
Lemma render_keeps (time : R) (t : Target) (tl : list Idle.Tween) :
  forall s,
    Forall (fun tw => t <> Idle.target tw
                      \/ time < Idle.startAt tw
                      \/ Idle.finished tw = true) tl ->
    getTarget t (snd (Idle.render time tl s)) = getTarget t s.
Proof.
  induction tl as [|tw rest IH]; intros s H; [reflexivity|].
  apply Forall_cons_iff in H as [Htw Hrest].
  rewrite render_cons. cbn [snd]. rewrite (IH _ Hrest).
  destruct Htw as [Hne|[Hlt|Hfin]].
  - apply renderTween_other. exact Hne.
  - unfold Idle.renderTween.
    destruct (Rlt_dec time (Idle.startAt tw)); [reflexivity|contradiction].
  - unfold Idle.renderTween.
    destruct (Rlt_dec time (Idle.startAt tw)); [reflexivity|].
    rewrite Hfin. reflexivity.
Qed.

Lemma rewind_keeps (t : Target) (tl : list Idle.Tween) :
  forall s,
    Forall (fun tw => t <> Idle.target tw) tl ->
    getTarget t (snd (Idle.rewind tl s)) = getTarget t s.
Proof.
  induction tl as [|tw rest IH]; intros s H; [reflexivity|].
  apply Forall_cons_iff in H as [Htw Hrest].
  rewrite rewind_cons. cbn [snd].
  rewrite (rewindTween_other t tw _ Htw). apply IH. exact Hrest.
Qed.

End IdleFacts.

Section Phase1Facts.

Import THREE Scene Gsap Choreography.
Local Open Scope R_scope.

Variable c : Setup.
Variable s0 : Stage.

Lemma run_app (es1 es2 : list Phase1.Event) (st : Phase1.State) :
  Phase1.run (es1 ++ es2) st = Phase1.run es2 (Phase1.run es1 st).
Proof. apply fold_left_app. Qed.

Lemma run_cons (e : Phase1.Event) (es : list Phase1.Event)
    (st : Phase1.State) :
  Phase1.run (e :: es) st = Phase1.run es (Phase1.step e st).
Proof. reflexivity. Qed.

Lemma start_idleRot : Phase1.idleRot (Phase1.start c s0).
Proof.
  unfold Phase1.idleRot, Phase1.start. cbn [Phase1.idle].
  apply List.Forall_map. exact idle_targets.
Qed.

Lemma step_idleRot (e : Phase1.Event) (st : Phase1.State) :
  Phase1.idleRot st -> Phase1.idleRot (Phase1.step e st).
Proof.
  unfold Phase1.idleRot. intros H. destruct e as [p|time|]; cbn [Phase1.step].
  - destruct (scrub p (Phase1.tl1 st, Phase1.stage st)) as [tl' s'].
    exact H.
  - pose proof (render_targets time (Phase1.idle st) (Phase1.stage st)) as E.
    destruct (Idle.render time (Phase1.idle st) (Phase1.stage st))
      as [idle' s'].
    cbn [fst Phase1.idle] in *. rewrite E. exact H.
  - pose proof (rewind_targets (Phase1.idle st) (Phase1.stage st)) as E.
    destruct (Idle.rewind (Phase1.idle st) (Phase1.stage st)) as [idle' s'].
    cbn [fst Phase1.idle] in *. rewrite E. exact H.
Qed.

Lemma run_idleRot (es : list Phase1.Event) :
  forall st, Phase1.idleRot st -> Phase1.idleRot (Phase1.run es st).
Proof.
  induction es as [|e es IH]; intros st H; [exact H|].
  rewrite run_cons. apply IH. apply step_idleRot. exact H.
Qed.

Lemma rotation_other (t t' : Target) :
  Idle.rotationTarget t' -> t = MainPosition \/ t = MainScale -> t <> t'.
Proof. intros Hr [->| ->]; destruct t'; cbn in Hr; congruence. Qed.

(** An event of the idle timeline leaves [tl1] and the position and the
    scale of the main group as they are. *)
Lemma step_idle (e : Phase1.Event) (st : Phase1.State) (t : Target) :
  Phase1.isIdle e -> Phase1.idleRot st ->
  Phase1.tl1 (Phase1.step e st) = Phase1.tl1 st
  /\ (t = MainPosition \/ t = MainScale ->
      getTarget t (Phase1.stage (Phase1.step e st))
      = getTarget t (Phase1.stage st)).
Proof.
  intros He Hrot. unfold Phase1.idleRot in Hrot.
  rewrite List.Forall_map in Hrot.
  destruct e as [p|time|]; [destruct He| |]; cbn [Phase1.step].
  - pose proof (render_keeps time t (Phase1.idle st) (Phase1.stage st)) as K.
    destruct (Idle.render time (Phase1.idle st) (Phase1.stage st))
      as [idle' s'].
    cbn [snd Phase1.tl1 Phase1.stage] in *.
    split; [reflexivity|]. intros Ht. apply K.
    eapply Forall_impl; [|exact Hrot].
    intros tw Htw. left. apply rotation_other; assumption.
  - pose proof (rewind_keeps t (Phase1.idle st) (Phase1.stage st)) as K.
    destruct (Idle.rewind (Phase1.idle st) (Phase1.stage st)) as [idle' s'].
    cbn [snd Phase1.tl1 Phase1.stage] in *.
    split; [reflexivity|]. intros Ht. apply K.
    eapply Forall_impl; [|exact Hrot].
    intros tw Htw. apply rotation_other; assumption.
Qed.

Lemma run_idle (es : list Phase1.Event) (t : Target) :
  Forall Phase1.isIdle es ->
  forall st,
    Phase1.idleRot st ->
    Phase1.tl1 (Phase1.run es st) = Phase1.tl1 st
    /\ (t = MainPosition \/ t = MainScale ->
        getTarget t (Phase1.stage (Phase1.run es st))
        = getTarget t (Phase1.stage st)).
Proof.
  induction es as [|e es IH]; intros Hes st Hrot; [split; reflexivity|].
  apply Forall_cons_iff in Hes as [He Hes]. rewrite run_cons.
  destruct (step_idle e st t He Hrot) as [E1 E2].
  destruct (IH Hes (Phase1.step e st) (step_idleRot e st Hrot)) as [F1 F2].
  split; [congruence|]. intros Ht. rewrite (F2 Ht). apply E2. exact Ht.
Qed.

(** The first render of [tl1], on the stage [stage st]. *)
Lemma step_scroll_fresh (p : R) (st : Phase1.State) :
  Phase1.tl1 st = tl1 c ->
  Phase1.tl1 (Phase1.step (Phase1.Scroll p) st)
  = primed (Phase1.stage st) (tl1 c)
  /\ Forall (fun tw =>
               getTarget (target tw)
                 (Phase1.stage (Phase1.step (Phase1.Scroll p) st))
               = tweenValue tw (getTarget (target tw) (Phase1.stage st))
                   (p * totalDuration (tl1 c))) (tl1 c).
Proof.
  intros Htl. cbn [Phase1.step]. unfold scrub. cbn [fst snd]. rewrite Htl.
  destruct (renderTweens_spec (p * totalDuration (tl1 c)) (tl1 c)
              (Phase1.stage st) (tl1_NoDup c) (tl1_valid c (Phase1.stage st)))
    as [Hf Hvals].
  destruct (renderTweens (p * totalDuration (tl1 c)) (tl1 c)
              (Phase1.stage st)) as [tl' s'].
  cbn [fst snd Phase1.tl1 Phase1.stage] in *.
  split; [exact Hf|].
  pose proof (tl1_fresh c) as Hfresh.
  rewrite List.Forall_forall in *. intros tw Hin.
  rewrite (Hvals tw Hin). unfold startOf.
  destruct (Hfresh tw Hin) as [-> _]. reflexivity.
Qed.

(** A later render of [tl1], whose tweens have recorded their start
    values on the stage [sr]. *)
Lemma step_scroll_primed (p : R) (st : Phase1.State) (sr : Stage) :
  Phase1.tl1 st = primed sr (tl1 c) ->
  Phase1.tl1 (Phase1.step (Phase1.Scroll p) st) = primed sr (tl1 c)
  /\ Forall (fun tw =>
               getTarget (target tw)
                 (Phase1.stage (Phase1.step (Phase1.Scroll p) st))
               = tweenValue tw (getTarget (target tw) sr)
                   (p * totalDuration (tl1 c))) (tl1 c).
Proof.
  intros Htl. cbn [Phase1.step]. unfold scrub. cbn [fst snd]. rewrite Htl.
  rewrite totalDuration_primed.
  assert (Hnd : List.NoDup (List.map target (primed sr (tl1 c))))
    by (rewrite primed_targets; apply tl1_NoDup).
  assert (Hv : Forall (validTarget (Phase1.stage st))
                 (List.map target (primed sr (tl1 c))))
    by (rewrite primed_targets; apply tl1_valid).
  destruct (renderTweens_spec (p * totalDuration (tl1 c)) (primed sr (tl1 c))
              (Phase1.stage st) Hnd Hv) as [Hf Hvals].
  destruct (renderTweens (p * totalDuration (tl1 c)) (primed sr (tl1 c))
              (Phase1.stage st)) as [tl' s'].
  cbn [fst snd Phase1.tl1 Phase1.stage] in *.
  split; [rewrite Hf; apply primed_primed|].
  unfold primed in Hvals. rewrite List.Forall_map in Hvals.
  pose proof (tl1_fresh c) as Hfresh.
  rewrite List.Forall_forall in *. intros tw Hin.
  specialize (Hvals tw Hin). cbn [setFrom target] in Hvals.
  rewrite Hvals. rewrite tweenValue_setFrom. unfold startOf.
  cbn [setFrom from]. destruct (Hfresh tw Hin) as [-> _]. reflexivity.
Qed.

Lemma run_primed (es : list Phase1.Event) :
  forall st sr,
    Phase1.idleRot st ->
    Phase1.tl1 st = primed sr (tl1 c) ->
    Phase1.tl1 (Phase1.run es st) = primed sr (tl1 c).
Proof.
  induction es as [|e es IH]; intros st sr Hrot Htl; [exact Htl|].
  rewrite run_cons. apply IH; [apply step_idleRot; exact Hrot|].
  destruct e as [p|time|].
  - apply (step_scroll_primed p st sr Htl).
  - rewrite (proj1 (step_idle (Phase1.Tick time) st MainPosition I Hrot)).
    exact Htl.
  - rewrite (proj1 (step_idle Phase1.Repeat st MainPosition I Hrot)).
    exact Htl.
Qed.

(** Whatever the history, [tl1] holds the position and the scale that
    the main group had on [s0]. *)
Lemma step_recorded (e : Phase1.Event) (st : Phase1.State) :
  Phase1.idleRot st -> Phase1.recorded c s0 st ->
  Phase1.recorded c s0 (Phase1.step e st).
Proof.
  intros Hrot Hrec. destruct e as [p|time|].
  - right. destruct Hrec as [(Htl & Hp & Hs)|(sr & Htl & Hp & Hs)].
    + exists (Phase1.stage st).
      split; [apply (step_scroll_fresh p st Htl)|]. split; assumption.
    + exists sr. split; [apply (step_scroll_primed p st sr Htl)|].
      split; assumption.
  - destruct (step_idle (Phase1.Tick time) st MainPosition I Hrot)
      as [E1 E2].
    destruct (step_idle (Phase1.Tick time) st MainScale I Hrot) as [_ E3].
    destruct Hrec as [(Htl & Hp & Hs)|(sr & Htl & Hp & Hs)].
    + left. rewrite E1, E2, E3 by auto. repeat split; assumption.
    + right. exists sr. rewrite E1. repeat split; assumption.
  - destruct (step_idle Phase1.Repeat st MainPosition I Hrot) as [E1 E2].
    destruct (step_idle Phase1.Repeat st MainScale I Hrot) as [_ E3].
    destruct Hrec as [(Htl & Hp & Hs)|(sr & Htl & Hp & Hs)].
    + left. rewrite E1, E2, E3 by auto. repeat split; assumption.
    + right. exists sr. rewrite E1. repeat split; assumption.
Qed.

Lemma run_recorded (es : list Phase1.Event) :
  forall st,
    Phase1.idleRot st -> Phase1.recorded c s0 st ->
    Phase1.recorded c s0 (Phase1.run es st).
Proof.
  induction es as [|e es IH]; intros st Hrot Hrec; [exact Hrec|].
  rewrite run_cons.
  apply IH; [apply step_idleRot|apply step_recorded]; assumption.
Qed.

Lemma start_recorded : Phase1.recorded c s0 (Phase1.start c s0).
Proof. left. repeat split. Qed.

(** The position and the scale right after a render of [tl1]. *)
Lemma scroll_recorded (p : R) (st : Phase1.State) (tw : Tween) :
  Phase1.recorded c s0 st -> In tw (tl1 c) ->
  target tw = MainPosition \/ target tw = MainScale ->
  getTarget (target tw) (Phase1.stage (Phase1.step (Phase1.Scroll p) st))
  = tweenValue tw (getTarget (target tw) s0) (p * totalDuration (tl1 c)).
Proof.
  intros Hrec Hin Ht.
  destruct Hrec as [(Htl & Hp & Hs)|(sr & Htl & Hp & Hs)].
  - destruct (step_scroll_fresh p st Htl) as [_ Hvals].
    rewrite List.Forall_forall in Hvals. rewrite (Hvals tw Hin).
    destruct Ht as [E|E]; rewrite E; congruence.
  - destruct (step_scroll_primed p st sr Htl) as [_ Hvals].
    rewrite List.Forall_forall in Hvals. rewrite (Hvals tw Hin).
    destruct Ht as [E|E]; rewrite E; congruence.
Qed.

Lemma tl1_other_targets (tw : Tween) :
  In tw (tl1 c) -> target tw <> MainRotation ->
  target tw = MainPosition \/ target tw = MainScale.
Proof.
  intros Hin Hne. apply (in_map target) in Hin.
  rewrite tl1_targets in Hin.
  destruct Hin as [E|[E|[E|[]]]]; [congruence|left|right]; congruence.
Qed.

(** The position and the scale of the main group after any history, a
    render of [tl1] at progress [p] and further events of the idle
    timeline. *)
Lemma phase1_position_scale (hist tail : list Phase1.Event) (p : R)
    (tw : Tween) :
  Forall Phase1.isIdle tail -> In tw (tl1 c) -> target tw <> MainRotation ->
  getTarget (target tw)
    (Phase1.stage
       (Phase1.run (hist ++ Phase1.Scroll p :: tail) (Phase1.start c s0)))
  = tweenValue tw (getTarget (target tw) s0) (p * totalDuration (tl1 c)).
Proof.
  intros Htail Hin Hne.
  pose proof (tl1_other_targets tw Hin Hne) as Ht.
  rewrite run_app, run_cons.
  set (st := Phase1.run hist (Phase1.start c s0)).
  assert (Hrot : Phase1.idleRot st) by (apply run_idleRot, start_idleRot).
  assert (Hrec : Phase1.recorded c s0 st)
    by (apply run_recorded; [apply start_idleRot|apply start_recorded]).
  destruct (run_idle tail (target tw) Htail
              (Phase1.step (Phase1.Scroll p) st)
              (step_idleRot _ _ Hrot)) as [_ Hkeep].
  rewrite (Hkeep Ht). apply scroll_recorded; assumption.
Qed.

(** Every transform [tl1] writes, right after a render of [tl1] that
    follows its first render. *)
Lemma phase1_after_render (idles es : list Phase1.Event) (p1 p : R) :
  Forall Phase1.isIdle idles ->
  Forall (fun tw =>
            getTarget (target tw)
              (Phase1.stage
                 (Phase1.run
                    (idles ++ Phase1.Scroll p1 :: es ++ [Phase1.Scroll p])
                    (Phase1.start c s0)))
            = tweenValue tw
                (getTarget (target tw)
                   (Phase1.stage (Phase1.run idles (Phase1.start c s0))))
                (p * totalDuration (tl1 c))) (tl1 c).
Proof.
  intros Hidle.
  rewrite run_app, run_cons, run_app. cbn [Phase1.run fold_left].
  set (st1 := Phase1.run idles (Phase1.start c s0)).
  assert (Hrot1 : Phase1.idleRot st1) by (apply run_idleRot, start_idleRot).
  destruct (run_idle idles MainPosition Hidle (Phase1.start c s0)
              start_idleRot) as [Htl1 _].
  fold st1 in Htl1. cbn [Phase1.start Phase1.tl1] in Htl1.
  destruct (step_scroll_fresh p1 st1 Htl1) as [Htl2 _].
  set (st2 := Phase1.step (Phase1.Scroll p1) st1) in *.
  assert (Hrot2 : Phase1.idleRot st2) by (apply step_idleRot; exact Hrot1).
  pose proof (run_primed es st2 (Phase1.stage st1) Hrot2 Htl2) as Htl3.
  change (fold_left (fun acc e => Phase1.step e acc) es st2)
    with (Phase1.run es st2).
  apply (step_scroll_primed p (Phase1.run es st2) (Phase1.stage st1) Htl3).
Qed.

End Phase1Facts.

Section IdleTick.

Import THREE Scene Gsap Choreography.
Local Open Scope R_scope.

Lemma idle_ease_1 : Idle.ease 1 = 1.
Proof.
  unfold Idle.ease, easeInOut.
  destruct (Rlt_dec 1 0.5) as [H|_]; [lra|].
  replace ((1 - 1) * 2) with 0 by lra. cbn [pow]. lra.
Qed.

(** The idle timeline rendered for the first time with its playhead at
    2 s, past the end of its third tween (1 s to 1.96 s) and before its
    sixth (from 2.96 s): the rotation of the main group keeps its x and y
    and gets z = pi / 2. *)
Lemma tick_after_third_tween (s : Stage) :
  getTarget MainRotation (snd (Idle.render 2 (Idle.tweens Idle.timeline) s))
  = vec3 (x (getTarget MainRotation s)) (y (getTarget MainRotation s))
         (PI / 2).
Proof.
  rewrite idle_schedule.
  rewrite render_cons. cbn [snd]. rewrite render_cons. cbn [snd].
  rewrite render_cons. cbn [snd].
  rewrite render_keeps.
  2:{ repeat (constructor;
              [first [ left; discriminate
                     | right; left; cbn [Idle.fresh Idle.startAt]; lra ]|]).
      constructor. }
  set (s1 := snd (Idle.renderTween 2 _ s)).
  set (s2 := snd (Idle.renderTween 2 _ s1)).
  assert (E2 : getTarget MainRotation s2 = getTarget MainRotation s).
  { unfold s2. rewrite renderTween_other by discriminate.
    unfold s1. apply renderTween_other. discriminate. }
  unfold Idle.renderTween.
  cbn [Idle.fresh Idle.startAt Idle.finished Idle.from Idle.target].
  destruct (Rlt_dec 2 1) as [H|_]; [lra|].
  cbn [snd]. rewrite getTarget_setTarget_same by exact I.
  unfold Idle.value, Idle.component, Idle.progress, Idle.ended.
  cbn [Idle.rendered Idle.fresh Idle.toX Idle.toY Idle.toZ Idle.startAt
       Idle.duration].
  destruct (Rle_dec (1 + 0.96) 2) as [_|H]; [|lra].
  rewrite idle_ease_1, E2. f_equal. lra.
Qed.

End IdleTick.

(** C8 as stated fails in the first phase, in which the idle timeline
    plays: on the desktop scene the scroll is driven to progress 1 and
    back to 0, which puts the rotation of the main group back at
    (0.3, -0.5, 0); the idle timeline, rendered at 2 s, then has the
    rotation at (0.3, -0.5, pi / 2).  A second trip to progress 1 and
    back to 0, begun there, ends with the rotation at (0.3, -0.5, 0)
    again, not where that trip began. *)
Lemma idle_breaks_round_trip :
  let final :=
    Phase1.stage
      (Phase1.run [Phase1.Scroll 1; Phase1.Scroll 0; Phase1.Tick 2]
         (Phase1.start Sample.setup Sample.stage)) in
  let again :=
    Phase1.stage
      (Phase1.run [Phase1.Scroll 1; Phase1.Scroll 0; Phase1.Tick 2;
                   Phase1.Scroll 1; Phase1.Scroll 0]
         (Phase1.start Sample.setup Sample.stage)) in
  Gsap.getTarget Gsap.MainRotation Sample.stage = THREE.vec3 0.3 (-0.5) 0
  /\ Gsap.getTarget Gsap.MainRotation
       (Phase1.stage
          (Phase1.run [Phase1.Scroll 1; Phase1.Scroll 0]
             (Phase1.start Sample.setup Sample.stage)))
     = THREE.vec3 0.3 (-0.5) 0
  /\ Gsap.getTarget Gsap.MainRotation final = THREE.vec3 0.3 (-0.5) (PI / 2)
  /\ Gsap.getTarget Gsap.MainRotation final
     <> Gsap.getTarget Gsap.MainRotation Sample.stage
  /\ Gsap.getTarget Gsap.MainRotation again = THREE.vec3 0.3 (-0.5) 0
  /\ Gsap.getTarget Gsap.MainRotation again
     <> Gsap.getTarget Gsap.MainRotation final.
Proof.
  intros final again.
  assert (Hstart : Gsap.getTarget Gsap.MainRotation Sample.stage
                   = THREE.vec3 0.3 (-0.5) 0) by reflexivity.
  assert (Hback : forall es,
            Gsap.getTarget Gsap.MainRotation
              (Phase1.stage
                 (Phase1.run (Phase1.Scroll 1 :: es ++ [Phase1.Scroll 0])
                    (Phase1.start Sample.setup Sample.stage)))
            = THREE.vec3 0.3 (-0.5) 0).
  { intros es.
    pose proof (phase1_after_render Sample.setup Sample.stage [] es 1 0
                  ltac:(constructor)) as Hb.
    cbn [List.app] in Hb.
    apply Forall_cons_iff in Hb as [Hrot _].
    cbn [Gsap.to Gsap.target] in Hrot.
    rewrite tweenValue_start in Hrot by (cbn [Gsap.to Gsap.startAt]; lra).
    change (Phase1.run [] (Phase1.start Sample.setup Sample.stage))
      with (Phase1.start Sample.setup Sample.stage) in Hrot.
    cbn [Phase1.start Phase1.stage] in Hrot. rewrite Hstart in Hrot.
    exact Hrot. }
  pose proof (Hback []) as Hrot. cbn [List.app] in Hrot.
  pose proof (Hback [Phase1.Scroll 0; Phase1.Tick 2; Phase1.Scroll 1])
    as Hagain.
  cbn [List.app] in Hagain. fold again in Hagain.
  assert (Hfinal : Gsap.getTarget Gsap.MainRotation final
                   = THREE.vec3 0.3 (-0.5) (PI / 2)).
  { unfold final.
    change [Phase1.Scroll 1; Phase1.Scroll 0; Phase1.Tick 2]
      with ([Phase1.Scroll 1; Phase1.Scroll 0] ++ [Phase1.Tick 2]).
    rewrite run_app.
    set (st := Phase1.run [Phase1.Scroll 1; Phase1.Scroll 0]
                 (Phase1.start Sample.setup Sample.stage)) in *.
    assert (Hidle : Phase1.idle st = Idle.tweens Idle.timeline).
    { unfold st. cbn [Phase1.run fold_left Phase1.step].
      destruct (Gsap.scrub 1 _) as [tl' s']. cbn [Phase1.tl1 Phase1.stage].
      destruct (Gsap.scrub 0 _) as [tl'' s'']. reflexivity. }
    cbn [Phase1.run fold_left Phase1.step]. rewrite Hidle.
    pose proof (tick_after_third_tween (Phase1.stage st)) as Htick.
    destruct (Idle.render 2 (Idle.tweens Idle.timeline) (Phase1.stage st))
      as [idle' s'].
    cbn [snd Phase1.stage] in *. rewrite Htick, Hrot. reflexivity. }
  assert (Hpi : THREE.vec3 0.3 (-0.5) (PI / 2) <> THREE.vec3 0.3 (-0.5) 0).
  { intros E. pose proof (f_equal THREE.z E) as Ez. cbn [THREE.z] in Ez.
    pose proof PI_RGT_0. lra. }
  split; [exact Hstart|]. split; [exact Hrot|]. split; [exact Hfinal|].
  split; [rewrite Hfinal, Hstart; exact Hpi|].
  split; [exact Hagain|].
  rewrite Hfinal, Hagain. intros E. apply Hpi. symmetry. exact E.
Qed.

(** C8, as the code has it.  In the first phase the idle timeline plays
    beside [tl1].  Right after a render of [tl1] at progress [p] that
    follows its first render, every transform [tl1] writes (rotation,
    position and scale of the main group) is the interpolation, at [p],
    from the value it had when [tl1] was first rendered, and at progress
    0 it is that value again, whatever the idle timeline has written in
    between.  The position and the scale, which the idle timeline never
    writes, are moreover functions of the last progress alone after any
    history and any further idle events, and back at their starting
    values at progress 0; the rotation is not, since the idle timeline
    writes it too.  In the second phase, in which the idle timeline is
    paused, every transform [tl2] writes is a function of the last
    progress alone and returns to its starting value at progress 0. *)
Theorem scrub_phases_are_reversible (c : Choreography.Setup)
    (g : Grid.CubeGridState) (s0 : Scene.Stage)
    (idles es hist tail : list Phase1.Event) (p1 p : R) (ps : list R) :
  Forall Phase1.isIdle idles -> Forall Phase1.isIdle tail ->
  let first := Phase1.stage (Phase1.run idles (Phase1.start c s0)) in
  let after q :=
    Phase1.stage
      (Phase1.run (idles ++ Phase1.Scroll p1 :: es ++ [Phase1.Scroll q])
         (Phase1.start c s0)) in
  let later q :=
    Phase1.stage
      (Phase1.run (hist ++ Phase1.Scroll q :: tail) (Phase1.start c s0)) in
  Forall (fun tw =>
            Gsap.getTarget (Gsap.target tw) (after p)
            = Gsap.tweenValue tw (Gsap.getTarget (Gsap.target tw) first)
                (p * Gsap.totalDuration (Choreography.tl1 c))
            /\ Gsap.getTarget (Gsap.target tw) (after 0%R)
               = Gsap.getTarget (Gsap.target tw) first
            /\ (Gsap.target tw <> Gsap.MainRotation ->
                Gsap.getTarget (Gsap.target tw) (later p)
                = Gsap.tweenValue tw (Gsap.getTarget (Gsap.target tw) s0)
                    (p * Gsap.totalDuration (Choreography.tl1 c))
                /\ Gsap.getTarget (Gsap.target tw) (later 0%R)
                   = Gsap.getTarget (Gsap.target tw) s0))
         (Choreography.tl1 c)
  /\ Forall (fun tw =>
               Gsap.getTarget (Gsap.target tw)
                 (snd (Gsap.scrubAll (ps ++ [p])
                         (Choreography.tl2 c g s0, s0)))
               = Gsap.tweenValue tw (Gsap.getTarget (Gsap.target tw) s0)
                   (p * Gsap.totalDuration (Choreography.tl2 c g s0))
               /\ Gsap.getTarget (Gsap.target tw)
                    (snd (Gsap.scrubAll (ps ++ [0%R])
                            (Choreography.tl2 c g s0, s0)))
                  = Gsap.getTarget (Gsap.target tw) s0)
            (Choreography.tl2 c g s0).
Proof.
  intros Hidles Htail first after later.
  split.
  - pose proof (phase1_after_render c s0 idles es p1 p Hidles) as Hp.
    pose proof (phase1_after_render c s0 idles es p1 0 Hidles) as H0.
    pose proof (tl1_fresh c) as Hfresh.
    rewrite List.Forall_forall in Hp, H0, Hfresh |- *. intros tw Hin.
    destruct (Hfresh tw Hin) as [_ Hat].
    split; [exact (Hp tw Hin)|].
    split.
    + unfold after. rewrite (H0 tw Hin).
      apply tweenValue_start. rewrite Hat. lra.
    + intros Hne. unfold later.
      rewrite !(phase1_position_scale c s0 hist tail _ tw Htail Hin Hne).
      split; [reflexivity|]. apply tweenValue_start. rewrite Hat. lra.
  - apply scrub_pure; [apply tl2_NoDup|apply tl2_valid|apply tl2_fresh].
Qed.

Lemma scrub_phases_are_reversible_witness :
  Gsap.getTarget Gsap.MainPosition
    (Phase1.stage
       (Phase1.run
          ([Phase1.Tick 0.5; Phase1.Scroll 1; Phase1.Tick 2]
           ++ Phase1.Scroll 0 :: [Phase1.Tick 3; Phase1.Repeat])
          (Phase1.start Sample.setup Sample.stage)))
  = Gsap.getTarget Gsap.MainPosition Sample.stage.
Proof.
  pose proof (proj1 (scrub_phases_are_reversible Sample.setup Sample.grid
                       Sample.stage [Phase1.Tick 0.5]
                       [Phase1.Tick 1; Phase1.Scroll 1]
                       [Phase1.Tick 0.5; Phase1.Scroll 1; Phase1.Tick 2]
                       [Phase1.Tick 3; Phase1.Repeat] 0.5 0.25 [0.5%R]
                       ltac:(repeat constructor)
                       ltac:(repeat constructor))) as H.
  apply Forall_cons_iff in H as [_ H].
  apply Forall_cons_iff in H as [(_ & _ & H) _].
  exact (proj2 (H ltac:(discriminate))).
Defined.

(** X19: in the second phase every transform [tl2] writes lies, at
    every progress value and after any scroll history, component by
    component between its starting value and its end value; in the first
    phase so do the position and the scale of the main group, whatever
    the idle timeline does in between and afterwards.  The power eases
    never overshoot, and progress outside [0, 1] is clamped. *)
Theorem scrub_phases_never_overshoot (c : Choreography.Setup)
    (g : Grid.CubeGridState) (s0 : Scene.Stage) (ps : list R) (p : R)
    (hist tail : list Phase1.Event) :
  Forall Phase1.isIdle tail ->
  Forall (fun tw =>
            Gsap.target tw <> Gsap.MainRotation ->
            Segments.within (Gsap.getTarget (Gsap.target tw) s0)
              (Gsap.toVars tw)
              (Gsap.getTarget (Gsap.target tw)
                 (Phase1.stage
                    (Phase1.run (hist ++ Phase1.Scroll p :: tail)
                       (Phase1.start c s0)))))
         (Choreography.tl1 c)
  /\ Forall (fun tw =>
               Segments.within (Gsap.getTarget (Gsap.target tw) s0)
                 (Gsap.toVars tw)
                 (Gsap.getTarget (Gsap.target tw)
                    (snd (Gsap.scrubAll (ps ++ [p])
                            (Choreography.tl2 c g s0, s0)))))
            (Choreography.tl2 c g s0).
Proof.
  intros Htail. split.
  - pose proof (tl1_durations c) as Hd.
    rewrite List.Forall_forall in Hd |- *. intros tw Hin Hne.
    rewrite (phase1_position_scale c s0 hist tail p tw Htail Hin Hne).
    apply tweenValue_within. apply Hd. exact Hin.
  - pose proof (scrub_ends_and_stays (Choreography.tl2 c g s0) s0 ps p
                  (tl2_NoDup c g s0) (tl2_valid c g s0) (tl2_fresh c g s0)
                  (tl2_durations c g s0)) as H2.
    eapply Forall_impl; [|exact H2]. intros tw [_ E]. exact E.
Qed.

Lemma scrub_phases_never_overshoot_witness :
  Segments.within (Gsap.getTarget Gsap.MainScale Sample.stage)
    (THREE.vec3 (Choreography.detailScale Sample.setup)
       (Choreography.detailScale Sample.setup)
       (Choreography.detailScale Sample.setup))
    (Gsap.getTarget Gsap.MainScale
       (Phase1.stage
          (Phase1.run
             ([Phase1.Tick 0.5; Phase1.Scroll 1; Phase1.Tick 2]
              ++ Phase1.Scroll 0.25 :: [Phase1.Tick 3; Phase1.Repeat])
             (Phase1.start Sample.setup Sample.stage)))).
Proof.
  pose proof (proj1 (scrub_phases_never_overshoot Sample.setup Sample.grid
                       Sample.stage [] 0.25
                       [Phase1.Tick 0.5; Phase1.Scroll 1; Phase1.Tick 2]
                       [Phase1.Tick 3; Phase1.Repeat]
                       ltac:(repeat constructor))) as H.
  apply Forall_cons_iff in H as [_ H].
  apply Forall_cons_iff in H as [_ H].
  apply Forall_cons_iff in H as [H _].
  exact (H ltac:(discriminate)).
Defined.

(** * Collisions within a frame *)

Section CollisionOrder.

Import THREE Physics Frames.
Local Open Scope R_scope.

Variable fr : Frame.

(** The collision rule is antisymmetric in the two positions when the
    jitter draws are at their midpoint. *)
Lemma collide_antisymmetric (cubes : list Group) (i j : nat)
    (mi mj : Group) (vi vj : Vector3) (n m : nat) :
  i <> j -> cubes !! i = Some mi -> cubes !! j = Some mj ->
  (forall k, random fr k = 0.5) ->
  let a := getWorldPosition fr i (position mi) in
  let b := getWorldPosition fr j (position mj) in
  distanceTo a b < CUBE_THEME.collisionMinDist ->
  exists impulse,
    collide fr cubes i a j (vi, n) = Some (add vi impulse, S (S n))
    /\ collide fr cubes j b i (vj, m)
       = Some (add vj (multiplyScalar impulse (-1)), S (S m))
    /\ (a <> b -> 0 <= delta fr ->
        length impulse
        = (CUBE_THEME.collisionMinDist - distanceTo a b)
          * CUBE_THEME.collisionForce * delta fr).
Proof.
  intros Hij Hi Hj Hrnd a b Hd.
  assert (Hd' : distanceTo b a < CUBE_THEME.collisionMinDist)
    by (rewrite distanceTo_sym; exact Hd).
  rewrite (collide_near fr cubes i j mj a vi n Hij Hj Hd).
  rewrite (collide_near fr cubes j i mi b vj m (not_eq_sym Hij) Hi Hd').
  fold a b. rewrite !Hrnd. rewrite (distanceTo_sym b a).
  rewrite (normalize_flip a b).
  set (dir := normalize (sub a b)).
  set (k := (CUBE_THEME.collisionMinDist - distanceTo a b)
            * CUBE_THEME.collisionForce * delta fr).
  exists (multiplyScalar dir k).
  split; [|split].
  - f_equal. f_equal. f_equal.
    unfold multiplyScalar. cbn [x y z]. f_equal; ring.
  - f_equal. f_equal. f_equal.
    unfold multiplyScalar. cbn [x y z]. f_equal; ring.
  - intros Hab Hdelta.
    assert (Hk : 0 <= k).
    { unfold k, CUBE_THEME.collisionForce.
      assert (Hpos : 0 < CUBE_THEME.collisionMinDist - distanceTo a b)
        by lra.
      revert Hpos. generalize (CUBE_THEME.collisionMinDist - distanceTo a b).
      intros gap Hgap. nra. }
    rewrite length_scale by exact Hk.
    unfold dir. rewrite normalize_unit; [ring|].
    rewrite distanceTo_sub. intros H0. apply Hab.
    apply distanceTo_zero. exact H0.
Qed.

(** Two pieces [i < j] in a frame in which nothing is dragged: the pass
    of [i] reads [j] where the frame found it; the pass of [j] reads [i]
    where the pass of [i] has put it. *)
Lemma pass_order (w : World) (i j : nat) (mi mj : Group)
    (vi vj : Vector3) :
  roomy w -> dragRef w = None -> (i < j)%nat ->
  cubesRefs w !! i = Some mi -> cubesRefs w !! j = Some mj ->
  velocities (physics w) !! i = Some vi ->
  velocities (physics w) !! j = Some vj ->
  exists wi ui ni wj,
    forEachFrom i 0 (stepPiece fr) w = Some wi
    /\ cubesRefs wi !! i = Some mi /\ cubesRefs wi !! j = Some mj
    /\ impulses fr wi i mi vi = Some (ui, ni)
    /\ forEachFrom j 0 (stepPiece fr) w = Some wj
    /\ cubesRefs wj !! i
       = Some (setPosition mi (fst (integrate fr i (position mi) ui)))
    /\ cubesRefs wj !! j = Some mj
    /\ velocities (physics wj) !! j = Some vj.
Proof.
  intros Hr Hd Hij Hmi Hmj Hvi Hvj.
  assert (Hnone : forall w0 k n, dragRef w0 = None ->
            forall d, dragRef w0 = Some d -> (d < k \/ k + n <= d)%nat)
    by (intros w0 k n E d E'; congruence).
  destruct (steps_pass fr i 0 w Hr) as (wi & Hrun & Hsi & Hri & Hci & Hvel).
  specialize (Hvel (Hnone w 0%nat i Hd)).
  assert (Hdi : dragRef wi = None)
    by (destruct Hsi as (_ & _ & E & _); congruence).
  assert (Hmi' : cubesRefs wi !! i = Some mi)
    by (rewrite (Hci i) by lia; exact Hmi).
  assert (Hmj' : cubesRefs wi !! j = Some mj)
    by (rewrite (Hci j) by lia; exact Hmj).
  assert (Hvi' : velocities (physics wi) !! i = Some vi)
    by (rewrite (Hvel i) by lia; exact Hvi).
  assert (Hvj' : velocities (physics wi) !! j = Some vj)
    by (rewrite (Hvel j) by lia; exact Hvj).
  destruct (free_iteration fr wi i mi vi Hmi' Hvi'
              ltac:(rewrite Hdi; discriminate))
    as (ui & ni & wi' & Hi & Hstep & Hc' & _ & Hother).
  assert (Hs' : sameShape wi wi')
    by (eapply stepPiece_sameShape; exact Hstep).
  assert (Hri' : roomy wi') by (eapply roomy_sameShape; eauto).
  assert (Hdi' : dragRef wi' = None)
    by (destruct Hs' as (_ & _ & E & _); congruence).
  destruct (steps_pass fr (j - S i) (S i) wi' Hri')
    as (wj & Hrest & _ & _ & Hcj & Hvelj).
  specialize (Hvelj (Hnone wi' (S i) (j - S i)%nat Hdi')).
  destruct (Hother j ltac:(lia)) as [Ec Ev].
  exists wi, ui, ni, wj.
  split; [exact Hrun|]. split; [exact Hmi'|]. split; [exact Hmj'|].
  split; [exact Hi|].
  split.
  { replace j with (i + S (j - S i))%nat at 1 by lia.
    rewrite forEachFrom_app, Hrun. rewrite Nat.add_0_l.
    rewrite forEachFrom_S, Hstep. exact Hrest. }
  split; [rewrite (Hcj i) by lia; exact Hc'|].
  split; [rewrite (Hcj j) by lia; congruence|].
  rewrite (Hvelj j) by lia. congruence.
Qed.

Lemma near_roomy : roomy Near.world.
Proof.
  unfold roomy.
  assert (Hc : List.length (cubesRefs Near.world) = 27%nat) by reflexivity.
  assert (Hv : List.length (velocities (physics Near.world)) = 27%nat)
    by reflexivity.
  rewrite Hc, Hv. lia.
Qed.

Lemma near_first : Near.cubes !! 0%nat = Some Near.first.
Proof. reflexivity. Qed.

Lemma near_second : Near.cubes !! 1%nat = Some Near.second.
Proof. reflexivity. Qed.

Lemma near_distance :
  distanceTo (getWorldPosition Sample.frame 0 (position Near.first))
    (getWorldPosition Sample.frame 1 (position Near.second))
  < CUBE_THEME.collisionMinDist.
Proof.
  unfold CUBE_THEME.collisionMinDist, distanceTo, distanceToSquared.
  cbn [Sample.frame getWorldPosition Near.first Near.second position
       x y z INR].
  apply sqrt_lt_of_sq; nra.
Qed.

End CollisionOrder.

(** X13: two pieces [i < j] in a frame in which nothing is dragged.  With
    the jitter draws at their midpoint 0.5 the collision rule is
    antisymmetric: for the same pair of positions, what it adds to the
    velocity of one piece is minus what it adds to the velocity of the
    other, an impulse of length (1.1 - dist) * 15 * delta when the
    positions differ.  But the two passes of a frame do not read the same
    pair of positions: the pass of [i] reads [j] where the frame found it,
    and the pass of [j] reads [i] where the pass of [i] has put it, after
    its wall check, integration and bobbing.  What the pass of [j] adds
    to the velocity of [j] is minus what the rule gives [i] at that new
    position. *)
Theorem collision_impulses_are_opposite (fr : Physics.Frame)
    (w : Physics.World) (i j : nat) (mi mj : THREE.Group)
    (vi vj : THREE.Vector3) :
  Physics.active (Physics.physics w) = true -> Physics.roomy w ->
  Physics.dragRef w = None -> (i < j)%nat ->
  Physics.cubesRefs w !! i = Some mi -> Physics.cubesRefs w !! j = Some mj ->
  Physics.velocities (Physics.physics w) !! i = Some vi ->
  Physics.velocities (Physics.physics w) !! j = Some vj ->
  (forall k, Physics.random fr k = 0.5%R) ->
  let a := Physics.getWorldPosition fr i (THREE.position mi) in
  let b := Physics.getWorldPosition fr j (THREE.position mj) in
  exists wi ui ni wj w',
    Physics.forEachFrom i 0 (Physics.stepPiece fr) w = Some wi
    /\ Physics.cubesRefs wi !! i = Some mi
    /\ Physics.cubesRefs wi !! j = Some mj
    /\ Physics.impulses fr wi i mi vi = Some (ui, ni)
    /\ Physics.forEachFrom j 0 (Physics.stepPiece fr) w = Some wj
    /\ Physics.cubesRefs wj !! i
       = Some (THREE.setPosition mi
                 (fst (Physics.integrate fr i (THREE.position mi) ui)))
    /\ Physics.cubesRefs wj !! j = Some mj
    /\ Physics.velocities (Physics.physics wj) !! j = Some vj
    /\ Physics.useFrame fr w = Some w'
    /\ ((THREE.distanceTo a b < CUBE_THEME.collisionMinDist)%R ->
        forall u v n m,
        exists impulse,
          Physics.collide fr (Physics.cubesRefs wi) i a j (u, n)
          = Some (THREE.add u impulse, S (S n))
          /\ Physics.collide fr (Physics.cubesRefs wi) j b i (v, m)
             = Some (THREE.add v (THREE.multiplyScalar impulse (-1)),
                     S (S m))
          /\ (a <> b -> (0 <= Physics.delta fr)%R ->
              THREE.length impulse
              = ((CUBE_THEME.collisionMinDist - THREE.distanceTo a b)
                 * CUBE_THEME.collisionForce * Physics.delta fr)%R))
    /\ (let a' :=
          Physics.getWorldPosition fr i
            (fst (Physics.integrate fr i (THREE.position mi) ui)) in
        (THREE.distanceTo b a' < CUBE_THEME.collisionMinDist)%R ->
        forall u v n m,
        exists impulse,
          Physics.collide fr (Physics.cubesRefs wj) j b i (v, m)
          = Some (THREE.add v impulse, S (S m))
          /\ Physics.collide fr (Physics.cubesRefs wj) i a' j (u, n)
             = Some (THREE.add u (THREE.multiplyScalar impulse (-1)),
                     S (S n))
          /\ (b <> a' -> (0 <= Physics.delta fr)%R ->
              THREE.length impulse
              = ((CUBE_THEME.collisionMinDist - THREE.distanceTo b a')
                 * CUBE_THEME.collisionForce * Physics.delta fr)%R)).
Proof.
  intros Ha Hr Hd Hij Hmi Hmj Hvi Hvj Hrnd a b.
  destruct (pass_order fr w i j mi mj vi vj Hr Hd Hij Hmi Hmj Hvi Hvj)
    as (wi & ui & ni & wj & Hrun & Hmi' & Hmj' & Hi & Hrunj & Hci & Hcj
        & Hvelj).
  assert (Hframe : is_Some (Physics.useFrame fr w)).
  { unfold Physics.useFrame. rewrite Ha. apply steps_total. exact Hr. }
  destruct Hframe as [w' Hframe].
  exists wi, ui, ni, wj, w'.
  split; [exact Hrun|]. split; [exact Hmi'|]. split; [exact Hmj'|].
  split; [exact Hi|]. split; [exact Hrunj|]. split; [exact Hci|].
  split; [exact Hcj|]. split; [exact Hvelj|]. split; [exact Hframe|].
  split.
  - intros Hnear u v n m.
    apply (collide_antisymmetric fr (Physics.cubesRefs wi) i j mi mj u v n m
             ltac:(lia) Hmi' Hmj' Hrnd Hnear).
  - intros a' Hnear u v n m.
    apply (collide_antisymmetric fr (Physics.cubesRefs wj) j i mj
             (THREE.setPosition mi
                (fst (Physics.integrate fr i (THREE.position mi) ui)))
             v u m n ltac:(lia) Hcj Hci Hrnd Hnear).
Qed.

Lemma collision_impulses_are_opposite_witness :
  exists wi wj w' impulse,
    Physics.forEachFrom 1 0 (Physics.stepPiece Sample.frame) Near.world
    = Some wj
    /\ Physics.useFrame Sample.frame Near.world = Some w'
    /\ Physics.collide Sample.frame (Physics.cubesRefs wi) 0
         (Physics.getWorldPosition Sample.frame 0
            (THREE.position Near.first)) 1
         (THREE.vec3 0 0 0, 0%nat)
       = Some (THREE.add (THREE.vec3 0 0 0) impulse, 2%nat)
    /\ (0 < THREE.length impulse)%R.
Proof.
  destruct (collision_impulses_are_opposite Sample.frame Near.world 0 1
              Near.first Near.second (THREE.vec3 0 0 0) (THREE.vec3 0 0 0)
              eq_refl near_roomy eq_refl ltac:(lia) near_first near_second
              eq_refl eq_refl ltac:(reflexivity))
    as (wi & ui & ni & wj & w' & _ & _ & _ & _ & Hrunj & _ & _ & _ & Hframe
        & Hrule & _).
  destruct (Hrule near_distance (THREE.vec3 0 0 0) (THREE.vec3 0 0 0)
              0%nat 0%nat) as (impulse & Hc & _ & Hlen).
  exists wi, wj, w', impulse.
  split; [exact Hrunj|]. split; [exact Hframe|]. split; [exact Hc|].
  rewrite Hlen.
  - pose proof near_distance as Hd. revert Hd.
    generalize (THREE.distanceTo
                  (Physics.getWorldPosition Sample.frame 0
                     (THREE.position Near.first))
                  (Physics.getWorldPosition Sample.frame 1
                     (THREE.position Near.second))).
    unfold CUBE_THEME.collisionMinDist, CUBE_THEME.collisionForce.
    cbn [Sample.frame Physics.delta]. intros d Hd. nra.
  - cbn [Sample.frame Physics.getWorldPosition Near.first Near.second
         THREE.position].
    intros E. pose proof (f_equal THREE.x E) as Ex. cbn [THREE.x] in Ex. lra.
  - cbn [Sample.frame Physics.delta]. lra.
Defined.

(** X24: a frame in which piece [i] is held.  Whatever the other pieces
    do, the frame ends with piece [i] eased by 0.2 from where it was
    toward the pointer's floor projection lifted by 0.5, and with the
    velocity ten times the displacement toward that target: no mouse
    repulsion, collision, wall check, integration, bobbing or damping has
    touched it.  The pass of [i] makes no random draw, moves no other
    piece, and adds to the velocity of each other piece [j] the push
    [normalize(other - p') * ((1.3 - dist) * 30 * delta)] when [dist] is
    below 1.3, where [p'] is the eased [mesh.position] of the held piece
    and [other] the world position of [j], and nothing otherwise.  The
    passes of the other pieces gather no mouse repulsion in such a
    frame. *)
Theorem held_piece_follows_the_drag_rule_alone (fr : Physics.Frame)
    (w : Physics.World) (i : nat) (mesh : THREE.Group) (v : THREE.Vector3) :
  Physics.active (Physics.physics w) = true -> Physics.roomy w ->
  Physics.dragRef w = Some i ->
  Physics.cubesRefs w !! i = Some mesh ->
  Physics.velocities (Physics.physics w) !! i = Some v ->
  let target :=
    THREE.vec3 (THREE.x (Physics.mouseWorldPos fr))
               (Physics.PHYSICS_FLOOR_Y + 0.5)%R
               (THREE.z (Physics.mouseWorldPos fr)) in
  let p' := THREE.lerp (THREE.position mesh) target 0.2%R in
  exists wi wd w',
    Physics.forEachFrom i 0 (Physics.stepPiece fr) w = Some wi
    /\ Physics.stepPiece fr i wi = Some wd
    /\ Physics.forEachFrom (List.length (Physics.cubesRefs w) - S i) (S i)
         (Physics.stepPiece fr) wd = Some w'
    /\ Physics.useFrame fr w = Some w'
    /\ Physics.cubesRefs w' !! i = Some (THREE.setPosition mesh p')
    /\ Physics.velocities (Physics.physics w') !! i
       = Some (THREE.multiplyScalar
                 (THREE.sub target (THREE.position mesh)) 10%R)
    /\ Physics.draws wd = Physics.draws wi
    /\ (forall j mj vj, j <> i ->
          Physics.cubesRefs wi !! j = Some mj ->
          Physics.velocities (Physics.physics wi) !! j = Some vj ->
          let otherPos := Physics.getWorldPosition fr j (THREE.position mj) in
          let dist := THREE.distanceTo p' otherPos in
          Physics.cubesRefs wd !! j = Some mj
          /\ Physics.velocities (Physics.physics wd) !! j
             = Some (if Rlt_dec dist 1.3%R
                     then THREE.add vj
                            (THREE.multiplyScalar
                               (THREE.normalize (THREE.sub otherPos p'))
                               ((1.3 - dist) * 30.0 * Physics.delta fr)%R)
                     else vj))
    /\ (forall j mj vj w0,
          Physics.dragRef w0 = Some i ->
          Physics.impulses fr w0 j mj vj
          = Physics.collisions fr (Physics.cubesRefs w0) j
              (Physics.getWorldPosition fr j (THREE.position mj))
              (vj, Physics.draws w0)).
Proof.
  intros Ha Hr Hd Hm Hv target p'.
  destruct (frame_of_dragged_piece fr w i mesh v Ha Hr Hd Hm Hv)
    as (wi & wd & w' & Hrun & _ & _ & _ & Hstep & Hrest & Hframe & Hcd & _
        & _ & Hnd & Hpush & Hc & Hvel).
  exists wi, wd, w'.
  split; [exact Hrun|]. split; [exact Hstep|]. split; [exact Hrest|].
  split; [exact Hframe|]. split; [exact Hc|]. split; [exact Hvel|].
  split; [exact Hnd|]. split.
  - intros j mj vj Hj Hmj Hvj otherPos dist. split.
    + rewrite Hcd. rewrite list_lookup_insert_ne by congruence. exact Hmj.
    + rewrite (Hpush j mj vj Hj Hmj Hvj). reflexivity.
  - intros j mj vj w0 Hd0. unfold Physics.impulses. rewrite Hd0.
    reflexivity.
Qed.

Lemma held_piece_follows_the_drag_rule_alone_witness :
  exists w',
    Physics.useFrame Held.frame Held.world = Some w'
    /\ Physics.cubesRefs w' !! 0%nat
       = Some (THREE.setPosition Held.held
                 (THREE.lerp (THREE.position Held.held)
                    (THREE.vec3 0 (Physics.PHYSICS_FLOOR_Y + 0.5) 0) 0.2))
    /\ Physics.velocities (Physics.physics w') !! 0%nat
       = Some (THREE.multiplyScalar
                 (THREE.sub (THREE.vec3 0 (Physics.PHYSICS_FLOOR_Y + 0.5) 0)
                    (THREE.position Held.held)) 10)%R.
Proof.
  destruct (held_piece_follows_the_drag_rule_alone Held.frame Held.world 0
              Held.held (THREE.vec3 0 0 0) eq_refl held_roomy eq_refl
              held_first eq_refl)
    as (wi & wd & w' & _ & _ & _ & Hframe & Hc & Hvel & _).
  exists w'. split; [exact Hframe|]. split; [exact Hc|exact Hvel].
Defined.
